(** * Google Jobs API actor: a shallow embedding and its verified properties

    The development follows the three source modules of the actor:
    [google_jobs_api.js] (page fetching, normalisation, exclusion lists,
    field extraction, enrichment), [main.js] (the query loop and the copy of
    the persistence routine the actor runs) and [database.js] (the store keyed
    on [apply_link]).

    Modelling conventions.
    - A JavaScript string is a Stdlib [string], a text outside the ASCII
      range by its UTF-8 bytes. The model is exact on ASCII text: bytes
      above 127 are caseless and are neither word characters nor white
      space, so [toLowerCase] and the patterns agree with JavaScript only
      where the text they read is ASCII. A statement that depends on it
      says so.
    - [null] and [undefined] are [None]; a value is "truthy" when it is present
      and, for a string, non-empty.
    - A call that may throw returns an [Outcome]. *)

From Stdlib Require Import String Ascii List ZArith NArith Bool Lia Arith DecimalString.
Import ListNotations.
Open Scope string_scope.
Open Scope bool_scope.

(* ================================================================== *)
(** * Part I: the program *)
(* ================================================================== *)

(** ** JavaScript strings *)

Module JS.

Definition code (c : ascii) : N := N_of_ascii c.

Definition isUpper (c : ascii) : bool := ((65 <=? code c) && (code c <=? 90))%N.
Definition isLower (c : ascii) : bool := ((97 <=? code c) && (code c <=? 122))%N.
Definition isDigit (c : ascii) : bool := ((48 <=? code c) && (code c <=? 57))%N.

(** [\s] restricted to ASCII: tab, line feed, vertical tab, form feed,
    carriage return, space. *)
Definition isSpace (c : ascii) : bool :=
  ((9 <=? code c) && (code c <=? 13) || (code c =? 32))%N.

(** The line terminators [.] does not match. *)
Definition isLineTerminator (c : ascii) : bool :=
  ((code c =? 10) || (code c =? 13))%N.

(** [\w] *)
Definition isWord (c : ascii) : bool :=
  isUpper c || isLower c || isDigit c || (code c =? 95)%N.

(** The lower case of an ASCII letter; any other byte is left as it is. *)
Definition lowerChar (c : ascii) : ascii :=
  if isUpper c then ascii_of_N (code c + 32) else c.

(** [s.toLowerCase()] on ASCII text. A letter outside the ASCII range is
    left as it is, where JavaScript lower-cases it as well. *)
Fixpoint toLowerCase (s : string) : string :=
  match s with
  | EmptyString => EmptyString
  | String c s' => String (lowerChar c) (toLowerCase s')
  end.

(** [!!s] for a string. *)
Definition truthy (s : string) : bool :=
  match s with EmptyString => false | String _ _ => true end.

(** [!!v] for a value that is a string, [null] or [undefined]. *)
Definition truthyO (v : option string) : bool :=
  match v with Some s => truthy s | None => false end.

(** [v || d] for such a value and a string default. *)
Definition orDefault (v : option string) (d : string) : string :=
  match v with
  | Some s => if truthy s then s else d
  | None => d
  end.

Definition startsWith (s p : string) : bool := prefix p s.

Fixpoint includes (s p : string) : bool :=
  prefix p s ||
  match s with
  | EmptyString => false
  | String _ s' => includes s' p
  end.

Fixpoint endsWith (s p : string) : bool :=
  (s =? p) ||
  match s with
  | EmptyString => false
  | String _ s' => endsWith s' p
  end.

Fixpoint dropWhile (f : ascii -> bool) (s : string) : string :=
  match s with
  | EmptyString => EmptyString
  | String c s' => if f c then dropWhile f s' else s
  end.

Fixpoint takeWhile (f : ascii -> bool) (s : string) : string :=
  match s with
  | EmptyString => EmptyString
  | String c s' => if f c then String c (takeWhile f s') else EmptyString
  end.

Fixpoint drop (n : nat) (s : string) : string :=
  match n, s with
  | O, _ => s
  | S n', String _ s' => drop n' s'
  | S _, EmptyString => EmptyString
  end.

Fixpoint rev_onto (s acc : string) : string :=
  match s with
  | EmptyString => acc
  | String c s' => rev_onto s' (String c acc)
  end.

Definition rev (s : string) : string := rev_onto s EmptyString.

Definition trimStart (s : string) : string := dropWhile isSpace s.
Definition trimEnd (s : string) : string := rev (dropWhile isSpace (rev s)).
Definition trim (s : string) : string := trimEnd (trimStart s).

(** [startsWith] up to the case of ASCII letters, as a pattern compiled
    with the [i] flag matches a literal. *)
Definition startsWithCI (s p : string) : bool :=
  prefix (toLowerCase p) (toLowerCase s).

(** [s.replace(p, r)] for a string pattern: the first occurrence only. *)
Fixpoint replaceFirst (s p r : string) : string :=
  if prefix p s then r ++ drop (String.length p) s
  else match s with
       | EmptyString => EmptyString
       | String c s' => String c (replaceFirst s' p r)
       end.

End JS.

(** A call that returns or throws. *)
Inductive Outcome (A : Type) : Type :=
| Returns (a : A)
| Throws.
Arguments Returns {A} a.
Arguments Throws {A}.

(* ------------------------------------------------------------------ *)
(** ** google_jobs_api.js *)

(** One block of [job_highlights]: a title and its text items. *)
Module Highlight.
Record t := mk { title : string; items : list string }.
End Highlight.

(** A record of [data.jobs] as the provider sends it. *)
Module RawResult.
Record t := mk {
  title : option string;
  company_name : option string;
  location : option string;
  description : option string;
  detected_posted_at : option string;   (* detected_extensions?.posted_at *)
  detected_schedule : option string;    (* detected_extensions?.schedule *)
  job_highlights : option (list Highlight.t);
  extensions : option (list string);
  apply_link : option string;
  apply_links : option (list string);
  via : option string
}.
End RawResult.

(** The object [searchJobs] builds from a raw record. *)
Module Job.
Record t := mk {
  title : string;
  company : string;
  location : string;
  posted_at : string;
  schedule : string;
  description : string;
  highlights : list Highlight.t;
  extensions : list string;
  apply_link : option string;
  apply_links : list string;
  source : string
}.
End Job.

(** A contact as the email lookups return it. *)
Module Email.
Record t := mk {
  email : string;
  firstName : option string;
  lastName : option string;
  position : option string;
  confidence : option Z
}.
End Email.

Module GoogleJobsApi.

(** *** Exclusion lists *)

Definition EXCLUDED_COMPANIES : list string :=
  map JS.toLowerCase
    [ "Alliance Personnel"; "August Point Advisors"; "Bon Appetit";
      "Capital Restaurant Associates"; "Chartwells"; "Compass";
      "CORE Recruitment"; "EHS Recruiting"; "Empowered Hospitality";
      "Eurest"; "Goodwin Recruiting"; "HMG Plus - New York"; "LSG Sky Chefs";
      "Major Food Group"; "Measured HR"; "One Haus"; "Patrice & Associates";
      "Persone NYC"; "Playbook Advisors"; "Restaurant Associates";
      "Source One Hospitality"; "Ten Five Hospitality"; "The Goodkind Group";
      "Tuttle Hospitality"; "Willow Tree Recruiting";
      "washington"; "washington dc"; "washington d.c."; "washington d c" ].

Definition FAST_FOOD_RESTAURANTS : list string :=
  map JS.toLowerCase
    [ "McDonald's"; "Burger King"; "Wendy's"; "Subway"; "Taco Bell";
      "Pizza Hut"; "KFC"; "Chick-fil-A"; "Sonic Drive-In"; "Domino's Pizza";
      "Dairy Queen"; "Papa John's"; "Arby's"; "Little Caesars"; "Popeyes";
      "Chipotle"; "Hardee's"; "Jimmy John's"; "Zaxby's"; "Five Guys";
      "Whataburger"; "Culver's"; "Steak 'n Shake"; "Church's Chicken";
      "Raising Cane's"; "Wingstop"; "Qdoba"; "Jersey Mike's Subs";
      "Firehouse Subs"; "Moe's Southwest Grill"; "McAlister's Deli";
      "Panda Express"; "Panera Bread"; "Bojangles'"; "El Pollo Loco";
      "Del Taco"; "In-N-Out Burger"; "White Castle"; "Checkers"; "Rally's";
      "Shake Shack"; "Smashburger"; "Auntie Anne's"; "Baskin-Robbins";
      "Boston Market"; "Captain D's"; "Carl's Jr."; "Charleys Philly Steaks";
      "Chuck E. Cheese's"; "Cinnabon"; "Cold Stone Creamery"; "Cousins Subs";
      "Dunkin'"; "Einstein Bros. Bagels"; "Fazoli's"; "Godfather's Pizza";
      "Golden Corral"; "Hungry Howie's"; "Jamba Juice"; "Jason's Deli";
      "Jollibee"; "Krispy Kreme"; "Krystal"; "Long John Silver's";
      "Marco's Pizza"; "Nathan's Famous"; "Noodles & Company"; "Penn Station";
      "Port of Subs"; "Potbelly Sandwich Shop"; "Quiznos"; "Round Table Pizza";
      "Roy Rogers"; "Rubio's"; "Schlotzsky's"; "Smoothie King"; "Starbucks";
      "Taco John's"; "Tim Hortons"; "Tropical Smoothie Cafe";
      "Wienerschnitzel"; "Wing Street"; "Zoup!" ].

Inductive Reason := excluded_company | fast_food.

Record ExclusionVerdict := {
  isExcluded : bool;
  reason : option Reason;
  matched : option string     (* the [match] property *)
}.

Definition notExcluded : ExclusionVerdict :=
  {| isExcluded := false; reason := None; matched := None |}.

(** The test of the fast-food loop for one brand. *)
Definition fastFoodHit (lowerCompany fastFood : string) : bool :=
  (lowerCompany =? fastFood) ||
  JS.includes lowerCompany (" " ++ fastFood ++ " ") ||
  JS.startsWith lowerCompany (fastFood ++ " ") ||
  JS.endsWith lowerCompany (" " ++ fastFood).

Definition shouldExcludeCompany (company : string) : ExclusionVerdict :=
  if negb (JS.truthy company) || (company =? "Unknown Company") then notExcluded
  else
    let lowerCompany := JS.toLowerCase company in
    match find (fun excluded => JS.includes lowerCompany excluded)
               EXCLUDED_COMPANIES with
    | Some excluded =>
        {| isExcluded := true; reason := Some excluded_company;
           matched := Some excluded |}
    | None =>
        match find (fastFoodHit lowerCompany) FAST_FOOD_RESTAURANTS with
        | Some fastFood =>
            {| isExcluded := true; reason := Some fast_food;
               matched := Some fastFood |}
        | None => notExcluded
        end
    end.

(** *** searchJobs: one page *)

(** Group 1 of [title.match(/^(.*?)\s+-\s+/)], when the pattern matches.
    [separatorHere s] tells whether [\s+-\s+] matches at the head of [s]:
    the white space before the hyphen has to be the whole run, since the
    character after it must be the hyphen. *)
Definition separatorHere (s : string) : bool :=
  match s with
  | String c _ =>
      JS.isSpace c &&
      match JS.dropWhile JS.isSpace s with
      | String "-" (String d _) => JS.isSpace d
      | _ => false
      end
  | EmptyString => false
  end.

(** The lazy [(.*?)] grows one character at a time, never over a line
    terminator, until the separator matches. *)
Fixpoint titleMatch (title : string) : option string :=
  if separatorHere title then Some EmptyString
  else match title with
       | EmptyString => None
       | String c rest =>
           if JS.isLineTerminator c then None
           else option_map (String c) (titleMatch rest)
       end.

(** Group 1 of
    [description.match(/(?:at|with|for|join)\s+([\w\s&']+?)(?:\sin|\.|\!|\,)/i)]. *)

(** [(?:\sin|\.|\!|\,)] at the head of [s]. *)
Definition terminatorHere (s : string) : bool :=
  match s with
  | String c rest =>
      (JS.isSpace c && JS.startsWithCI rest "in") ||
      Ascii.eqb c "." || Ascii.eqb c "!" || Ascii.eqb c ","
  | EmptyString => false
  end.

(** [[\w\s&']] *)
Definition companyChar (c : ascii) : bool :=
  JS.isWord c || JS.isSpace c || Ascii.eqb c "&" || Ascii.eqb c "'".

(** [([\w\s&']+?)] followed by the terminator: the shortest non-empty run. *)
Fixpoint lazyCompany (s : string) : option string :=
  match s with
  | String c rest =>
      if companyChar c then
        if terminatorHere rest then Some (String c EmptyString)
        else option_map (String c) (lazyCompany rest)
      else None
  | EmptyString => None
  end.

(** [\s+] is greedy: the longest run of white space is tried first, then
    shorter ones, the group starting right after it. *)
Fixpoint afterKeyword (s : string) : option string :=
  match s with
  | String c rest =>
      if JS.isSpace c then
        match afterKeyword rest with
        | Some g => Some g
        | None => lazyCompany rest
        end
      else None
  | EmptyString => None
  end.

(** [(?:at|with|for|join)] at the head of [s]: what follows the keyword. *)
Definition keywordHere (s : string) : option string :=
  if JS.startsWithCI s "at" then Some (JS.drop 2 s)
  else if JS.startsWithCI s "with" then Some (JS.drop 4 s)
  else if JS.startsWithCI s "for" then Some (JS.drop 3 s)
  else if JS.startsWithCI s "join" then Some (JS.drop 4 s)
  else None.

Definition descMatchHere (s : string) : option string :=
  match keywordHere s with
  | Some rest => afterKeyword rest
  | None => None
  end.

(** The pattern is not anchored: the leftmost position that matches wins. *)
Fixpoint descMatch (description : string) : option string :=
  match descMatchHere description with
  | Some g => Some g
  | None =>
      match description with
      | EmptyString => None
      | String _ rest => descMatch rest
      end
  end.

(** The company name as the [map] callback of [searchJobs] recovers it;
    [None] when it stays empty. *)
Definition companyName (job : RawResult.t) : option string :=
  let companyName := RawResult.company_name job in
  if JS.truthyO companyName then companyName
  else
    let titleMatch :=
      match RawResult.title job with
      | Some t => if JS.truthy t then titleMatch t else None
      | None => None
      end in
    let companyName :=
      match titleMatch with
      | Some g => if JS.truthy g then Some g else companyName
      | None => companyName
      end in
    if negb (JS.truthyO companyName) && JS.truthyO (RawResult.description job)
    then
      match RawResult.description job with
      | Some d =>
          match descMatch d with
          | Some g => if JS.truthy g then Some (JS.trim g) else companyName
          | None => companyName
          end
      | None => companyName
      end
    else companyName.

(** The callback of [data.jobs.map] in [searchJobs]. *)
Definition processedJobs_map (job : RawResult.t) : Job.t :=
  {| Job.title := JS.orDefault (RawResult.title job) "Unknown Title";
     Job.company := JS.orDefault (companyName job) "Unknown Company";
     Job.location := JS.orDefault (RawResult.location job) "Unknown Location";
     Job.posted_at := JS.orDefault (RawResult.detected_posted_at job) "Unknown";
     Job.schedule := JS.orDefault (RawResult.detected_schedule job) "Unknown";
     Job.description :=
       JS.orDefault (RawResult.description job) "No description available";
     Job.highlights :=
       match RawResult.job_highlights job with Some h => h | None => [] end;
     Job.extensions :=
       match RawResult.extensions job with Some e => e | None => [] end;
     Job.apply_link :=
       if JS.truthyO (RawResult.apply_link job)
       then RawResult.apply_link job else None;
     Job.apply_links :=
       match RawResult.apply_links job with Some l => l | None => [] end;
     Job.source :=
       match RawResult.via job with
       | Some v =>
           if JS.truthy v then JS.replaceFirst v "via " EmptyString
           else "Unknown Source"
       | None => "Unknown Source"
       end |}.

(** What the request carries: the query, the location when it is given,
    the page token when there is one. *)
Record Request := {
  req_query : string;
  req_location : option string;
  req_next_page_token : option string
}.

(** The body of a reply: [data.jobs] and [data.pagination?.next_page_token]. *)
Record Data := {
  data_jobs : option (list RawResult.t);
  data_next_page_token : option string
}.

(** [Failed]: [fetch] or [response.json()] threw.
    [Replied ok data]: a body arrived, [ok] being [response.ok]. *)
Inductive Response :=
| Failed
| Replied (ok : bool) (data : Data).

Record SearchResult := {
  jobs : list Job.t;
  hasMore : bool;
  nextPageToken : option string
}.

Definition noJobs : SearchResult :=
  {| jobs := []; hasMore := false; nextPageToken := None |}.

(** What one call of [searchJobs] saw, kept for the record of a run: the
    token it was given and the provider's answer ([None]: no request was
    made). *)
Record PageRecord := {
  page_token : option string;
  page_response : option Response;
  page_result : SearchResult
}.

Section Search.

(** The network, threaded through the calls. *)
Variable World : Type.
(** [process.env.SEARCH_API_KEY] *)
Variable apiKey : option string.
Variable fetch : Request -> World -> Response * World.

Definition searchJobs (query location : string) (nextPageToken : option string)
           (w : World) : PageRecord * World :=
  let record resp r :=
    {| page_token := nextPageToken; page_response := resp; page_result := r |} in
  if negb (JS.truthyO apiKey) then (record None noJobs, w)
  else
    let request :=
      {| req_query := query;
         req_location := if JS.truthy location then Some location else None;
         req_next_page_token :=
           if JS.truthyO nextPageToken then nextPageToken else None |} in
    let '(response, w') := fetch request w in
    match response with
    | Failed => (record (Some response) noJobs, w')
    | Replied ok data =>
        if negb ok then (record (Some response) noJobs, w')
        else
          match data_jobs data with
          | None | Some [] => (record (Some response) noJobs, w')
          | Some raw =>
              let processedJobs := map processedJobs_map raw in
              let token := data_next_page_token data in
              (record (Some response)
                 {| jobs := processedJobs;
                    hasMore := JS.truthyO token;
                    nextPageToken :=
                      if JS.truthyO token then token else None |},
               w')
          end
    end.

(** *** searchAllJobs: the page loop *)

Record PageLoop := {
  allJobs : list Job.t;
  loopToken : option string;     (* [nextPageToken] *)
  currentPage : Z;
  pages : list PageRecord;       (* the calls made so far, oldest first *)
  world : World
}.

(** One run of the [do ... while] body and its test. The loop runs at
    most [fuel] times; [None] if that is not enough. *)
Fixpoint pageLoop (query location : string) (maxPages : Z)
         (fuel : nat) (st : PageLoop) : option PageLoop :=
  match fuel with
  | O => None
  | S fuel' =>
      let currentPage := (currentPage st + 1)%Z in
      let '(page, w') := searchJobs query location (loopToken st) (world st) in
      let result := page_result page in
      let pages := (pages st ++ [page])%list in
      if (List.length (jobs result) =? 0)%nat then
        (* break *)
        Some {| allJobs := allJobs st; loopToken := loopToken st;
                currentPage := currentPage; pages := pages; world := w' |}
      else
        let st' :=
          {| allJobs := (allJobs st ++ jobs result)%list;
             loopToken := nextPageToken result;
             currentPage := currentPage; pages := pages; world := w' |} in
        if JS.truthyO (nextPageToken result) && (currentPage <? maxPages)%Z
        then pageLoop query location maxPages fuel' st'
        else Some st'
  end.

(** [currentPage] grows by one each round and the loop goes on only
    below [maxPages], so [maxPages] rounds, and one for the first, are
    enough. *)
Definition searchAllJobs (query location : string) (maxPages : Z)
           (w : World) : option PageLoop :=
  pageLoop query location maxPages (S (Z.to_nat maxPages))
    {| allJobs := []; loopToken := None; currentPage := 0;
       pages := []; world := w |}.

End Search.

(** *** Salary *)

(** A number as [parseFloat] reads it from digits and dots: [NaN], or the
    decimal [mantissa / 10^decimals] with no trailing zero in its
    fraction. The rounding to a double is not represented. *)
Inductive JSNumber :=
| NaN
| Num (mantissa : N) (decimals : nat).

(** [!!n] for a number or [null]. *)
Definition truthyNum (n : option JSNumber) : bool :=
  match n with
  | Some (Num m _) => negb (m =? 0)%N
  | Some NaN | None => false
  end.

Fixpoint digitsValue (acc : N) (s : string) : N :=
  match s with
  | EmptyString => acc
  | String c s' => digitsValue (10 * acc + (JS.code c - 48))%N s'
  end.

Definition isZeroDigit (c : ascii) : bool := Ascii.eqb c "0".

(** [parseFloat] on a string of digits and dots: the longest prefix
    [digits], [digits.digits], [digits.] or [.digits]. *)
Definition parseFloat (s : string) : JSNumber :=
  let whole := JS.takeWhile JS.isDigit s in
  let fraction :=
    match JS.dropWhile JS.isDigit s with
    | String "." r => JS.takeWhile JS.isDigit r
    | _ => EmptyString
    end in
  if negb (JS.truthy whole) && negb (JS.truthy fraction) then NaN
  else
    let fraction := JS.rev (JS.dropWhile isZeroDigit (JS.rev fraction)) in
    Num (digitsValue 0 (whole ++ fraction)) (String.length fraction).

(** [s.replace(/,/g, '')] *)
Fixpoint removeCommas (s : string) : string :=
  match s with
  | EmptyString => EmptyString
  | String c s' =>
      if Ascii.eqb c "," then removeCommas s' else String c (removeCommas s')
  end.

(** The groups of a match of
    [/\$([0-9,.]+)(?:\s*-\s*\$([0-9,.]+))?(?:\s*(per|a|\/)\s*(hour|year|month|week|day))?/i]. *)
Record SalaryMatch := {
  group1 : string;
  group2 : option string;
  group4 : option string
}.

(** [[0-9,.]] *)
Definition amountChar (c : ascii) : bool :=
  JS.isDigit c || Ascii.eqb c "," || Ascii.eqb c ".".

(** [\$([0-9,.]+)] at the head of [s]: the group and what follows it. The
    group is the whole run: what follows in the pattern is optional. *)
Definition amountHere (s : string) : option (string * string) :=
  match s with
  | String "$" r =>
      let g := JS.takeWhile amountChar r in
      if JS.truthy g then Some (g, JS.dropWhile amountChar r) else None
  | _ => None
  end.

(** [\s*-\s*\$([0-9,.]+)] at the head of [s]. *)
Definition rangeHere (s : string) : option (string * string) :=
  match JS.dropWhile JS.isSpace s with
  | String "-" r => amountHere (JS.dropWhile JS.isSpace r)
  | _ => None
  end.

Fixpoint take (n : nat) (s : string) : string :=
  match n, s with
  | S n', String c s' => String c (take n' s')
  | _, _ => EmptyString
  end.

(** [\s*(hour|year|month|week|day)] at the head of [s]: the text of the
    group. *)
Definition unitHere (s : string) : option string :=
  let s := JS.dropWhile JS.isSpace s in
  if JS.startsWithCI s "hour" then Some (take 4 s)
  else if JS.startsWithCI s "year" then Some (take 4 s)
  else if JS.startsWithCI s "month" then Some (take 5 s)
  else if JS.startsWithCI s "week" then Some (take 4 s)
  else if JS.startsWithCI s "day" then Some (take 3 s)
  else None.

Definition orElse {A} (a b : option A) : option A :=
  match a with Some _ => a | None => b end.

(** [\s*(per|a|\/)\s*(hour|year|month|week|day)] at the head of [s]:
    group 4. The alternatives are tried in order. *)
Definition periodHere (s : string) : option string :=
  let s := JS.dropWhile JS.isSpace s in
  let alternative (word : string) :=
    if JS.startsWithCI s word then unitHere (JS.drop (String.length word) s)
    else None in
  orElse (alternative "per") (orElse (alternative "a") (alternative "/")).

Definition salaryMatchHere (s : string) : option SalaryMatch :=
  match amountHere s with
  | Some (g1, r1) =>
      let '(g2, r2) :=
        match rangeHere r1 with
        | Some (g, r) => (Some g, r)
        | None => (None, r1)
        end in
      Some {| group1 := g1; group2 := g2; group4 := periodHere r2 |}
  | None => None
  end.

(** [text.match(...)]: the leftmost match. *)
Fixpoint salaryMatch (text : string) : option SalaryMatch :=
  match salaryMatchHere text with
  | Some m => Some m
  | None =>
      match text with
      | EmptyString => None
      | String _ rest => salaryMatch rest
      end
  end.

Record SalaryInfo := {
  min : option JSNumber;
  max : option JSNumber;
  currency : string;
  period : string
}.

(** The assignments made when a text matched; the same in both places. *)
Definition recordMatch (m : SalaryMatch) (salaryInfo : SalaryInfo) : SalaryInfo :=
  let min := parseFloat (removeCommas (group1 m)) in
  let max :=
    match group2 m with
    | Some g => if JS.truthy g then parseFloat (removeCommas g) else min
    | None => min
    end in
  let period :=
    match group4 m with
    | Some g =>
        if JS.truthy g then
          let p := JS.toLowerCase g in
          if p =? "hour" then "hourly"
          else if p =? "year" then "yearly"
          else if p =? "month" then "monthly"
          else if p =? "week" then "weekly"
          else if p =? "day" then "daily"
          else period salaryInfo
        else period salaryInfo
    | None => period salaryInfo
    end in
  {| min := Some min; max := Some max;
     currency := currency salaryInfo; period := period |}.

(** The loop over the items of one block: it stops at the first item
    that matches. *)
Fixpoint itemsLoop (items : list string) (salaryInfo : SalaryInfo) : SalaryInfo :=
  match items with
  | [] => salaryInfo
  | item :: rest =>
      match salaryMatch item with
      | Some m => recordMatch m salaryInfo      (* break *)
      | None => itemsLoop rest salaryInfo
      end
  end.

(** The loop over the blocks: the [break] above leaves the inner loop
    only, so every block titled Compensation is visited. *)
Fixpoint highlightsLoop (highlights : list Highlight.t) (salaryInfo : SalaryInfo)
  : SalaryInfo :=
  match highlights with
  | [] => salaryInfo
  | highlight :: rest =>
      let salaryInfo :=
        if (Highlight.title highlight =? "Compensation") &&
           negb (Nat.eqb (List.length (Highlight.items highlight)) 0)
        then itemsLoop (Highlight.items highlight) salaryInfo
        else salaryInfo in
      highlightsLoop rest salaryInfo
  end.

Definition extractSalaryInfo (job : Job.t) : SalaryInfo :=
  let salaryInfo :=
    {| min := None; max := None; currency := "USD"; period := "yearly" |} in
  let salaryInfo := highlightsLoop (Job.highlights job) salaryInfo in
  if negb (truthyNum (min salaryInfo)) && JS.truthy (Job.description job) then
    match salaryMatch (Job.description job) with
    | Some m => recordMatch m salaryInfo
    | None => salaryInfo
    end
  else salaryInfo.

(** *** Skills *)

Definition commonCulinarySkills : list string :=
  [ "cooking"; "baking"; "grilling"; "sautéing"; "knife skills";
    "food preparation"; "menu planning"; "recipe development";
    "food safety"; "sanitation"; "inventory management"; "kitchen management";
    "plating"; "garnishing"; "culinary arts"; "pastry"; "butchery";
    "sous vide"; "food presentation"; "catering"; "banquet" ].

(** [skills.includes(skill)] *)
Definition arrayIncludes (l : list string) (x : string) : bool :=
  existsb (String.eqb x) l.

Definition extractSkills (job : Job.t) : list string :=
  let skills :=
    if JS.truthy (Job.description job) then
      filter (fun skill =>
                JS.includes (JS.toLowerCase (Job.description job))
                            (JS.toLowerCase skill))
             commonCulinarySkills
    else [] in
  fold_left
    (fun skills highlight =>
       if (Highlight.title highlight =? "Qualifications") &&
          negb (Nat.eqb (List.length (Highlight.items highlight)) 0)
       then
         fold_left
           (fun skills item =>
              fold_left
                (fun skills skill =>
                   if JS.includes (JS.toLowerCase item) (JS.toLowerCase skill) &&
                      negb (arrayIncludes skills skill)
                   then (skills ++ [skill])%list else skills)
                commonCulinarySkills skills)
           (Highlight.items highlight) skills
       else skills)
    (Job.highlights job) skills.

(** *** Experience level *)

Inductive ExperienceLevel := entry | mid | senior | executive.

Definition calculateExperienceLevel (job : Job.t) : ExperienceLevel :=
  let title := JS.toLowerCase (Job.title job) in
  if JS.includes title "executive chef" ||
     JS.includes title "head chef" ||
     JS.includes title "chef de cuisine" ||
     JS.includes title "culinary director" then executive
  else if JS.includes title "senior" ||
          JS.includes title "sr." ||
          JS.includes title "lead" ||
          JS.includes title "sous chef" then senior
  else if JS.includes title "junior" ||
          JS.includes title "jr." ||
          JS.includes title "entry" ||
          JS.includes title "trainee" ||
          JS.includes title "apprentice" ||
          JS.includes title "commis" then entry
  else mid.

(** *** processJobsForDatabase *)

(** The object [processJobsForDatabase] builds for a job it keeps. *)
Record ProcessedJob := {
  title : string;
  company : string;
  location : string;
  posted_at : string;
  schedule : string;
  description : string;
  salary_min : option JSNumber;
  salary_max : option JSNumber;
  salary_currency : string;
  salary_period : string;
  skills : list string;
  experience_level : ExperienceLevel;
  apply_link : option string;
  source : string;
  scraped_at : string;
  company_website : option string;
  company_domain : option string;
  emails : list Email.t
}.

Definition set_company_website (v : option string) (p : ProcessedJob) :=
  {| title := title p; company := company p; location := location p;
     posted_at := posted_at p; schedule := schedule p;
     description := description p; salary_min := salary_min p;
     salary_max := salary_max p; salary_currency := salary_currency p;
     salary_period := salary_period p; skills := skills p;
     experience_level := experience_level p; apply_link := apply_link p;
     source := source p; scraped_at := scraped_at p;
     company_website := v; company_domain := company_domain p;
     emails := emails p |}.

Definition set_company_domain (v : option string) (p : ProcessedJob) :=
  {| title := title p; company := company p; location := location p;
     posted_at := posted_at p; schedule := schedule p;
     description := description p; salary_min := salary_min p;
     salary_max := salary_max p; salary_currency := salary_currency p;
     salary_period := salary_period p; skills := skills p;
     experience_level := experience_level p; apply_link := apply_link p;
     source := source p; scraped_at := scraped_at p;
     company_website := company_website p; company_domain := v;
     emails := emails p |}.

Definition set_emails (v : list Email.t) (p : ProcessedJob) :=
  {| title := title p; company := company p; location := location p;
     posted_at := posted_at p; schedule := schedule p;
     description := description p; salary_min := salary_min p;
     salary_max := salary_max p; salary_currency := salary_currency p;
     salary_period := salary_period p; skills := skills p;
     experience_level := experience_level p; apply_link := apply_link p;
     source := source p; scraped_at := scraped_at p;
     company_website := company_website p;
     company_domain := company_domain p; emails := v |}.

(** The calls made to the lookups imported from [search_api.js] and
    [hunter_api.js], in the order they are made. *)
Inductive Call :=
| WebsiteLookup (company : string)
| DomainFromUrl (url : string)
| ByDomain (domain company : string)
| ByCompanyName (company : string).

Definition isByDomain (c : Call) : bool :=
  match c with ByDomain _ _ => true | _ => false end.
Definition isByCompanyName (c : Call) : bool :=
  match c with ByCompanyName _ => true | _ => false end.

(** [emails && emails.length > 0] *)
Definition hasEmails (emails : option (list Email.t)) : bool :=
  match emails with
  | Some (_ :: _) => true
  | _ => false
  end.

Definition emailsOf (emails : option (list Email.t)) : list Email.t :=
  match emails with Some l => l | None => [] end.

Section Enrichment.

Variable World : Type.
(** The four lookups: they are not part of this module, each may answer
    anything or throw. *)
Variable getWebsiteUrlFromSearchAPI :
  string -> World -> Outcome (option string) * World.
Variable getDomainFromUrl : string -> Outcome (option string).
Variable findEmailsWithHunter :
  string -> string -> World -> Outcome (option (list Email.t)) * World.
Variable findEmailsByCompanyName :
  string -> World -> Outcome (option (list Email.t)) * World.
(** [new Date().toISOString()] *)
Variable toISOString : World -> string.

(** The state of the enrichment of one job: the network, the calls made
    and the object under construction, which is updated in place. *)
Record Run := {
  net : World;
  calls : list Call;
  processedJob : ProcessedJob
}.

Definition M (A : Type) : Type := Run -> Outcome A * Run.

Definition ret {A} (a : A) : M A := fun r => (Returns a, r).

Definition bind {A B} (m : M A) (k : A -> M B) : M B :=
  fun r =>
    match m r with
    | (Returns a, r') => k a r'
    | (Throws, r') => (Throws, r')
    end.

Notation "x <- m ;; k" := (bind m (fun x => k))
  (at level 61, m at next level, right associativity).
Notation "m ;;; k" := (bind m (fun _ => k))
  (at level 61, right associativity).

Definition assign (f : ProcessedJob -> ProcessedJob) : M unit :=
  fun r =>
    (Returns tt,
     {| net := net r; calls := calls r; processedJob := f (processedJob r) |}).

Definition called {A} (c : Call) (f : World -> Outcome A * World) : M A :=
  fun r =>
    let '(o, w) := f (net r) in
    (o, {| net := w; calls := (calls r ++ [c])%list;
           processedJob := processedJob r |}).

(** The fallback to the search by company name, written three times in
    the source with the same effect. *)
Definition companyNameFallback (job : Job.t) : M unit :=
  companyEmails <-
    called (ByCompanyName (Job.company job))
           (findEmailsByCompanyName (Job.company job)) ;;
  if hasEmails companyEmails
  then assign (set_emails (emailsOf companyEmails))
  else ret tt.

(** The body of the [try] block. *)
Definition enrichment (job : Job.t) : M unit :=
  companyUrl <-
    called (WebsiteLookup (Job.company job))
           (getWebsiteUrlFromSearchAPI (Job.company job)) ;;
  match companyUrl with
  | Some url =>
      if JS.truthy url then
        assign (set_company_website companyUrl) ;;;
        domain <-
          called (DomainFromUrl url) (fun w => (getDomainFromUrl url, w)) ;;
        match domain with
        | Some d =>
            if JS.truthy d then
              assign (set_company_domain domain) ;;;
              emails <-
                called (ByDomain d (Job.company job))
                       (findEmailsWithHunter d (Job.company job)) ;;
              if hasEmails emails
              then assign (set_emails (emailsOf emails))
              else companyNameFallback job
            else companyNameFallback job
        | None => companyNameFallback job
        end
      else companyNameFallback job
  | None => companyNameFallback job
  end.

(** [try { ... } catch (error) { ... }]: the error is logged, the state
    reached stays. *)
Definition tryCatch (m : M unit) (r : Run) : Run := snd (m r).

(** The state of the loop over the jobs. *)
Record Processing := {
  processedJobs : list ProcessedJob;
  excludedCount : nat;
  excludedByCompany : nat;
  excludedByFastFood : nat;
  lookups : list Call;
  after : World
}.

(** One round of the loop. *)
Definition processJob (includeHunterData : bool) (st : Processing) (job : Job.t)
  : Processing :=
  let exclusionCheck := shouldExcludeCompany (Job.company job) in
  if isExcluded exclusionCheck then
    (* continue *)
    {| processedJobs := processedJobs st;
       excludedCount := S (excludedCount st);
       excludedByCompany :=
         match reason exclusionCheck with
         | Some excluded_company => S (excludedByCompany st)
         | _ => excludedByCompany st
         end;
       excludedByFastFood :=
         match reason exclusionCheck with
         | Some excluded_company => excludedByFastFood st
         | Some fast_food => S (excludedByFastFood st)
         | None => excludedByFastFood st
         end;
       lookups := lookups st; after := after st |}
  else
    let salaryInfo := extractSalaryInfo job in
    let skills := extractSkills job in
    let experienceLevel := calculateExperienceLevel job in
    let initial :=
      {| title := Job.title job; company := Job.company job;
         location := Job.location job; posted_at := Job.posted_at job;
         schedule := Job.schedule job; description := Job.description job;
         salary_min := min salaryInfo; salary_max := max salaryInfo;
         salary_currency := currency salaryInfo;
         salary_period := period salaryInfo;
         skills := skills; experience_level := experienceLevel;
         apply_link := Job.apply_link job; source := Job.source job;
         scraped_at := toISOString (after st);
         company_website := None; company_domain := None; emails := [] |} in
    let r :=
      {| net := after st; calls := lookups st; processedJob := initial |} in
    let r := if includeHunterData then tryCatch (enrichment job) r else r in
    {| processedJobs := (processedJobs st ++ [processedJob r])%list;
       excludedCount := excludedCount st;
       excludedByCompany := excludedByCompany st;
       excludedByFastFood := excludedByFastFood st;
       lookups := calls r; after := net r |}.

(** The function returns [processedJobs]; the counters are what it logs. *)
Definition processJobsForDatabase (jobs : list Job.t) (includeHunterData : bool)
           (w : World) : Processing :=
  fold_left (processJob includeHunterData) jobs
    {| processedJobs := []; excludedCount := 0; excludedByCompany := 0;
       excludedByFastFood := 0; lookups := []; after := w |}.

End Enrichment.


End GoogleJobsApi.

(* ------------------------------------------------------------------ *)
(** ** database.js *)

Module Database.

Definition ProcessedJob := GoogleJobsApi.ProcessedJob.
Definition Timestamp := Z.

(** A row of [culinary_jobs_google] as [createTables] declares it. *)
Module JobRow.
Record t := mk {
  id : Z;
  title : string;
  company : string;
  location : string;
  posted_at : string;
  schedule : string;
  description : string;
  salary_min : option GoogleJobsApi.JSNumber;
  salary_max : option GoogleJobsApi.JSNumber;
  salary_currency : string;
  salary_period : string;
  skills : list string;
  experience_level : GoogleJobsApi.ExperienceLevel;
  apply_link : option string;
  source : string;
  scraped_at : string;
  company_website : option string;
  company_domain : option string;
  date_added : Timestamp;
  last_updated : Timestamp
}.
End JobRow.

(** A row of [culinary_contacts_google]. *)
Module ContactRow.
Record t := mk {
  id : Z;
  job_id : Z;
  email : string;
  first_name : option string;
  last_name : option string;
  position : option string;
  confidence : option Z;
  company : string;
  domain : option string;
  date_added : Timestamp
}.
End ContactRow.

(** The two tables and their [SERIAL] sequences. *)
Record Tables := {
  jobs : list JobRow.t;
  contacts : list ContactRow.t;
  jobs_id_seq : Z;
  contacts_id_seq : Z
}.

(** What is sent over the client. *)
Inductive Command :=
| Connect
| Begin
| Commit
| Rollback
| InsertJob (job : ProcessedJob)
| InsertContact (jobId : Z) (email : Email.t) (company : string)
                (domain : option string).

(** *** The two statements *)

(** [CONSTRAINT unique_job_apply_link UNIQUE (apply_link)]: a proposed row
    conflicts with a row that carries the same link; a null link conflicts
    with nothing. *)
Definition conflicts (link : option string) (row : JobRow.t) : bool :=
  match link, JobRow.apply_link row with
  | Some l, Some l' => l =? l'
  | _, _ => false
  end.

(** The row the [VALUES] clause proposes. *)
Definition proposedRow (id : Z) (now : Timestamp) (job : ProcessedJob) : JobRow.t :=
  {| JobRow.id := id;
     JobRow.title := GoogleJobsApi.title job;
     JobRow.company := GoogleJobsApi.company job;
     JobRow.location := GoogleJobsApi.location job;
     JobRow.posted_at := GoogleJobsApi.posted_at job;
     JobRow.schedule := GoogleJobsApi.schedule job;
     JobRow.description := GoogleJobsApi.description job;
     JobRow.salary_min := GoogleJobsApi.salary_min job;
     JobRow.salary_max := GoogleJobsApi.salary_max job;
     JobRow.salary_currency := GoogleJobsApi.salary_currency job;
     JobRow.salary_period := GoogleJobsApi.salary_period job;
     JobRow.skills := GoogleJobsApi.skills job;
     JobRow.experience_level := GoogleJobsApi.experience_level job;
     JobRow.apply_link := GoogleJobsApi.apply_link job;
     JobRow.source := GoogleJobsApi.source job;
     JobRow.scraped_at := GoogleJobsApi.scraped_at job;
     JobRow.company_website := GoogleJobsApi.company_website job;
     JobRow.company_domain := GoogleJobsApi.company_domain job;
     JobRow.date_added := now;
     JobRow.last_updated := now |}.

(** [DO UPDATE SET ...]: every column of the proposed row but the link
    replaces the old one, [last_updated] is refreshed; [id] and
    [date_added] stay. *)
Definition updatedRow (now : Timestamp) (job : ProcessedJob) (old : JobRow.t)
  : JobRow.t :=
  {| JobRow.id := JobRow.id old;
     JobRow.title := GoogleJobsApi.title job;
     JobRow.company := GoogleJobsApi.company job;
     JobRow.location := GoogleJobsApi.location job;
     JobRow.posted_at := GoogleJobsApi.posted_at job;
     JobRow.schedule := GoogleJobsApi.schedule job;
     JobRow.description := GoogleJobsApi.description job;
     JobRow.salary_min := GoogleJobsApi.salary_min job;
     JobRow.salary_max := GoogleJobsApi.salary_max job;
     JobRow.salary_currency := GoogleJobsApi.salary_currency job;
     JobRow.salary_period := GoogleJobsApi.salary_period job;
     JobRow.skills := GoogleJobsApi.skills job;
     JobRow.experience_level := GoogleJobsApi.experience_level job;
     JobRow.apply_link := JobRow.apply_link old;
     JobRow.source := GoogleJobsApi.source job;
     JobRow.scraped_at := GoogleJobsApi.scraped_at job;
     JobRow.company_website := GoogleJobsApi.company_website job;
     JobRow.company_domain := GoogleJobsApi.company_domain job;
     JobRow.date_added := JobRow.date_added old;
     JobRow.last_updated := now |}.

(** Replace the first element that satisfies [f]. *)
Fixpoint updateFirst {A} (f : A -> bool) (g : A -> A) (l : list A) : list A :=
  match l with
  | [] => []
  | x :: rest => if f x then g x :: rest else x :: updateFirst f g rest
  end.

(** [INSERT INTO culinary_jobs_google ... ON CONFLICT (apply_link) DO UPDATE
    ... RETURNING id]. The sequence gives a value to the proposed row
    whether it is inserted or not. *)
Definition upsertJob (now : Timestamp) (job : ProcessedJob) (t : Tables)
  : Z * Tables :=
  let link := GoogleJobsApi.apply_link job in
  match find (conflicts link) (jobs t) with
  | Some old =>
      (JobRow.id old,
       {| jobs := updateFirst (conflicts link) (updatedRow now job) (jobs t);
          contacts := contacts t;
          jobs_id_seq := jobs_id_seq t + 1;
          contacts_id_seq := contacts_id_seq t |})
  | None =>
      (jobs_id_seq t,
       {| jobs := jobs t ++ [proposedRow (jobs_id_seq t) now job];
          contacts := contacts t;
          jobs_id_seq := jobs_id_seq t + 1;
          contacts_id_seq := contacts_id_seq t |})
  end%Z.

(** [CONSTRAINT unique_google_contact_email UNIQUE (job_id, email)] *)
Definition sameContact (jobId : Z) (email : string) (row : ContactRow.t) : bool :=
  (ContactRow.job_id row =? jobId)%Z && (ContactRow.email row =? email).

Definition updatedContact (email : Email.t) (company : string)
           (domain : option string) (old : ContactRow.t) : ContactRow.t :=
  {| ContactRow.id := ContactRow.id old;
     ContactRow.job_id := ContactRow.job_id old;
     ContactRow.email := ContactRow.email old;
     ContactRow.first_name := Email.firstName email;
     ContactRow.last_name := Email.lastName email;
     ContactRow.position := Email.position email;
     ContactRow.confidence := Email.confidence email;
     ContactRow.company := company;
     ContactRow.domain := domain;
     ContactRow.date_added := ContactRow.date_added old |}.

(** [job_id INTEGER REFERENCES culinary_jobs_google(id)] *)
Definition jobExists (jobId : Z) (t : Tables) : bool :=
  existsb (fun row => (JobRow.id row =? jobId)%Z) (jobs t).

(** [INSERT INTO culinary_contacts_google ... ON CONFLICT (job_id, email) DO
    UPDATE ...]; [None] when the job row it refers to does not exist. *)
Definition upsertContact (now : Timestamp) (jobId : Z) (email : Email.t)
           (company : string) (domain : option string) (t : Tables)
  : option Tables :=
  if negb (jobExists jobId t) then None
  else
    let same := sameContact jobId (Email.email email) in
    Some
      {| jobs := jobs t;
         contacts :=
           if existsb same (contacts t)
           then updateFirst same (updatedContact email company domain) (contacts t)
           else (contacts t ++
                 [ {| ContactRow.id := contacts_id_seq t;
                      ContactRow.job_id := jobId;
                      ContactRow.email := Email.email email;
                      ContactRow.first_name := Email.firstName email;
                      ContactRow.last_name := Email.lastName email;
                      ContactRow.position := Email.position email;
                      ContactRow.confidence := Email.confidence email;
                      ContactRow.company := company;
                      ContactRow.domain := domain;
                      ContactRow.date_added := now |} ])%list;
         jobs_id_seq := jobs_id_seq t;
         contacts_id_seq := (contacts_id_seq t + 1)%Z |}.

(** *** The client *)

(** A connection of the pool to the PostgreSQL server ([pg], line 6): the
    tables as the connection sees them, the tables as they were when the
    open transaction began, whether that transaction has failed, the time
    it began ([CURRENT_TIMESTAMP]) and what was sent so far. *)
Record Session := {
  tables : Tables;
  snapshot : option Tables;
  aborted : bool;
  transaction_time : Timestamp;
  issued : list Command
}.

(** One of the two INSERT statements. *)
Definition isInsert (c : Command) : bool :=
  match c with
  | InsertJob _ | InsertContact _ _ _ _ => true
  | _ => false
  end.

Definition inTransaction (s : Session) : bool :=
  match snapshot s with Some _ => true | None => false end.

(** What ROLLBACK restores. *)
Definition restored (s : Session) : Tables :=
  match snapshot s with Some t => t | None => tables s end.

Section Client.

(** The store's side of a run. [fault n c] tells whether command [c], sent
    after [n] others, raises an error of its own, for whatever reason it
    can: a value too long for its column, a lost connection. [clock n] is
    the time then. The server is PostgreSQL: a command that fails changes
    no row; a statement that fails inside a transaction block leaves the
    transaction aborted, every statement after it is refused until the
    block ends, and the COMMIT of an aborted transaction rolls it back
    without an error. *)
Variable fault : nat -> Command -> bool.
Variable clock : nat -> Timestamp.

(** [await client.query(...)]: the id returned, if the command returns
    one. *)
Definition query (c : Command) (s : Session) : Outcome (option Z) * Session :=
  let n := List.length (issued s) in
  let sent t snap failed time :=
    {| tables := t; snapshot := snap; aborted := failed;
       transaction_time := time; issued := issued s ++ [c] |} in
  let refused :=
    (Throws, sent (tables s) (snapshot s)
                  (aborted s || (isInsert c && inTransaction s))
                  (transaction_time s)) in
  if fault n c then refused
  else
    match c with
    | Connect =>
        (Returns None,
         sent (tables s) (snapshot s) (aborted s) (transaction_time s))
    | Begin => (Returns None, sent (tables s) (Some (tables s)) false (clock n))
    | Commit =>
        (Returns None,
         sent (if aborted s then restored s else tables s) None false
              (transaction_time s))
    | Rollback => (Returns None, sent (restored s) None false (transaction_time s))
    | InsertJob job =>
        if aborted s then refused
        else
          let '(id, t) := upsertJob (transaction_time s) job (tables s) in
          (Returns (Some id), sent t (snapshot s) false (transaction_time s))
    | InsertContact jobId email company domain =>
        if aborted s then refused
        else
          match upsertContact (transaction_time s) jobId email company domain
                              (tables s) with
          | Some t => (Returns None, sent t (snapshot s) false (transaction_time s))
          | None => refused
          end
    end.

(** The loop over [job.emails]. *)
Fixpoint contactsLoop (jobId : Z) (job : ProcessedJob) (emails : list Email.t)
         (s : Session) : Outcome unit * Session :=
  match emails with
  | [] => (Returns tt, s)
  | email :: rest =>
      match query (InsertContact jobId email (GoogleJobsApi.company job)
                                 (GoogleJobsApi.company_domain job)) s with
      | (Returns _, s') => contactsLoop jobId job rest s'
      | (Throws, s') => (Throws, s')
      end
  end.

(** The inner [try] block: the job row, then its contacts. It returns the
    id of the job row. *)
Definition tryJob (job : ProcessedJob) (s : Session) : Outcome Z * Session :=
  match query (InsertJob job) s with
  | (Returns (Some jobId), s1) =>
      match contactsLoop jobId job (GoogleJobsApi.emails job) s1 with
      | (Returns _, s2) => (Returns jobId, s2)
      | (Throws, s2) => (Throws, s2)
      end
  | (Returns None, s1) => (Throws, s1)
  | (Throws, s1) => (Throws, s1)
  end.

(** The loop over the jobs: a job whose block threw is logged and the
    loop goes on. *)
Fixpoint jobsLoop (jobs : list ProcessedJob) (insertedCount : nat) (s : Session)
  : nat * Session :=
  match jobs with
  | [] => (insertedCount, s)
  | job :: rest =>
      match tryJob job s with
      | (Returns _, s') => jobsLoop rest (S insertedCount) s'
      | (Throws, s') => jobsLoop rest insertedCount s'
      end
  end.

(** The outer [catch]: roll back and return 0; an error of the rollback
    itself leaves the function. *)
Definition rollingBack (s : Session) : Outcome nat * Session :=
  match query Rollback s with
  | (Returns _, s') => (Returns 0%nat, s')
  | (Throws, s') => (Throws, s')
  end.

(** [pool] is [None] until [initDatabase] has run. *)
Definition insertJobsIntoDatabase (pool : option Session)
           (jobs : list ProcessedJob) : Outcome nat * option Session :=
  match pool with
  | None => (Returns 0%nat, None)
  | Some s =>
      match query Connect s with
      | (Throws, s0) => (Throws, Some s0)
      | (Returns _, s0) =>
          match query Begin s0 with
          | (Throws, s1) =>
              let '(r, s') := rollingBack s1 in (r, Some s')
          | (Returns _, s1) =>
              let '(insertedCount, s2) := jobsLoop jobs 0 s1 in
              match query Commit s2 with
              | (Returns _, s3) => (Returns insertedCount, Some s3)
              | (Throws, s3) =>
                  let '(r, s') := rollingBack s3 in (r, Some s')
              end
          end
      end
  end.

End Client.

End Database.

(* ------------------------------------------------------------------ *)
(** ** main.js *)

Module Main.

Definition ProcessedJob := GoogleJobsApi.ProcessedJob.

(** *** The input and the work done for one query *)

(** The actor's input after the defaults of the destructuring. *)
Record Input := {
  queries : list string;
  maxPagesPerQuery : Z;
  location : string;
  saveToDataset : bool;
  pushToDatabase : bool;
  databaseUrl : string;
  databaseTable : string;
  deduplicateJobs : bool;
  fullTimeOnly : bool;
  excludeFastFood : bool;
  excludeRecruiters : bool;
  includeHunterData : bool
}.

Definition forceHunterData : bool := true.
Definition forcePushToDatabase : bool := true.
Definition testMode : bool := false.
Definition testModeLimit : nat := 5.

(** The predicate of the full-time filter. *)
Definition isFullTime (job : Job.t) : bool :=
  (Job.schedule job =? "Full-time") ||
  existsb (fun ext => JS.includes ext "Full-time") (Job.extensions job).

Section Query.

Variable World : Type.
Variable apiKey : option string.
Variable fetch :
  GoogleJobsApi.Request -> World -> GoogleJobsApi.Response * World.
Variable getWebsiteUrlFromSearchAPI :
  string -> World -> Outcome (option string) * World.
Variable getDomainFromUrl : string -> Outcome (option string).
Variable findEmailsWithHunter :
  string -> string -> World -> Outcome (option (list Email.t)) * World.
Variable findEmailsByCompanyName :
  string -> World -> Outcome (option (list Email.t)) * World.
Variable toISOString : World -> string.

(** What the body of the loop over the queries computes before it
    saves: the number of jobs found and the jobs processed. [None]
    stands for the [continue] taken when no job was found. *)
Record QueryResult := {
  found : nat;
  processing : option (GoogleJobsApi.Processing World)
}.

Definition processQuery (input : Input) (query : string) (w : World)
  : QueryResult :=
  let pagesToProcess := if testMode then 3%Z else maxPagesPerQuery input in
  match GoogleJobsApi.searchAllJobs World apiKey fetch query (location input)
                                    pagesToProcess w with
  | None => {| found := 0; processing := None |}
  | Some search =>
      let jobs := GoogleJobsApi.allJobs World search in
      if (List.length jobs =? 0)%nat then {| found := 0; processing := None |}
      else
        let filteredJobs :=
          if fullTimeOnly input then filter isFullTime jobs else jobs in
        let jobsToProcess :=
          if testMode then firstn testModeLimit filteredJobs
          else filteredJobs in
        {| found := List.length jobs;
           processing :=
             Some (GoogleJobsApi.processJobsForDatabase World
                     getWebsiteUrlFromSearchAPI getDomainFromUrl
                     findEmailsWithHunter findEmailsByCompanyName toISOString
                     jobsToProcess forceHunterData
                     (GoogleJobsApi.world World search)) |}
  end.

End Query.

(** *** The actor's own copy of the persistence routine *)

(** A row of [culinary_jobs_google] as [checkAndCreateTables] declares it:
    the unique key is (title, company), the link goes to [url]. *)
Module JobRow.
Record t := mk {
  id : Z;
  title : string;
  company : string;
  parent_company : string;
  location : string;
  salary : string;
  contact_name : string;
  contact_title : string;
  email : string;
  url : option string;
  job_details : string;
  linkedin : string;
  domain : string;
  company_size : string;
  date_added : string;
  last_updated : string;
  contacts_last_viewed : option string;
  parent_url : string
}.
End JobRow.

Module ContactRow.
Record t := mk {
  id : Z;
  job_id : Z;
  name : string;
  title : string;
  email : string;
  date_added : string;
  last_updated : string
}.
End ContactRow.

Record Tables := {
  jobs : list JobRow.t;
  contacts : list ContactRow.t;
  jobs_id_seq : Z;
  contacts_id_seq : Z
}.

(** The values bound to [$1 ... $17] of the job statement. *)
Record JobValues := {
  v_title : string;
  v_company : string;
  v_location : string;
  v_salary : string;
  v_contact_name : string;
  v_contact_title : string;
  v_email : string;
  v_url : option string;
  v_job_details : string;
  v_domain : string;
  v_now : string
}.

Inductive Command :=
| Connect
| Begin
| Commit
| Rollback
| InsertJob (values : JobValues)
| InsertContact (jobId : Z) (name title email now : string).

(** A number in a template literal: the digits of the mantissa with the
    point [decimals] places from the right (for the magnitudes JavaScript
    prints without an exponent). *)
Fixpoint zeros (n : nat) : string :=
  match n with O => EmptyString | S n' => String "0" (zeros n') end.

Definition numberToString (n : GoogleJobsApi.JSNumber) : string :=
  match n with
  | GoogleJobsApi.NaN => "NaN"
  | GoogleJobsApi.Num m d =>
      let digits := NilEmpty.string_of_uint (N.to_uint m) in
      match d with
      | O => digits
      | S _ =>
          let digits := zeros (S d - String.length digits) ++ digits in
          let whole := String.length digits - d in
          GoogleJobsApi.take whole digits ++ "." ++ JS.drop whole digits
      end
  end.

Definition salaryStr (job : ProcessedJob) : string :=
  if GoogleJobsApi.truthyNum (GoogleJobsApi.salary_min job) &&
     GoogleJobsApi.truthyNum (GoogleJobsApi.salary_max job) then
    match GoogleJobsApi.salary_min job, GoogleJobsApi.salary_max job with
    | Some lo, Some hi =>
        let salaryStr := numberToString lo ++ " - " ++ numberToString hi in
        let salaryStr :=
          if JS.truthy (GoogleJobsApi.salary_currency job)
          then GoogleJobsApi.salary_currency job ++ " " ++ salaryStr
          else salaryStr in
        if JS.truthy (GoogleJobsApi.salary_period job)
        then salaryStr ++ " " ++ GoogleJobsApi.salary_period job
        else salaryStr
    | _, _ => EmptyString
    end
  else EmptyString.

(** [`${email.firstName || ''} ${email.lastName || ''}`.trim()] *)
Definition fullName (email : Email.t) : string :=
  JS.trim (JS.orDefault (Email.firstName email) EmptyString ++ " " ++
           JS.orDefault (Email.lastName email) EmptyString).

Definition jobValues (now : string) (job : ProcessedJob) : JobValues :=
  let first := hd_error (GoogleJobsApi.emails job) in
  {| v_title := GoogleJobsApi.title job;
     v_company := GoogleJobsApi.company job;
     v_location := GoogleJobsApi.location job;
     v_salary := salaryStr job;
     v_contact_name :=
       match first with Some e => fullName e | None => EmptyString end;
     v_contact_title :=
       match first with
       | Some e => JS.orDefault (Email.position e) EmptyString
       | None => EmptyString
       end;
     v_email :=
       match first with Some e => Email.email e | None => EmptyString end;
     v_url := GoogleJobsApi.apply_link job;
     v_job_details := GoogleJobsApi.description job;
     v_domain := JS.orDefault (GoogleJobsApi.company_domain job) EmptyString;
     v_now := now |}.

(** [CONSTRAINT culinary_jobs_google_title_company_key UNIQUE (title, company)] *)
Definition conflicts (v : JobValues) (row : JobRow.t) : bool :=
  (JobRow.title row =? v_title v) && (JobRow.company row =? v_company v).

Definition proposedRow (id : Z) (v : JobValues) : JobRow.t :=
  {| JobRow.id := id; JobRow.title := v_title v; JobRow.company := v_company v;
     JobRow.parent_company := EmptyString; JobRow.location := v_location v;
     JobRow.salary := v_salary v; JobRow.contact_name := v_contact_name v;
     JobRow.contact_title := v_contact_title v; JobRow.email := v_email v;
     JobRow.url := v_url v; JobRow.job_details := v_job_details v;
     JobRow.linkedin := EmptyString; JobRow.domain := v_domain v;
     JobRow.company_size := EmptyString; JobRow.date_added := v_now v;
     JobRow.last_updated := v_now v; JobRow.contacts_last_viewed := None;
     JobRow.parent_url := EmptyString |}.

Definition updatedRow (v : JobValues) (old : JobRow.t) : JobRow.t :=
  {| JobRow.id := JobRow.id old; JobRow.title := JobRow.title old;
     JobRow.company := JobRow.company old;
     JobRow.parent_company := JobRow.parent_company old;
     JobRow.location := v_location v;
     JobRow.salary := v_salary v; JobRow.contact_name := v_contact_name v;
     JobRow.contact_title := v_contact_title v; JobRow.email := v_email v;
     JobRow.url := v_url v; JobRow.job_details := v_job_details v;
     JobRow.linkedin := JobRow.linkedin old; JobRow.domain := v_domain v;
     JobRow.company_size := JobRow.company_size old;
     JobRow.date_added := JobRow.date_added old;
     JobRow.last_updated := v_now v;
     JobRow.contacts_last_viewed := JobRow.contacts_last_viewed old;
     JobRow.parent_url := JobRow.parent_url old |}.

(** [INSERT ... ON CONFLICT (title, company) DO UPDATE ... RETURNING id] *)
Definition upsertJob (v : JobValues) (t : Tables) : Z * Tables :=
  match find (conflicts v) (jobs t) with
  | Some old =>
      (JobRow.id old,
       {| jobs := Database.updateFirst (conflicts v) (updatedRow v) (jobs t);
          contacts := contacts t;
          jobs_id_seq := jobs_id_seq t + 1;
          contacts_id_seq := contacts_id_seq t |})
  | None =>
      (jobs_id_seq t,
       {| jobs := jobs t ++ [proposedRow (jobs_id_seq t) v];
          contacts := contacts t;
          jobs_id_seq := jobs_id_seq t + 1;
          contacts_id_seq := contacts_id_seq t |})
  end%Z.

Definition sameContact (jobId : Z) (email : string) (row : ContactRow.t) : bool :=
  (ContactRow.job_id row =? jobId)%Z && (ContactRow.email row =? email).

Definition jobExists (jobId : Z) (t : Tables) : bool :=
  existsb (fun row => (JobRow.id row =? jobId)%Z) (jobs t).

(** [INSERT ... ON CONFLICT (job_id, email) DO UPDATE SET name, title,
    last_updated] *)
Definition upsertContact (jobId : Z) (name title email now : string) (t : Tables)
  : option Tables :=
  if negb (jobExists jobId t) then None
  else
    let same := sameContact jobId email in
    Some
      {| jobs := jobs t;
         contacts :=
           if existsb same (contacts t)
           then Database.updateFirst same
                  (fun old =>
                     {| ContactRow.id := ContactRow.id old;
                        ContactRow.job_id := ContactRow.job_id old;
                        ContactRow.name := name;
                        ContactRow.title := title;
                        ContactRow.email := ContactRow.email old;
                        ContactRow.date_added := ContactRow.date_added old;
                        ContactRow.last_updated := now |})
                  (contacts t)
           else (contacts t ++
                 [ {| ContactRow.id := contacts_id_seq t;
                      ContactRow.job_id := jobId;
                      ContactRow.name := name;
                      ContactRow.title := title;
                      ContactRow.email := email;
                      ContactRow.date_added := now;
                      ContactRow.last_updated := now |} ])%list;
         jobs_id_seq := jobs_id_seq t;
         contacts_id_seq := (contacts_id_seq t + 1)%Z |}.

Record Session := {
  tables : Tables;
  snapshot : option Tables;
  aborted : bool;
  issued : list Command
}.

Definition isInsert (c : Command) : bool :=
  match c with
  | InsertJob _ | InsertContact _ _ _ _ _ => true
  | _ => false
  end.

Definition inTransaction (s : Session) : bool :=
  match snapshot s with Some _ => true | None => false end.

Definition restored (s : Session) : Tables :=
  match snapshot s with Some t => t | None => tables s end.

Section Client.

(** As in [Database]: [fault] makes commands fail, the server is
    PostgreSQL, and [clock n] is what [new Date().toISOString()] gives
    after [n] commands. *)
Variable fault : nat -> Command -> bool.
Variable clock : nat -> string.

Definition query (c : Command) (s : Session) : Outcome (option Z) * Session :=
  let n := List.length (issued s) in
  let sent t snap failed :=
    {| tables := t; snapshot := snap; aborted := failed;
       issued := issued s ++ [c] |} in
  let refused :=
    (Throws, sent (tables s) (snapshot s)
                  (aborted s || (isInsert c && inTransaction s))) in
  if fault n c then refused
  else
    match c with
    | Connect => (Returns None, sent (tables s) (snapshot s) (aborted s))
    | Begin => (Returns None, sent (tables s) (Some (tables s)) false)
    | Commit =>
        (Returns None,
         sent (if aborted s then restored s else tables s) None false)
    | Rollback => (Returns None, sent (restored s) None false)
    | InsertJob v =>
        if aborted s then refused
        else
          let '(id, t) := upsertJob v (tables s) in
          (Returns (Some id), sent t (snapshot s) false)
    | InsertContact jobId name title email now =>
        if aborted s then refused
        else
          match upsertContact jobId name title email now (tables s) with
          | Some t => (Returns None, sent t (snapshot s) false)
          | None => refused
          end
    end.

(** The loop over [job.emails]: each contact has a [try] of its own. *)
Fixpoint contactsLoop (jobId : Z) (now : string) (emails : list Email.t)
         (s : Session) : Session :=
  match emails with
  | [] => s
  | email :: rest =>
      let '(_, s') :=
        query (InsertContact jobId (fullName email)
                 (JS.orDefault (Email.position email) EmptyString)
                 (Email.email email) now) s in
      contactsLoop jobId now rest s'
  end.

Definition tryJob (job : ProcessedJob) (s : Session) : Outcome Z * Session :=
  let now := clock (List.length (issued s)) in
  match query (InsertJob (jobValues now job)) s with
  | (Returns (Some jobId), s1) =>
      (Returns jobId, contactsLoop jobId now (GoogleJobsApi.emails job) s1)
  | (Returns None, s1) => (Throws, s1)
  | (Throws, s1) => (Throws, s1)
  end.

Fixpoint jobsLoop (jobs : list ProcessedJob) (insertedCount : nat) (s : Session)
  : nat * Session :=
  match jobs with
  | [] => (insertedCount, s)
  | job :: rest =>
      match tryJob job s with
      | (Returns _, s') => jobsLoop rest (S insertedCount) s'
      | (Throws, s') => jobsLoop rest insertedCount s'
      end
  end.

(** Whatever happens the function returns [insertedCount]: 0 when the
    connection fails, the count reached in the loop otherwise, also
    after a rollback. *)
Definition insertJobsIntoDatabase (pool : option Session)
           (jobs : list ProcessedJob) : nat * option Session :=
  match pool with
  | None => (0%nat, None)
  | Some s =>
      match query Connect s with
      | (Throws, s0) => (0%nat, Some s0)
      | (Returns _, s0) =>
          match query Begin s0 with
          | (Throws, s1) => (0%nat, Some (snd (query Rollback s1)))
          | (Returns _, s1) =>
              let '(insertedCount, s2) := jobsLoop jobs 0 s1 in
              match query Commit s2 with
              | (Returns _, s3) => (insertedCount, Some s3)
              | (Throws, s3) => (insertedCount, Some (snd (query Rollback s3)))
              end
          end
      end
  end.

End Client.

End Main.

(* ================================================================== *)
(** * Part II: the vocabulary of the properties *)
(* ================================================================== *)

Import GoogleJobsApi.

(** ** Exclusion *)

(** The four ways a brand can sit in a lower-cased company name. *)
Definition tokenBounded (lowerCompany brand : string) : Prop :=
  lowerCompany = brand \/
  (exists r, lowerCompany = brand ++ " " ++ r) \/
  (exists l, lowerCompany = l ++ " " ++ brand) \/
  (exists l r, lowerCompany = l ++ " " ++ brand ++ " " ++ r).

(** ** Experience level *)

Definition executiveTier : list string :=
  [ "executive chef"; "head chef"; "chef de cuisine"; "culinary director" ].
Definition seniorTier : list string := [ "senior"; "sr."; "lead"; "sous chef" ].
Definition entryTier : list string :=
  [ "junior"; "jr."; "entry"; "trainee"; "apprentice"; "commis" ].

(** The lower-cased title holds a keyword of the tier, anywhere. *)
Definition mentions (title : string) (tier : list string) : Prop :=
  exists keyword before behind,
    In keyword tier /\ JS.toLowerCase title = before ++ keyword ++ behind.

Definition seniorExecutiveChef : Job.t :=
  Job.mk "Senior Executive Chef" "Luna Bistro" "New York, NY" "2 days ago"
         "Full-time" "Lead the kitchen." [] [] None [] "LinkedIn".

(** ** Normalisation *)

(** Every character of [s] satisfies [f]. *)
Fixpoint allChars (f : ascii -> bool) (s : string) : bool :=
  match s with
  | EmptyString => true
  | String c s' => f c && allChars f s'
  end.



(** The keywords of the pattern of the description. *)
Definition companyKeywords : list string := [ "at"; "with"; "for"; "join" ].

(** What the pattern of the title gives, when it is not empty. *)
Definition titleCapture (job : RawResult.t) : option string :=
  match RawResult.title job with
  | Some t =>
      match titleMatch t with
      | Some g => if JS.truthy g then Some g else None
      | None => None
      end
  | None => None
  end.

(** What the pattern of the description gives once trimmed, when it is not
    empty. *)
Definition descriptionCapture (job : RawResult.t) : option string :=
  match RawResult.description job with
  | Some d =>
      match descMatch d with
      | Some g => if JS.truthy (JS.trim g) then Some (JS.trim g) else None
      | None => None
      end
  | None => None
  end.

(** The recovery of the company name as the specification orders it: the
    provider's field, the "Company - Title" pattern of the title, the pattern
    of the description, the sentinel. *)
Definition companyInOrder (job : RawResult.t) : string :=
  match RawResult.company_name job with
  | Some (String c s) => String c s
  | _ =>
      match titleCapture job with
      | Some g => g
      | None =>
          match descriptionCapture job with
          | Some g => g
          | None => "Unknown Company"
          end
      end
  end.

(** Three raw records: a company in the title only, in the description
    only, and a record with no field at all. *)
Definition lunaByTitle : RawResult.t :=
  RawResult.mk (Some "Luna Bistro - Line Cook") None None None None None None None
               None None None.

Definition lunaByDescription : RawResult.t :=
  RawResult.mk (Some "Line Cook") None None
               (Some "Work for Luna Bistro, a busy kitchen.") None None None None
               None None None.

Definition emptyRecord : RawResult.t :=
  RawResult.mk None None None None None None None None None None None.

(** ** The page loop *)

(** The jobs a call returned. *)
Definition jobsOf (p : PageRecord) : list Job.t := jobs (page_result p).

(** What a call of [searchJobs] leaves in the record: no job at all, or the
    jobs of an accepted reply, normalised one by one in the order of the
    reply, with the token of the reply. *)
Definition faithful (p : PageRecord) : Prop :=
  page_result p = noJobs \/
  exists data raw,
    page_response p = Some (Replied true data) /\
    data_jobs data = Some raw /\ raw <> [] /\
    jobs (page_result p) = map processedJobs_map raw /\
    nextPageToken (page_result p) =
      (if JS.truthyO (data_next_page_token data)
       then data_next_page_token data else None).

(** Each call is given the token the call before returned. *)
Fixpoint chained (token : option string) (l : list PageRecord) : Prop :=
  match l with
  | [] => True
  | p :: rest =>
      page_token p = token /\ chained (nextPageToken (page_result p)) rest
  end.

(** A provider that answers every request with an empty page and a token. *)
Definition emptyPageWithToken : Data :=
  {| data_jobs := Some []; data_next_page_token := Some "CgwQ_next" |}.

Definition alwaysEmpty (r : Request) (w : nat) : Response * nat :=
  (Replied true emptyPageWithToken, S w).

(** ** The enrichment chain *)

Section EnrichmentVocabulary.

Variable World : Type.
Variable getWebsiteUrlFromSearchAPI :
  string -> World -> Outcome (option string) * World.
Variable getDomainFromUrl : string -> Outcome (option string).
Variable findEmailsWithHunter :
  string -> string -> World -> Outcome (option (list Email.t)) * World.

(** The three situations the specification names, for a job and the network
    as the enrichment finds it, read off what the lookups return: a website
    is not found when the lookup returns nothing or the empty string, a
    domain is not derived when the extraction returns nothing or the empty
    string, and the search by domain has no contact when it returns nothing
    or an empty list. *)
Definition noWebsiteFound (job : Job.t) (w : World) : Prop :=
  exists found w1,
    getWebsiteUrlFromSearchAPI (Job.company job) w = (Returns found, w1) /\
    (found = None \/ found = Some EmptyString).

Definition noDomainDerived (job : Job.t) (w : World) : Prop :=
  exists url w1 derived,
    getWebsiteUrlFromSearchAPI (Job.company job) w = (Returns (Some url), w1) /\
    url <> EmptyString /\
    getDomainFromUrl url = Returns derived /\
    (derived = None \/ derived = Some EmptyString).

Definition noContactsByDomain (job : Job.t) (w : World) : Prop :=
  exists url w1 domain w2 emails,
    getWebsiteUrlFromSearchAPI (Job.company job) w = (Returns (Some url), w1) /\
    url <> EmptyString /\
    getDomainFromUrl url = Returns (Some domain) /\ domain <> EmptyString /\
    findEmailsWithHunter domain (Job.company job) w1 = (Returns emails, w2) /\
    (emails = None \/ emails = Some []).

(** One of the lookups made before the search by company name throws: the
    website lookup, the extraction of the domain from the URL found, or the
    search by the domain derived. *)
Definition websiteLookupThrows (job : Job.t) (w : World) : Prop :=
  exists w1, getWebsiteUrlFromSearchAPI (Job.company job) w = (Throws, w1).

Definition domainExtractionThrows (job : Job.t) (w : World) : Prop :=
  exists url w1,
    getWebsiteUrlFromSearchAPI (Job.company job) w = (Returns (Some url), w1) /\
    url <> EmptyString /\ getDomainFromUrl url = Throws.

Definition searchByDomainThrows (job : Job.t) (w : World) : Prop :=
  exists url w1 domain w2,
    getWebsiteUrlFromSearchAPI (Job.company job) w = (Returns (Some url), w1) /\
    url <> EmptyString /\
    getDomainFromUrl url = Returns (Some domain) /\ domain <> EmptyString /\
    findEmailsWithHunter domain (Job.company job) w1 = (Throws, w2).

End EnrichmentVocabulary.

(** ** Salary and toggles *)

(** A job with the given description and highlight blocks. *)
Definition jobWith (description : string) (highlights : list Highlight.t) : Job.t :=
  Job.mk "Line Cook" "Luna Bistro" "New York, NY" "Unknown" "Full-time"
         description highlights [] None [] "LinkedIn".

(** A job with two Compensation blocks. *)
Definition twoCompensationBlocks : Job.t :=
  jobWith "Join our kitchen."
          [ Highlight.mk "Compensation" ["$20 per hour"];
            Highlight.mk "Compensation" ["$50,000"] ].

(** An input with both exclusion toggles off, and a provider whose only
    page holds a full-time job at Subway and one at Chartwells. *)
Definition togglesOff : Main.Input :=
  {| Main.queries := ["restaurant jobs"]; Main.maxPagesPerQuery := 1;
     Main.location := EmptyString; Main.saveToDataset := true;
     Main.pushToDatabase := true; Main.databaseUrl := EmptyString;
     Main.databaseTable := "culinary_jobs_google"; Main.deduplicateJobs := true;
     Main.fullTimeOnly := true; Main.excludeFastFood := false;
     Main.excludeRecruiters := false; Main.includeHunterData := true |}.

Definition subwayJob : RawResult.t :=
  RawResult.mk (Some "Sandwich Artist") (Some "Subway") (Some "Austin, TX")
               (Some "Make sandwiches.") None (Some "Full-time") None None
               (Some "https://jobs.example.com/subway/1") None (Some "via Indeed").

Definition chartwellsJob : RawResult.t :=
  RawResult.mk (Some "Sous Chef") (Some "Chartwells Higher Education")
               (Some "Austin, TX") (Some "Run the line.") None (Some "Full-time")
               None None (Some "https://jobs.example.com/chartwells/7") None
               (Some "via Indeed").

Definition onePage (r : Request) (w : nat) : Response * nat :=
  (Replied true {| data_jobs := Some [subwayJob; chartwellsJob];
                   data_next_page_token := None |}, S w).

(** ** The store *)

(** The block ran to its end. *)
Definition isReturns {A} (o : Outcome A) : bool :=
  match o with Returns _ => true | Throws => false end.

(** How many blocks ran to their end. *)
Definition succeeded {A} (outcomes : list (Outcome A)) : nat :=
  List.length (filter isReturns outcomes).

Section StoreVocabulary.

Import Database.

(** How many rows carry a link; how many carry a (job, email) pair. *)
Definition linkCount (link : string) (t : Tables) : nat :=
  List.length (filter (conflicts (Some link)) (jobs t)).

Definition contactCount (jobId : Z) (email : string) (t : Tables) : nat :=
  List.length (filter (sameContact jobId email) (contacts t)).

(** The two uniqueness constraints of [createTables]. *)
Definition uniqueLinks (t : Tables) : Prop :=
  forall link, (linkCount link t <= 1)%nat.

Definition uniqueContacts (t : Tables) : Prop :=
  forall jobId email, (contactCount jobId email t <= 1)%nat.

(** The contacts of a job written one after the other, when every statement
    is served. *)
Fixpoint persistContacts (now : Timestamp) (jobId : Z) (company : string)
         (domain : option string) (emails : list Email.t) (t : Tables)
  : option Tables :=
  match emails with
  | [] => Some t
  | email :: rest =>
      match upsertContact now jobId email company domain t with
      | Some t' => persistContacts now jobId company domain rest t'
      | None => None
      end
  end.

(** One of the two INSERT statements. *)
Definition isStatement (c : Command) : bool :=
  match c with
  | InsertJob _ | InsertContact _ _ _ _ => true
  | _ => false
  end.

(** What a run of statements keeps: the snapshot, and every job row by its
    id; what it sends are statements. *)
Record carriedOn (s s' : Session) : Prop := {
  same_snapshot : snapshot s' = snapshot s;
  rows_stay : forall id, jobExists id (tables s) = true ->
                         jobExists id (tables s') = true;
  only_statements : exists statements,
      issued s' = (issued s ++ statements)%list /\
      forallb isStatement statements = true
}.

Variable fault : nat -> Command -> bool.
Variable clock : nat -> Timestamp.

(** The outcome of the [try] block of each job of a batch, in order: the id
    of its row, or the error. *)
Fixpoint attempts (batch : list ProcessedJob) (s : Session) : list (Outcome Z) :=
  match batch with
  | [] => []
  | job :: rest =>
      fst (tryJob fault clock job s)
        :: attempts rest (snd (tryJob fault clock job s))
  end.

(** The session once the transaction is open. *)
Definition opened (s : Session) : Session :=
  snd (query fault clock Begin (snd (query fault clock Connect s))).

End StoreVocabulary.

(** The same vocabulary for the copy of main.js. *)
Section MainVocabulary.

Import Main.

Definition isStatementMain (c : Command) : bool :=
  match c with
  | InsertJob _ | InsertContact _ _ _ _ _ => true
  | _ => false
  end.

Record carriedOnMain (s s' : Session) : Prop := {
  same_snapshot_main : snapshot s' = snapshot s;
  rows_stay_main : forall id, jobExists id (tables s) = true ->
                              jobExists id (tables s') = true;
  only_statements_main : exists statements,
      issued s' = (issued s ++ statements)%list /\
      forallb isStatementMain statements = true
}.

Variable fault : nat -> Command -> bool.
Variable clock : nat -> string.

Fixpoint attemptsMain (batch : list ProcessedJob) (s : Session) : list (Outcome Z) :=
  match batch with
  | [] => []
  | job :: rest =>
      fst (tryJob fault clock job s)
        :: attemptsMain rest (snd (tryJob fault clock job s))
  end.

Definition openedMain (s : Session) : Session :=
  snd (query fault Begin (snd (query fault Connect s))).

End MainVocabulary.

(** ** Concrete data *)

(** Contacts, processed jobs and stores to run the routines on. *)
Definition contactOf (address first last : string) : Email.t :=
  Email.mk address (Some first) (Some last) (Some "Chef") (Some 90%Z).

Definition processedWith (title : string) (link : option string)
           (emails : list Email.t) : ProcessedJob :=
  {| title := title; company := "Luna Bistro"; location := "New York, NY";
     posted_at := "2 days ago"; schedule := "Full-time";
     description := "Run the line."; salary_min := Some (Num 18 0);
     salary_max := Some (Num 22 0); salary_currency := "USD";
     salary_period := "hourly"; skills := ["grilling"];
     experience_level := mid; apply_link := link; source := "LinkedIn";
     scraped_at := "2025-05-01T10:00:00.000Z";
     company_website := Some "https://lunabistro.example";
     company_domain := Some "lunabistro.example"; emails := emails |}.

Definition lineCook : ProcessedJob :=
  processedWith "Line Cook" (Some "https://jobs.example.com/luna/1")
                [ contactOf "ana@lunabistro.example" "Ana" "Diaz";
                  contactOf "bo@lunabistro.example" "Bo" "Lee" ].

Definition pastryChef : ProcessedJob :=
  processedWith "Pastry Chef" (Some "https://jobs.example.com/luna/2") [].

Definition dishwasher : ProcessedJob :=
  processedWith "Dishwasher" None [ contactOf "ana@lunabistro.example" "Ana" "Diaz" ].

(** The same posting under another title. *)
Definition lineCookRetitled : ProcessedJob :=
  processedWith "Cook (Line)" (Some "https://jobs.example.com/luna/1") [].

Definition emptyStore : Database.Session :=
  {| Database.tables :=
       {| Database.jobs := []; Database.contacts := [];
          Database.jobs_id_seq := 1%Z; Database.contacts_id_seq := 1%Z |};
     Database.snapshot := None; Database.aborted := false;
     Database.transaction_time := 0%Z;
     Database.issued := [] |}.

(** A store that serves every command, and a clock. *)
Definition served : nat -> Database.Command -> bool := fun _ _ => false.
Definition ticking : nat -> Database.Timestamp := fun n => Z.of_nat n.

(** The store refuses the row of the pastry chef. *)
Definition refusesPastry (n : nat) (c : Database.Command) : bool :=
  match c with
  | Database.InsertJob job => title job =? "Pastry Chef"
  | _ => false
  end.

(** The session a call leaves. *)
Definition after (r : Outcome nat * option Database.Session) : Database.Session :=
  match snd r with Some s => s | None => emptyStore end.

(** The line cook persisted once and twice; the dishwasher, who has no
    link, persisted once and twice. *)
Definition onceStored : Database.Session :=
  Eval vm_compute in
    after (Database.insertJobsIntoDatabase served ticking (Some emptyStore) [lineCook]).

Definition twiceStored : Database.Session :=
  Eval vm_compute in
    after (Database.insertJobsIntoDatabase served ticking (Some onceStored) [lineCook]).

Definition dishwasherOnce : Database.Session :=
  Eval vm_compute in
    after (Database.insertJobsIntoDatabase served ticking (Some emptyStore) [dishwasher]).

Definition dishwasherTwice : Database.Session :=
  Eval vm_compute in
    after (Database.insertJobsIntoDatabase served ticking (Some dishwasherOnce)
                                           [dishwasher]).

Definition emptyStoreMain : Main.Session :=
  {| Main.tables :=
       {| Main.jobs := []; Main.contacts := [];
          Main.jobs_id_seq := 1%Z; Main.contacts_id_seq := 1%Z |};
     Main.snapshot := None; Main.aborted := false; Main.issued := [] |}.

Definition refusesPastryMain (n : nat) (c : Main.Command) : bool :=
  match c with
  | Main.InsertJob v => Main.v_title v =? "Pastry Chef"
  | _ => false
  end.

Definition isoTime : nat -> string := fun _ => "2025-05-01T10:00:00.000Z".

(** The links of the rows, in the order of the table. *)
Definition linksMain (s : Main.Session) : list (option string) :=
  map Main.JobRow.url (Main.jobs (Main.tables s)).

Definition afterMain (r : nat * option Main.Session) : Main.Session :=
  match snd r with Some s => s | None => emptyStoreMain end.

Definition servedMain : nat -> Main.Command -> bool := fun _ _ => false.

(** Lookups that find a website from which no domain is derived. *)
Definition websiteWithoutDomain (company : string) (w : nat)
  : Outcome (option string) * nat :=
  (Returns (Some "not a url"), S w).

Definition noDomain (url : string) : Outcome (option string) := Returns None.

(** An extraction that throws on what it is given. *)
Definition throwingDomain (url : string) : Outcome (option string) := Throws.

Definition noEmailsByDomain (domain company : string) (w : nat)
  : Outcome (option (list Email.t)) * nat :=
  (Returns (Some []), S w).

Definition oneEmailByName (company : string) (w : nat)
  : Outcome (option (list Email.t)) * nat :=
  (Returns (Some [contactOf "ana@lunabistro.example" "Ana" "Diaz"]), S w).

Definition lunaJob : Job.t := jobWith "Join our kitchen." [].

Definition freshRun : Run nat :=
  {| net := 0%nat; calls := []; processedJob := pastryChef |}.

(** ** Further vocabulary: exclusion *)

(** The list a reason refers to. *)
Definition listOf (r : Reason) : list string :=
  match r with
  | excluded_company => EXCLUDED_COMPANIES
  | fast_food => FAST_FOOD_RESTAURANTS
  end.

(** No name of the excluded-organisations list occurs in the lower-cased
    company name. *)
Definition namesNoExcluded (company : string) : Prop :=
  forall name, In name EXCLUDED_COMPANIES ->
               JS.includes (JS.toLowerCase company) name = false.

(** ** Further vocabulary: processJobsForDatabase *)

(** The job passes the exclusion check. *)
Definition kept (job : Job.t) : bool :=
  negb (isExcluded (shouldExcludeCompany (Job.company job))).

Definition sameReason (r r' : Reason) : bool :=
  match r, r' with
  | excluded_company, excluded_company | fast_food, fast_food => true
  | _, _ => false
  end.

(** The job is excluded for the reason [r]. *)
Definition excludedFor (r : Reason) (job : Job.t) : bool :=
  match reason (shouldExcludeCompany (Job.company job)) with
  | Some r' => sameReason r r'
  | None => false
  end.

(** The fields of a processed job that come from the job itself and from
    the extraction of salary, skills and experience level. *)
Definition describes (job : Job.t) (p : ProcessedJob) : Prop :=
  title p = Job.title job /\ company p = Job.company job /\
  location p = Job.location job /\ posted_at p = Job.posted_at job /\
  schedule p = Job.schedule job /\ description p = Job.description job /\
  salary_min p = min (extractSalaryInfo job) /\
  salary_max p = max (extractSalaryInfo job) /\
  salary_currency p = currency (extractSalaryInfo job) /\
  salary_period p = period (extractSalaryInfo job) /\
  skills p = extractSkills job /\
  experience_level p = calculateExperienceLevel job /\
  apply_link p = Job.apply_link job /\ source p = Job.source job.

(** The three fields the enrichment fills are as the loop initialises
    them. *)
Definition notEnriched (p : ProcessedJob) : Prop :=
  company_website p = None /\ company_domain p = None /\ emails p = [].

(** What the enrichment stores is never empty, and a domain is stored only
    with the website it was derived from. *)
Definition enrichedConsistently (p : ProcessedJob) : Prop :=
  (forall url, company_website p = Some url -> JS.truthy url = true) /\
  (forall d, company_domain p = Some d ->
             JS.truthy d = true /\ company_website p <> None).

(** A processed job with the three enrichment fields replaced. *)
Definition withEnrichment (website domain : option string) (contacts : list Email.t)
           (p : ProcessedJob) : ProcessedJob :=
  set_emails contacts (set_company_domain domain (set_company_website website p)).

(** ** Further vocabulary: the search *)

(** No text field of the job is empty, and its link, when it has one, is
    not empty either. *)
Definition wellFormedJob (j : Job.t) : Prop :=
  Job.title j <> EmptyString /\ Job.company j <> EmptyString /\
  Job.location j <> EmptyString /\ Job.description j <> EmptyString /\
  Job.posted_at j <> EmptyString /\ Job.schedule j <> EmptyString /\
  (forall link, Job.apply_link j = Some link -> link <> EmptyString).

(** The provider answers every request with jobs and a token. *)
Definition alwaysMore {World : Type}
           (fetch : Request -> World -> Response * World) : Prop :=
  forall request w,
  exists raw token w',
    fetch request w =
      (Replied true {| data_jobs := Some raw;
                       data_next_page_token := Some token |}, w') /\
    raw <> [] /\ JS.truthy token = true.

(** A provider with one more job on every page. *)
Definition endless (r : Request) (w : nat) : Response * nat :=
  (Replied true {| data_jobs := Some [subwayJob];
                   data_next_page_token := Some "next" |}, S w).

(** A processed job names a title and a company, and its company passes
    the exclusion check. *)
Definition presentable (p : ProcessedJob) : Prop :=
  title p <> EmptyString /\ company p <> EmptyString /\
  location p <> EmptyString /\ description p <> EmptyString /\
  isExcluded (shouldExcludeCompany (company p)) = false.

(** ** Further vocabulary: skills and salary *)

(** The lower-cased text holds the lower-cased skill. *)
Definition mentionsSkill (text skill : string) : bool :=
  JS.includes (JS.toLowerCase text) (JS.toLowerCase skill).

(** The items of the blocks of a job that carry the title, in order. *)
Definition itemsTitled (title : string) (job : Job.t) : list string :=
  flat_map (fun highlight =>
              if Highlight.title highlight =? title
              then Highlight.items highlight else [])
           (Job.highlights job).

(** A skill of the vocabulary that the description or an item of a
    Qualifications block mentions. *)
Definition skillWanted (job : Job.t) (skill : string) : Prop :=
  In skill commonCulinarySkills /\
  ((JS.truthy (Job.description job) = true /\
    mentionsSkill (Job.description job) skill = true) \/
   exists item,
     In item (itemsTitled "Qualifications" job) /\
     mentionsSkill item skill = true).

(** The texts a salary can be read from: the items of the Compensation
    blocks, then the description. *)
Definition salaryTexts (job : Job.t) : list string :=
  (itemsTitled "Compensation" job ++ [Job.description job])%list.

Definition amountOf (group : string) : JSNumber :=
  parseFloat (removeCommas group).

(** The bounds are the amounts of a match of the text: the second amount
    is the upper bound when there is one. *)
Definition readFrom (text : string) (info : SalaryInfo) : Prop :=
  exists m,
    salaryMatch text = Some m /\
    min info = Some (amountOf (group1 m)) /\
    max info =
      Some (amountOf (match group2 m with Some g => g | None => group1 m end)).

(** The units of the pattern and the periods they are recorded as. *)
Definition periodOf : list (string * string) :=
  [ ("hour", "hourly"); ("year", "yearly"); ("month", "monthly");
    ("week", "weekly"); ("day", "daily") ].

Definition periods : list string := map snd periodOf.

(** [s] does not begin with a character of an amount. *)
Definition amountEnds (s : string) : bool :=
  match s with
  | EmptyString => true
  | String c _ => negb (amountChar c)
  end.

(** ** Further vocabulary: the store under faults *)

Section FaultVocabulary.

Import Database.

(** A property of the tables that holds of what the session sees and of
    what a ROLLBACK would restore. *)
Definition sessionKeeps (I : Tables -> Prop) (s : Session) : Prop :=
  I (tables s) /\ forall t, snapshot s = Some t -> I t.

(** [job_id INTEGER REFERENCES culinary_jobs_google(id)]: every contact row
    refers to a job row. *)
Definition referential (t : Tables) : Prop :=
  forall c, In c (contacts t) -> jobExists (ContactRow.job_id c) t = true.

(** The constraints [createTables] declares on the two tables. *)
Definition constraintsHold (t : Tables) : Prop :=
  uniqueLinks t /\ uniqueContacts t /\ referential t.

(** The job has a row that carries its link, and that row has a contact
    row for each address of the job. *)
Definition stored (job : ProcessedJob) (t : Tables) : Prop :=
  exists row,
    In row (jobs t) /\
    JobRow.apply_link row = GoogleJobsApi.apply_link job /\
    forall email, In email (GoogleJobsApi.emails job) ->
                  (1 <= contactCount (JobRow.id row) (Email.email email) t)%nat.

(** A store that refuses the COMMIT and nothing else. *)
Definition onlyCommitFails (n : nat) (c : Command) : bool :=
  match c with Commit => true | _ => false end.

End FaultVocabulary.

Definition onlyCommitFailsMain (n : nat) (c : Main.Command) : bool :=
  match c with Main.Commit => true | _ => false end.

(** ** Further vocabulary: the source label *)

(** A record that carries a [via] label and nothing else. *)
Definition labelled (via : string) : RawResult.t :=
  RawResult.mk None None None None None None None None None None (Some via).

(** ** Further vocabulary: what a row carries *)

Section RowVocabulary.

Import Database.


End RowVocabulary.

Section MainRowVocabulary.

Import Main.








End MainRowVocabulary.





(** ** Further vocabulary: the pages a run fetches *)

(** The request for a page. *)
Definition requestFor (query location : string) (token : option string) : Request :=
  {| req_query := query;
     req_location := if JS.truthy location then Some location else None;
     req_next_page_token := token |}.

(** The raw results a reply holds: those of an accepted reply, none
    otherwise. *)
Definition resultsOf (reply : Response) : list RawResult.t :=
  match reply with
  | Replied true data =>
      match data_jobs data with Some raw => raw | None => [] end
  | _ => []
  end.

(** The continuation token a reply carries, when it is not empty. *)
Definition continuationOf (reply : Response) : option string :=
  match reply with
  | Replied true data =>
      match data_next_page_token data with
      | Some (String c t) => Some (String c t)
      | _ => None
      end
  | _ => None
  end.

(** The reply has results and names a next page. *)
Definition goesOn (reply : Response) : Prop :=
  resultsOf reply <> [] /\ continuationOf reply <> None.

(** The replies are those the provider gives, one after the other from
    [w], to the requests for the first page and then for the page each
    reply names; [w'] is the network after the last. *)
Fixpoint fetchedInOrder {World : Type}
         (fetch : Request -> World -> Response * World)
         (query location : string) (token : option string) (w : World)
         (replies : list Response) (w' : World) : Prop :=
  match replies with
  | [] => w' = w
  | reply :: rest =>
      reply = fst (fetch (requestFor query location token) w) /\
      fetchedInOrder fetch query location (continuationOf reply)
                     (snd (fetch (requestFor query location token) w)) rest w'
  end.

(** A provider with three pages of one job each and an empty fourth, all
    with a token. *)
Definition fourPages (r : Request) (w : nat) : Response * nat :=
  (Replied true
     {| data_jobs := Some (if (w <? 3)%nat then [subwayJob] else []);
        data_next_page_token := Some "next" |}, S w).

(** ** Further vocabulary: ASCII texts *)

(** A character of the ASCII range, on which [toLowerCase] is the
    lower-casing of the 26 letters. *)
Definition isAscii (c : ascii) : bool := (JS.code c <? 128)%N.

(** The texts [extractSkills] reads, the description and the items of the
    Qualifications blocks, are ASCII. *)
Definition asciiTexts (job : Job.t) : Prop :=
  allChars isAscii (Job.description job) = true /\
  forall item, In item (itemsTitled "Qualifications" job) ->
               allChars isAscii item = true.

(** A job whose texts mention four skills in mixed case. *)
Definition grillCook : Job.t :=
  jobWith "Grilling and BAKING for a busy line."
          [ Highlight.mk "Qualifications" ["Knife skills"; "Food Safety card"] ].

(** ** Further vocabulary: the full-time filter *)

(** The job signals full-time literally: its schedule is the word, or one of
    its extensions holds it. *)
Definition signalsFullTime (job : Job.t) : Prop :=
  Job.schedule job = "Full-time" \/
  exists ext before after,
    In ext (Job.extensions job) /\ ext = before ++ "Full-time" ++ after.

(** The jobs of a query that go on to exclusion and extraction: all the jobs
    found, or those among them that signal full-time, in the order found. *)
Inductive selectedFrom (fullTimeOnly : bool) : list Job.t -> list Job.t -> Prop :=
| selected_none : selectedFrom fullTimeOnly [] []
| selected_keep (job : Job.t) (found batch : list Job.t) :
    (fullTimeOnly = true -> signalsFullTime job) ->
    selectedFrom fullTimeOnly found batch ->
    selectedFrom fullTimeOnly (job :: found) (job :: batch)
| selected_drop (job : Job.t) (found batch : list Job.t) :
    fullTimeOnly = true -> ~ signalsFullTime job ->
    selectedFrom fullTimeOnly found batch ->
    selectedFrom fullTimeOnly (job :: found) batch.

(* ================================================================== *)
(** * Part III: proofs *)
(* ================================================================== *)

(** ** Strings *)

Section StringFacts.

Lemma prefix_iff (p s : string) :
  prefix p s = true <-> exists r, s = p ++ r.
Proof.
  revert s. induction p as [|c p IH]; intros s; simpl.
  - split; [intros _; now exists s | destruct s; reflexivity].
  - destruct s as [|d s]; simpl.
    + split; [discriminate | intros [r Hr]; discriminate].
    + destruct (ascii_dec c d) as [Heq|Hne].
      * subst d. rewrite IH. split; intros [r Hr]; exists r.
        -- now rewrite Hr.
        -- now inversion Hr.
      * split; [discriminate|]. intros [r Hr]. inversion Hr. congruence.
Qed.

Lemma startsWith_iff (s p : string) :
  JS.startsWith s p = true <-> exists r, s = p ++ r.
Proof. apply prefix_iff. Qed.

Lemma includes_iff (s p : string) :
  JS.includes s p = true <-> exists a b, s = a ++ p ++ b.
Proof.
  induction s as [|c s IH];
    [ change (JS.includes EmptyString p) with (prefix p EmptyString || false)
    | change (JS.includes (String c s) p)
        with (prefix p (String c s) || JS.includes s p) ].
  - rewrite orb_false_r, prefix_iff. split.
    + intros [r Hr]. now exists EmptyString, r.
    + intros [[|d a] [b Hb]]; [now exists b | discriminate].
  - rewrite orb_true_iff, prefix_iff, IH. split.
    + intros [[r Hr] | [a [b Hab]]].
      * now exists EmptyString, r.
      * exists (String c a), b. simpl. now rewrite Hab.
    + intros [[|d a] [b Hb]].
      * left. now exists b.
      * right. inversion Hb. now exists a, b.
Qed.

Lemma endsWith_iff (s p : string) :
  JS.endsWith s p = true <-> exists a, s = a ++ p.
Proof.
  induction s as [|c s IH];
    [ change (JS.endsWith EmptyString p) with ((EmptyString =? p) || false)
    | change (JS.endsWith (String c s) p)
        with ((String c s =? p) || JS.endsWith s p) ].
  - rewrite orb_false_r, String.eqb_eq. split.
    + intros <-. now exists EmptyString.
    + intros [[|d a] Ha]; [exact Ha | discriminate].
  - rewrite orb_true_iff, String.eqb_eq, IH. split.
    + intros [<- | [a Ha]].
      * now exists EmptyString.
      * exists (String c a). simpl. now rewrite Ha.
    + intros [[|d a] Ha].
      * now left.
      * right. inversion Ha. now exists a.
Qed.

Lemma append_assoc (a b c : string) : (a ++ b) ++ c = a ++ b ++ c.
Proof. induction a as [|x a IH]; simpl; [reflexivity | now rewrite IH]. Qed.

Lemma append_empty_r (a : string) : a ++ EmptyString = a.
Proof. induction a as [|x a IH]; simpl; [reflexivity | now rewrite IH]. Qed.

Lemma toLowerCase_app (a b : string) :
  JS.toLowerCase (a ++ b) = JS.toLowerCase a ++ JS.toLowerCase b.
Proof. induction a as [|x a IH]; simpl; [reflexivity | now rewrite IH]. Qed.

End StringFacts.

(** ** The exclusion lists (C3) *)

Lemma fastFoodHit_iff (lowerCompany brand : string) :
  fastFoodHit lowerCompany brand = true <-> tokenBounded lowerCompany brand.
Proof.
  unfold fastFoodHit, tokenBounded.
  rewrite !orb_true_iff, String.eqb_eq, includes_iff, startsWith_iff, endsWith_iff.
  split.
  - intros [[[H | [l [r H]]] | [r H]] | [l H]].
    + now left.
    + right; right; right. exists l, r. now rewrite H, !append_assoc.
    + right; left. exists r. now rewrite H, append_assoc.
    + right; right; left. now exists l.
  - intros [H | [[r H] | [[l H] | [l [r H]]]]].
    + now left; left; left.
    + left; right. exists r. now rewrite H, append_assoc.
    + right. now exists l.
    + left; left; right. exists l, r. now rewrite H, !append_assoc.
Qed.

(** The verdict says [fast_food] only from the fast-food loop. *)
Lemma fast_food_verdict (company : string) :
  reason (shouldExcludeCompany company) = Some fast_food ->
  exists brand,
    find (fastFoodHit (JS.toLowerCase company)) FAST_FOOD_RESTAURANTS = Some brand /\
    shouldExcludeCompany company =
      {| isExcluded := true; reason := Some fast_food; matched := Some brand |}.
Proof.
  unfold shouldExcludeCompany.
  destruct (negb (JS.truthy company) || (company =? "Unknown Company"));
    [discriminate|].
  destruct (find _ EXCLUDED_COMPANIES); [discriminate|].
  destruct (find _ FAST_FOOD_RESTAURANTS) as [brand|] eqn:E; [|discriminate].
  intros _. now exists brand.
Qed.

(** C3, as the code has it: the verdict is [fast_food] only for a company
    whose lower-cased name is a brand of the list, starts with the brand and
    a space, ends with a space and the brand, or holds the brand between two
    spaces. So "mcdonald's express" is excluded as fast food, and so is
    "Uncle McDonald's Diner", whose lower-cased name holds " mcdonald's "
    between two spaces. *)
Theorem fast_food_is_token_bounded (company : string) :
  reason (shouldExcludeCompany company) = Some fast_food ->
  (exists brand,
      In brand FAST_FOOD_RESTAURANTS /\
      matched (shouldExcludeCompany company) = Some brand /\
      isExcluded (shouldExcludeCompany company) = true /\
      tokenBounded (JS.toLowerCase company) brand) /\
  shouldExcludeCompany "mcdonald's express" =
    {| isExcluded := true; reason := Some fast_food;
       matched := Some "mcdonald's" |} /\
  shouldExcludeCompany "Uncle McDonald's Diner" =
    {| isExcluded := true; reason := Some fast_food;
       matched := Some "mcdonald's" |} /\
  tokenBounded (JS.toLowerCase "Uncle McDonald's Diner") "mcdonald's".
Proof.
  intros H. split; [|split; [|split]].
  - destruct (fast_food_verdict company H) as [brand [Hfind Hv]].
    exists brand. apply find_some in Hfind as [Hin Hhit].
    rewrite Hv. simpl. repeat split; trivial.
    now apply fastFoodHit_iff.
  - vm_compute. reflexivity.
  - vm_compute. reflexivity.
  - right; right; right. exists "uncle", "diner". reflexivity.
Qed.

Lemma fast_food_is_token_bounded_witness :
  reason (shouldExcludeCompany "Subway") = Some fast_food /\
  tokenBounded (JS.toLowerCase "Uncle McDonald's Diner") "mcdonald's".
Proof.
  split; [vm_compute; reflexivity|].
  apply (fast_food_is_token_bounded "Subway"). vm_compute. reflexivity.
Defined.

(** C3 as the specification words it fails: "Uncle McDonald's Diner" is
    excluded. *)
Lemma uncle_mcdonalds_diner_is_excluded :
  ~ (isExcluded (shouldExcludeCompany "Uncle McDonald's Diner") = false).
Proof. vm_compute. discriminate. Qed.

(** ** Experience level (C9) *)

Lemma mentions_iff (title : string) (tier : list string) :
  existsb (JS.includes (JS.toLowerCase title)) tier = true <-> mentions title tier.
Proof.
  unfold mentions. rewrite existsb_exists. split.
  - intros [k [Hin Hinc]]. apply includes_iff in Hinc as [a [b Hab]].
    now exists k, a, b.
  - intros [k [a [b [Hin Hab]]]]. exists k. split; [exact Hin|].
    apply includes_iff. now exists a, b.
Qed.

Lemma calculateExperienceLevel_tiers (job : Job.t) :
  calculateExperienceLevel job =
    let title := JS.toLowerCase (Job.title job) in
    if existsb (JS.includes title) executiveTier then executive
    else if existsb (JS.includes title) seniorTier then senior
    else if existsb (JS.includes title) entryTier then entry
    else mid.
Proof.
  unfold calculateExperienceLevel, executiveTier, seniorTier, entryTier.
  cbn [existsb]. rewrite !orb_false_r, !orb_assoc. reflexivity.
Qed.

Lemma not_mentions (title : string) (tier : list string) :
  ~ mentions title tier ->
  existsb (JS.includes (JS.toLowerCase title)) tier = false.
Proof.
  intros H. destruct (existsb _ tier) eqn:E; [|reflexivity].
  now apply mentions_iff in E.
Qed.

(** C9: the tiers are tried in the order executive, senior, entry, whatever
    the place of the keywords in the title, and a title that names none is
    mid; "Senior Executive Chef" is executive. *)
Theorem experience_level_precedence (job : Job.t) :
  let title := Job.title job in
  (mentions title executiveTier -> calculateExperienceLevel job = executive) /\
  (~ mentions title executiveTier -> mentions title seniorTier ->
   calculateExperienceLevel job = senior) /\
  (~ mentions title executiveTier -> ~ mentions title seniorTier ->
   mentions title entryTier -> calculateExperienceLevel job = entry) /\
  (~ mentions title executiveTier -> ~ mentions title seniorTier ->
   ~ mentions title entryTier -> calculateExperienceLevel job = mid) /\
  (title = "Senior Executive Chef" ->
   mentions title seniorTier /\ calculateExperienceLevel job = executive).
Proof.
  cbv zeta. rewrite calculateExperienceLevel_tiers. cbv zeta.
  repeat split.
  - intros H. apply mentions_iff in H. now rewrite H.
  - intros H1 H2. rewrite (not_mentions _ _ H1).
    apply mentions_iff in H2. now rewrite H2.
  - intros H1 H2 H3. rewrite (not_mentions _ _ H1), (not_mentions _ _ H2).
    apply mentions_iff in H3. now rewrite H3.
  - intros H1 H2 H3.
    now rewrite (not_mentions _ _ H1), (not_mentions _ _ H2), (not_mentions _ _ H3).
  - exists "senior", EmptyString, " executive chef".
    rewrite H. split; [now left | reflexivity].
  - rewrite H. reflexivity.
Qed.

Lemma experience_level_precedence_witness :
  mentions (Job.title seniorExecutiveChef) executiveTier /\
  mentions (Job.title seniorExecutiveChef) seniorTier /\
  calculateExperienceLevel seniorExecutiveChef = executive.
Proof.
  assert (He : mentions (Job.title seniorExecutiveChef) executiveTier).
  { exists "executive chef", "senior ", EmptyString. split; [now left | reflexivity]. }
  split; [exact He|].
  destruct (experience_level_precedence seniorExecutiveChef) as [H1 [_ [_ [_ H5]]]].
  split; [apply H5; reflexivity | apply H1; exact He].
Defined.

(** ** Normalisation of a raw record (C7) *)

Lemma truthy_iff (s : string) : JS.truthy s = true <-> s <> EmptyString.
Proof. destruct s; simpl; split; intros; congruence. Qed.

Lemma orDefault_truthy (v : option string) (d : string) :
  JS.truthy d = true -> JS.truthy (JS.orDefault v d) = true.
Proof.
  intros Hd. unfold JS.orDefault.
  destruct v as [s|]; [destruct (JS.truthy s) eqn:E|]; assumption.
Qed.

Lemma orDefault_cases (v : option string) (d : string) :
  (JS.truthyO v = true /\ v = Some (JS.orDefault v d)) \/
  (JS.truthyO v = false /\ JS.orDefault v d = d).
Proof.
  destruct v as [s|]; simpl; [|now right].
  destruct (JS.truthy s); [now left | now right].
Qed.

Lemma dropWhile_split (f : ascii -> bool) (s : string) :
  s = JS.takeWhile f s ++ JS.dropWhile f s /\ allChars f (JS.takeWhile f s) = true.
Proof.
  induction s as [|c s [IH1 IH2]]; simpl; [now split|].
  destruct (f c) eqn:E; simpl; [|now split].
  rewrite E, IH2. split; [now rewrite <- IH1 | reflexivity].
Qed.






(** What the pattern of the description captures sits, in the description,
    after a keyword and white space and before a terminator. *)
Lemma startsWithCI_split (word s : string) :
  JS.startsWithCI s word = true ->
  exists head,
    s = head ++ JS.drop (String.length word) s /\
    JS.toLowerCase head = JS.toLowerCase word.
Proof.
  unfold JS.startsWithCI. revert s.
  induction word as [|c word IH]; intros s H.
  - now exists EmptyString.
  - destruct s as [|d s]; simpl in H; [discriminate|].
    destruct (ascii_dec (JS.lowerChar c) (JS.lowerChar d)) as [Heq|]; [|discriminate].
    destruct (IH s H) as [head [H1 H2]].
    exists (String d head). simpl. split; [now rewrite <- H1 | now rewrite H2, Heq].
Qed.

Lemma lazyCompany_sound (s g : string) :
  lazyCompany s = Some g ->
  exists behind,
    s = g ++ behind /\ g <> EmptyString /\
    allChars companyChar g = true /\ terminatorHere behind = true.
Proof.
  revert g. induction s as [|c s IH]; intros g; [discriminate|].
  cbn [lazyCompany]. destruct (companyChar c) eqn:C; [|discriminate].
  destruct (terminatorHere s) eqn:T.
  - intros [= <-]. exists s. simpl. rewrite C. repeat split; trivial. discriminate.
  - destruct (lazyCompany s) as [g'|]; [|discriminate].
    intros [= <-]. destruct (IH g' eq_refl) as [b [H1 [H2 [H3 H4]]]].
    exists b. simpl. rewrite C, H3. repeat split; trivial.
    + now rewrite <- H1.
    + discriminate.
Qed.

Lemma afterKeyword_sound (s g : string) :
  afterKeyword s = Some g ->
  exists spaces behind,
    s = spaces ++ g ++ behind /\
    spaces <> EmptyString /\ allChars JS.isSpace spaces = true /\
    g <> EmptyString /\ allChars companyChar g = true /\
    terminatorHere behind = true.
Proof.
  revert g. induction s as [|c s IH]; intros g; [discriminate|].
  cbn [afterKeyword]. destruct (JS.isSpace c) eqn:S; [|discriminate].
  destruct (afterKeyword s) as [g'|].
  - intros [= <-].
    destruct (IH g' eq_refl) as [sp [b [H1 [H2 [H3 [H4 [H5 H6]]]]]]].
    exists (String c sp), b. simpl. rewrite S, H3.
    repeat split; trivial; [now rewrite <- H1 | discriminate].
  - intros H. destruct (lazyCompany_sound _ _ H) as [b [H1 [H2 [H3 H4]]]].
    exists (String c EmptyString), b. simpl. rewrite S.
    repeat split; trivial; [now rewrite <- H1 | discriminate].
Qed.

Lemma keywordHere_sound (s rest : string) :
  keywordHere s = Some rest ->
  exists keyword,
    s = keyword ++ rest /\ In (JS.toLowerCase keyword) companyKeywords.
Proof.
  unfold keywordHere, companyKeywords.
  destruct (JS.startsWithCI s "at") eqn:E1;
    [|destruct (JS.startsWithCI s "with") eqn:E2;
      [|destruct (JS.startsWithCI s "for") eqn:E3;
        [|destruct (JS.startsWithCI s "join") eqn:E4; [|discriminate]]]];
    intros [= <-];
    match goal with
    | H : JS.startsWithCI s ?w = true |- _ =>
        destruct (startsWithCI_split w s H) as [head [H1 H2]]; exists head;
        split; [exact H1 | rewrite H2; simpl; tauto]
    end.
Qed.

Lemma descMatch_sound (description g : string) :
  descMatch description = Some g ->
  exists before keyword spaces behind,
    description = before ++ keyword ++ spaces ++ g ++ behind /\
    In (JS.toLowerCase keyword) companyKeywords /\
    spaces <> EmptyString /\ allChars JS.isSpace spaces = true /\
    g <> EmptyString /\ allChars companyChar g = true /\
    terminatorHere behind = true.
Proof.
  revert g.
  assert (Here : forall s g, descMatchHere s = Some g ->
            exists keyword spaces behind,
              s = keyword ++ spaces ++ g ++ behind /\
              In (JS.toLowerCase keyword) companyKeywords /\
              spaces <> EmptyString /\ allChars JS.isSpace spaces = true /\
              g <> EmptyString /\ allChars companyChar g = true /\
              terminatorHere behind = true).
  { intros s g. unfold descMatchHere.
    destruct (keywordHere s) as [rest|] eqn:K; [|discriminate].
    intros H. destruct (keywordHere_sound _ _ K) as [kw [H1 H2]].
    destruct (afterKeyword_sound _ _ H) as [sp [b [H3 H4]]].
    exists kw, sp, b. split; [now rewrite H1, H3 | tauto]. }
  induction description as [|c d IH]; intros g.
  - cbn [descMatch]. destruct (descMatchHere EmptyString) eqn:E; [|discriminate].
    intros [= <-]. destruct (Here _ _ E) as [kw [sp [b H]]].
    now exists EmptyString, kw, sp, b.
  - cbn [descMatch]. destruct (descMatchHere (String c d)) eqn:E.
    + intros [= <-]. destruct (Here _ _ E) as [kw [sp [b H]]].
      now exists EmptyString, kw, sp, b.
    + intros H. destruct (IH g H) as [pre [kw [sp [b [H1 H2]]]]].
      exists (String c pre), kw, sp, b. split; [simpl; now rewrite H1 | exact H2].
Qed.

Lemma titleMatch_empty : titleMatch EmptyString = None.
Proof. reflexivity. Qed.

Lemma descMatch_empty : descMatch EmptyString = None.
Proof. reflexivity. Qed.

Lemma lazyCompany_truthy (s g : string) : lazyCompany s = Some g -> JS.truthy g = true.
Proof.
  intros H. destruct (lazyCompany_sound _ _ H) as [b [_ [Hg _]]].
  now apply truthy_iff.
Qed.

Lemma descMatch_truthy (d g : string) : descMatch d = Some g -> JS.truthy g = true.
Proof.
  intros H. destruct (descMatch_sound _ _ H) as [? [? [? [? [_ [_ [_ [_ [Hg _]]]]]]]]].
  now apply truthy_iff.
Qed.

(** The callback recovers the company in the order of the specification. *)
Lemma company_in_order (job : RawResult.t) :
  Job.company (processedJobs_map job) = companyInOrder job.
Proof.
  unfold processedJobs_map, companyInOrder, companyName, titleCapture,
    descriptionCapture. cbn [Job.company].
  destruct (RawResult.company_name job) as [[|c s]|];
    [ | reflexivity | ]; cbn [JS.truthyO JS.truthy negb andb].
  all: destruct (RawResult.title job) as [[|tc ts]|];
    cbn [JS.truthy]; try rewrite titleMatch_empty.
  all: try (destruct (titleMatch (String tc ts)) as [[|gc gs]|];
            cbn [JS.truthy JS.truthyO negb andb JS.orDefault]; try reflexivity).
  all: destruct (RawResult.description job) as [[|dc ds]|];
    cbn [JS.truthyO JS.truthy negb andb JS.orDefault]; try reflexivity.
  all: destruct (descMatch (String dc ds)) as [g|] eqn:D;
    cbn [JS.orDefault JS.truthy]; try reflexivity.
  all: rewrite (descMatch_truthy _ _ D); cbn [JS.orDefault];
    destruct (JS.truthy (JS.trim g)); reflexivity.
Qed.

Lemma companyInOrder_truthy (job : RawResult.t) :
  JS.truthy (companyInOrder job) = true.
Proof.
  unfold companyInOrder, titleCapture, descriptionCapture.
  destruct (RawResult.company_name job) as [[|c s]|]; try reflexivity.
  all: destruct (RawResult.title job) as [t|];
    [destruct (titleMatch t) as [g|]; [destruct (JS.truthy g) eqn:G; [exact G|]|]|].
  all: destruct (RawResult.description job) as [d|];
    [destruct (descMatch d) as [g'|];
     [destruct (JS.truthy (JS.trim g')) eqn:G'; [exact G'|]|]|];
    reflexivity.
Qed.

(** C7: the callback that builds a job from a raw record is a total
    function; the title, company, location and description it yields are
    never empty, each the record's own value or its sentinel, and the company
    is recovered in the order: provider field, title pattern, description
    pattern, sentinel. *)
Theorem normalisation_total (job : RawResult.t) :
  let normalized := processedJobs_map job in
  (Job.title normalized <> EmptyString /\
   Job.company normalized <> EmptyString /\
   Job.location normalized <> EmptyString /\
   Job.description normalized <> EmptyString) /\
  (RawResult.title job = Some (Job.title normalized) \/
   Job.title normalized = "Unknown Title") /\
  (RawResult.location job = Some (Job.location normalized) \/
   Job.location normalized = "Unknown Location") /\
  (RawResult.description job = Some (Job.description normalized) \/
   Job.description normalized = "No description available") /\
  Job.company normalized = companyInOrder job /\
  Job.company (processedJobs_map lunaByTitle) = "Luna Bistro" /\
  Job.company (processedJobs_map lunaByDescription) = "Luna Bistro" /\
  processedJobs_map emptyRecord =
    Job.mk "Unknown Title" "Unknown Company" "Unknown Location" "Unknown"
           "Unknown" "No description available" [] [] None [] "Unknown Source".
Proof.
  cbv zeta. split; [|split; [|split; [|split; [|split; [|split; [|split]]]]]].
  - repeat split; apply truthy_iff.
    + now apply orDefault_truthy.
    + rewrite company_in_order. apply companyInOrder_truthy.
    + now apply orDefault_truthy.
    + now apply orDefault_truthy.
  - cbn [processedJobs_map Job.title].
    destruct (orDefault_cases (RawResult.title job) "Unknown Title") as [[_ H]|[_ H]];
      [left | right]; exact H.
  - cbn [processedJobs_map Job.location].
    destruct (orDefault_cases (RawResult.location job) "Unknown Location")
      as [[_ H]|[_ H]]; [left | right]; exact H.
  - cbn [processedJobs_map Job.description].
    destruct (orDefault_cases (RawResult.description job) "No description available")
      as [[_ H]|[_ H]]; [left | right]; exact H.
  - apply company_in_order.
  - vm_compute. reflexivity.
  - vm_compute. reflexivity.
  - vm_compute. reflexivity.
Qed.

(** ** The page loop (C5) *)

Section Pagination.

Variable World : Type.
Variable apiKey : option string.
Variable fetch : Request -> World -> Response * World.

Local Abbreviation searchJobs := (searchJobs World apiKey fetch).
Local Abbreviation pageLoop := (pageLoop World apiKey fetch).
Local Abbreviation searchAllJobs := (searchAllJobs World apiKey fetch).
Local Abbreviation pages := (pages World).
Local Abbreviation allJobs := (allJobs World).
Local Abbreviation currentPage := (currentPage World).
Local Abbreviation loopToken := (loopToken World).

Lemma searchJobs_faithful (query location : string) (token : option string)
      (w : World) :
  faithful (fst (searchJobs query location token w)) /\
  page_token (fst (searchJobs query location token w)) = token.
Proof.
  unfold GoogleJobsApi.searchJobs, faithful.
  destruct (negb (JS.truthyO apiKey)); [split; [now left | reflexivity]|].
  destruct (fetch _ w) as [response w'].
  destruct response as [|ok data]; [split; [now left | reflexivity]|].
  destruct ok; cbn [negb]; [|split; [now left | reflexivity]].
  destruct (data_jobs data) as [[|r raw]|] eqn:E;
    try (split; [now left | reflexivity]).
  split; [|reflexivity]. right. exists data, (r :: raw).
  cbn. repeat split; trivial. discriminate.
Qed.

Lemma chained_app (token : option string) (l : list PageRecord) (p : PageRecord) :
  chained token (p :: l) <->
  page_token p = token /\ chained (nextPageToken (page_result p)) l.
Proof. reflexivity. Qed.

Lemma length_zero_nil {A} (l : list A) : (List.length l =? 0)%nat = true -> l = [].
Proof. destruct l; [reflexivity | discriminate]. Qed.

Lemma length_nonzero {A} (l : list A) : (List.length l =? 0)%nat = false -> l <> [].
Proof. destruct l; [discriminate | discriminate]. Qed.

(** The loop, from any state it can be entered in. *)
Lemma pageLoop_runs (query location : string) (maxPages : Z) :
  forall (fuel : nat) (st : PageLoop World),
    (1 <= fuel)%nat -> (maxPages - currentPage st <= Z.of_nat fuel)%Z ->
    exists st' more last,
      pageLoop query location maxPages fuel st = Some st' /\
      pages st' = (pages st ++ more ++ [last])%list /\
      Forall (fun p => jobsOf p <> []) more /\
      Forall faithful (more ++ [last]) /\
      chained (loopToken st) (more ++ [last]) /\
      currentPage st' = (currentPage st + Z.of_nat (List.length more) + 1)%Z /\
      (currentPage st' <= Z.max (currentPage st + 1) maxPages)%Z /\
      allJobs st' = (allJobs st ++ concat (map jobsOf (more ++ [last])))%list.
Proof.
  induction fuel as [|fuel IH]; intros st Hfuel Hgap; [lia|].
  cbn [GoogleJobsApi.pageLoop].
  pose proof (searchJobs_faithful query location (loopToken st)
                (GoogleJobsApi.world World st)) as [Hfaith Htok].
  destruct (searchJobs query location (loopToken st) (GoogleJobsApi.world World st))
    as [page w'] eqn:Epage.
  cbn [fst] in Hfaith, Htok.
  destruct (List.length (jobs (page_result page)) =? 0)%nat eqn:Elen.
  - (* an empty page: break *)
    eexists; exists [], page. split; [reflexivity|].
    cbn. apply length_zero_nil in Elen. unfold jobsOf. rewrite Elen.
    repeat split; auto; try lia.
    now rewrite !app_nil_r.
  - apply length_nonzero in Elen.
    destruct (JS.truthyO (nextPageToken (page_result page)) &&
              (currentPage st + 1 <? maxPages)%Z) eqn:Egoon.
    + (* another round *)
      apply andb_true_iff in Egoon as [_ Hlt]. apply Z.ltb_lt in Hlt.
      match goal with
      | |- context [pageLoop _ _ _ fuel ?s] => set (st1 := s)
      end.
      destruct (IH st1) as [st' [more [last H]]].
      { subst st1. cbn in *. lia. }
      { subst st1. cbn in *. lia. }
      destruct H as [Hrun [Hpages [Hmore [Hf [Hch [Hcur [Hmax Hall]]]]]]].
      exists st', (page :: more), last.
      subst st1. cbn in *.
      repeat split; auto.
      * rewrite Hpages, <- app_assoc. reflexivity.
      * lia.
      * lia.
      * rewrite Hall, <- app_assoc. reflexivity.
    + (* no token or the bound is reached *)
      eexists; exists [], page. split; [reflexivity|].
      cbn. unfold jobsOf. repeat split; auto; try lia.
      now rewrite app_nil_r.
Qed.

(** An empty page fetched with success ends in the record as no job. *)
Lemma empty_reply_no_jobs (p : PageRecord) (ok : bool) (data : Data) :
  faithful p -> page_response p = Some (Replied ok data) ->
  (data_jobs data = None \/ data_jobs data = Some []) -> jobsOf p = [].
Proof.
  intros [Hno | [data' [raw [Hresp [Hjobs [Hne _]]]]]] Hp Hempty.
  - unfold jobsOf. now rewrite Hno.
  - rewrite Hresp in Hp. injection Hp as _ ->.
    rewrite Hjobs in Hempty. destruct Hempty as [H|H]; [discriminate|].
    now injection H.
Qed.

(** What one call reads off the provider's reply, when there is a key. *)
Lemma searchJobs_reads (query location : string) (token : option string)
      (w : World) :
  JS.truthyO apiKey = true ->
  (if JS.truthyO token then token else None) = token ->
  let reply := fst (fetch (requestFor query location token) w) in
  let page := fst (searchJobs query location token w) in
  snd (searchJobs query location token w)
    = snd (fetch (requestFor query location token) w) /\
  page_response page = Some reply /\
  jobs (page_result page) = map processedJobs_map (resultsOf reply) /\
  (resultsOf reply <> [] ->
   nextPageToken (page_result page) = continuationOf reply).
Proof.
  intros K T. cbv zeta. unfold GoogleJobsApi.searchJobs, requestFor.
  rewrite K, T. cbn [negb].
  destruct (fetch _ w) as [reply w']. cbn [fst snd].
  destruct reply as [|[|] data]; cbn [negb fst snd page_response page_result
                                        jobs resultsOf];
    try (repeat split; congruence).
  destruct (data_jobs data) as [[|r raw]|];
    cbn [fst snd page_response page_result jobs nextPageToken map];
    try (repeat split; congruence).
  repeat split. intros _. unfold continuationOf.
  destruct (data_next_page_token data) as [[|c t]|]; reflexivity.
Qed.

Lemma continuationOf_token (reply : Response) :
  (if JS.truthyO (continuationOf reply) then continuationOf reply else None)
  = continuationOf reply.
Proof.
  unfold continuationOf. destruct reply as [|[|] data]; try reflexivity.
  destruct (data_next_page_token data) as [[|c t]|]; reflexivity.
Qed.

(** The loop, call by call, read off the provider's replies. *)
Lemma pageLoop_fetches (query location : string) (maxPages : Z) :
  JS.truthyO apiKey = true ->
  forall (fuel : nat) (st : PageLoop World),
    (if JS.truthyO (loopToken st) then loopToken st else None) = loopToken st ->
    (1 <= fuel)%nat -> (maxPages - currentPage st <= Z.of_nat fuel)%Z ->
    exists st' earlier last,
      pageLoop query location maxPages fuel st = Some st' /\
      fetchedInOrder fetch query location (loopToken st) (GoogleJobsApi.world World st)
                     (earlier ++ [last]) (GoogleJobsApi.world World st') /\
      map page_response (pages st')
        = (map page_response (pages st) ++ map Some (earlier ++ [last]))%list /\
      allJobs st'
        = (allJobs st
           ++ map processedJobs_map (concat (map resultsOf (earlier ++ [last]))))%list /\
      Forall goesOn earlier /\
      currentPage st' = (currentPage st + Z.of_nat (List.length (earlier ++ [last])))%Z /\
      (currentPage st' <= Z.max (currentPage st + 1) maxPages)%Z /\
      (resultsOf last = [] \/ continuationOf last = None \/
       (maxPages <= currentPage st')%Z).
Proof.
  intros K. induction fuel as [|fuel IH]; intros st T Hfuel Hgap; [lia|].
  cbn [GoogleJobsApi.pageLoop].
  destruct (searchJobs_reads query location (loopToken st)
              (GoogleJobsApi.world World st) K T) as [R1 [R2 [R3 R4]]].
  cbv zeta in *.
  set (reply := fst (fetch (requestFor query location (loopToken st))
                           (GoogleJobsApi.world World st))) in *.
  destruct (searchJobs query location (loopToken st) (GoogleJobsApi.world World st))
    as [page w'].
  cbn [fst snd] in *.
  destruct (List.length (jobs (page_result page)) =? 0)%nat eqn:Elen.
  - (* an empty page: break *)
    assert (E : resultsOf reply = []).
    { apply Nat.eqb_eq in Elen. rewrite R3, length_map in Elen.
      now destruct (resultsOf reply). }
    eexists; exists [], reply. split; [reflexivity|].
    cbn [GoogleJobsApi.world GoogleJobsApi.pages GoogleJobsApi.allJobs
         GoogleJobsApi.currentPage app fetchedInOrder map concat List.length].
    rewrite E, map_app. cbn [map app]. rewrite R2, app_nil_r.
    split; [split; [reflexivity | exact R1]|].
    split; [reflexivity|]. split; [reflexivity|].
    split; [constructor|]. split; [lia|]. split; [lia | now left].
  - assert (E : resultsOf reply <> []).
    { intros E. rewrite R3, E in Elen. discriminate. }
    specialize (R4 E).
    destruct (JS.truthyO (nextPageToken (page_result page)) &&
              (currentPage st + 1 <? maxPages)%Z) eqn:Go.
    + apply andb_true_iff in Go as [G1 G2]. apply Z.ltb_lt in G2.
      match goal with
      | |- context [pageLoop _ _ _ fuel ?s] =>
          destruct (IH s) as [st' [earlier [last H]]]
      end.
      { cbn [GoogleJobsApi.loopToken]. rewrite R4. apply continuationOf_token. }
      { lia. }
      { cbn [GoogleJobsApi.currentPage]. lia. }
      cbn [GoogleJobsApi.world GoogleJobsApi.pages GoogleJobsApi.allJobs
           GoogleJobsApi.currentPage GoogleJobsApi.loopToken] in H.
      destruct H as [H1 [H2 [H3 [H4 [H5 [H6 [H7 H8]]]]]]].
      exists st', (reply :: earlier), last. split; [exact H1|].
      cbn [app fetchedInOrder map concat List.length] in *.
      split; [split; [reflexivity|]; rewrite <- R4, <- R1; exact H2|].
      split; [rewrite H3, map_app, <- app_assoc; cbn [map app]; now rewrite R2|].
      split; [rewrite H4, R3, <- app_assoc; f_equal; symmetry; apply map_app|].
      split.
      { constructor; [|exact H5]. split; [exact E|].
        rewrite <- R4. intros N. rewrite N in G1. discriminate. }
      split; [rewrite H6, !length_app; cbn [List.length]; lia|].
      split; [lia | exact H8].
    + eexists; exists [], reply. split; [reflexivity|].
      cbn [GoogleJobsApi.world GoogleJobsApi.pages GoogleJobsApi.allJobs
           GoogleJobsApi.currentPage app fetchedInOrder map concat List.length].
      rewrite map_app, app_nil_r, R3. cbn [map app]. rewrite R2.
      split; [split; [reflexivity | exact R1]|].
      split; [reflexivity|]. split; [reflexivity|].
      split; [constructor|]. split; [lia|]. split; [lia|].
      apply andb_false_iff in Go as [G|G].
      * right. left. rewrite R4 in G.
        pose proof (continuationOf_token reply) as C. rewrite G in C.
        now symmetry.
      * right. right. apply Z.ltb_ge in G. lia.
Qed.

(** C5: the loop ends. With a key, the replies it got are those the
    provider gives, one after the other, to the request for the first page
    and then for the page each reply names; every reply before the last one
    had results and named a next page, so a reply without results, whatever
    token it carries, is the last one fetched; at most [maxPages] replies are
    fetched, one when [maxPages] is below 1; after the last one the loop
    stopped because it had no results, or named no next page, or the bound
    was reached; and the jobs returned are the results of the replies in the
    order fetched, each reply in its own order, normalised one by one.
    Without a key no request is made. *)
Theorem pagination_stops (query location : string) (maxPages : Z) (w : World) :
  exists st,
    searchAllJobs query location maxPages w = Some st /\
    if JS.truthyO apiKey then
      exists earlier last,
        fetchedInOrder fetch query location None w (earlier ++ [last])
                       (GoogleJobsApi.world World st) /\
        map page_response (pages st) = map Some (earlier ++ [last]) /\
        allJobs st
          = map processedJobs_map (concat (map resultsOf (earlier ++ [last]))) /\
        Forall goesOn earlier /\
        currentPage st = Z.of_nat (List.length (earlier ++ [last])) /\
        (Z.of_nat (List.length (earlier ++ [last])) <= Z.max 1 maxPages)%Z /\
        (resultsOf last = [] \/ continuationOf last = None \/
         (maxPages <= Z.of_nat (List.length (earlier ++ [last])))%Z)
    else
      allJobs st = [] /\ GoogleJobsApi.world World st = w /\
      map page_response (pages st) = [None].
Proof.
  destruct (JS.truthyO apiKey) eqn:K.
  - unfold GoogleJobsApi.searchAllJobs.
    destruct (pageLoop_fetches query location maxPages K (S (Z.to_nat maxPages))
                {| GoogleJobsApi.allJobs := []; GoogleJobsApi.loopToken := None;
                   GoogleJobsApi.currentPage := 0; GoogleJobsApi.pages := [];
                   GoogleJobsApi.world := w |})
      as [st [earlier [last H]]]; [reflexivity | lia | cbn; lia |].
    cbn [GoogleJobsApi.world GoogleJobsApi.pages GoogleJobsApi.allJobs
         GoogleJobsApi.currentPage GoogleJobsApi.loopToken map app] in H.
    destruct H as [H1 [H2 [H3 [H4 [H5 [H6 [H7 H8]]]]]]].
    exists st. split; [exact H1|]. exists earlier, last.
    split; [exact H2|]. split; [exact H3|]. split; [exact H4|].
    split; [exact H5|]. split; [lia|]. split; [lia|].
    destruct H8 as [H8|[H8|H8]]; [now left | right; now left | right; right; lia].
  - unfold GoogleJobsApi.searchAllJobs. cbn [GoogleJobsApi.pageLoop].
    unfold GoogleJobsApi.searchJobs. rewrite K. cbn.
    eexists. split; [reflexivity|]. cbn. repeat split.
Qed.

End Pagination.

(** An empty first page with a token: one request, no job. *)
Lemma empty_page_with_token_stops :
  exists st,
    searchAllJobs nat (Some "key") alwaysEmpty "restaurant chef" EmptyString 5 0%nat
      = Some st /\
    pages nat st =
      [ {| page_token := None;
           page_response := Some (Replied true emptyPageWithToken);
           page_result := noJobs |} ] /\
    world nat st = 1%nat /\ allJobs nat st = [].
Proof. eexists. vm_compute. repeat split. Qed.

(** Three pages of one job each and an empty fourth, every reply with a
    token: under a bound of ten pages four requests are made and three jobs
    returned; under a bound of two, two requests and two jobs. *)
Lemma fourth_page_empty_stops :
  (exists st,
      searchAllJobs nat (Some "key") fourPages "restaurant chef" EmptyString 10 0%nat
        = Some st /\
      world nat st = 4%nat /\ List.length (pages nat st) = 4%nat /\
      List.length (allJobs nat st) = 3%nat) /\
  (exists st,
      searchAllJobs nat (Some "key") fourPages "restaurant chef" EmptyString 2 0%nat
        = Some st /\
      world nat st = 2%nat /\ List.length (pages nat st) = 2%nat /\
      List.length (allJobs nat st) = 2%nat).
Proof. split; eexists; vm_compute; repeat split. Qed.

(** ** The enrichment chain (C6) *)

Section EnrichmentChain.

Variable World : Type.
Variable getWebsiteUrlFromSearchAPI :
  string -> World -> Outcome (option string) * World.
Variable getDomainFromUrl : string -> Outcome (option string).
Variable findEmailsWithHunter :
  string -> string -> World -> Outcome (option (list Email.t)) * World.
Variable findEmailsByCompanyName :
  string -> World -> Outcome (option (list Email.t)) * World.

Local Abbreviation enrichment :=
  (enrichment World getWebsiteUrlFromSearchAPI getDomainFromUrl
              findEmailsWithHunter findEmailsByCompanyName).

(** The calls the fallback adds: one search by company name, whatever it
    answers. *)
Lemma companyNameFallback_calls (job : Job.t) (r : Run World) :
  calls World
    (snd (companyNameFallback World findEmailsByCompanyName job r)) =
  (calls World r ++ [ByCompanyName (Job.company job)])%list.
Proof.
  unfold companyNameFallback, bind, called, assign, ret.
  destruct (findEmailsByCompanyName (Job.company job) (net World r))
    as [[emails|] w']; [destruct (hasEmails emails)|]; reflexivity.
Qed.

Lemma truthy_false (s : string) : JS.truthy s = false -> s = EmptyString.
Proof. destruct s; [reflexivity | discriminate]. Qed.

Lemma truthy_true (s : string) : JS.truthy s = true -> s <> EmptyString.
Proof. destruct s; [discriminate | intros _ H; discriminate H]. Qed.

(** The test [emails && emails.length > 0] fails exactly on nothing and on
    the empty list. *)
Lemma hasEmails_false (emails : option (list Email.t)) :
  hasEmails emails = false <-> emails = None \/ emails = Some [].
Proof.
  destruct emails as [[|e l]|]; cbn; split; intros H; try reflexivity;
    try discriminate; try (now left); try (now right).
  destruct H as [H|H]; discriminate H.
Qed.

Ltac no_such_case :=
  let H := fresh in
  intros H;
  unfold noWebsiteFound, noDomainDerived, noContactsByDomain,
    websiteLookupThrows, domainExtractionThrows, searchByDomainThrows in H;
  repeat match type of H with
         | _ \/ _ => destruct H as [H|H]
         | exists _, _ => destruct H as [? H]
         | _ /\ _ => destruct H as [? H]
         end;
  repeat match goal with
         | E : ?x = _, E' : ?x = _ |- _ =>
             rewrite E in E'; inversion E'; subst; clear E'
         end;
  repeat match goal with
         | E : JS.truthy _ = false |- _ => apply truthy_false in E; subst
         | E : JS.truthy _ = true |- _ => apply truthy_true in E
         | E : hasEmails _ = true |- _ => cbn in E
         end;
  try congruence; try discriminate.

(** C6: the calls of one enrichment, for lookups that may return anything
    or throw. The search by company name is made at most once, for the
    job's company, and it is made exactly when the lookups before it
    returned and no website was found, or no domain was derived from the
    website, or the search by domain returned no contact. When the website
    lookup returns a URL from which the extraction returns no domain, the
    search by domain is not made and the search by company name is made
    once. When the website lookup, the extraction or the search by domain
    throws, the enrichment of the job ends there: the search by company name
    is not made, and after a throwing extraction neither is the search by
    domain. *)
Theorem enrichment_fallback_order (job : Job.t) (r : Run World) :
  exists new,
    calls World (tryCatch World (enrichment job) r) = (calls World r ++ new)%list /\
    (List.length (filter isByCompanyName new) <= 1)%nat /\
    (In (ByCompanyName (Job.company job)) new <->
     noWebsiteFound World getWebsiteUrlFromSearchAPI job (net World r) \/
     noDomainDerived World getWebsiteUrlFromSearchAPI getDomainFromUrl
       job (net World r) \/
     noContactsByDomain World getWebsiteUrlFromSearchAPI getDomainFromUrl
       findEmailsWithHunter job (net World r)) /\
    (forall c, In (ByCompanyName c) new -> c = Job.company job) /\
    (noDomainDerived World getWebsiteUrlFromSearchAPI getDomainFromUrl
       job (net World r) ->
     filter isByDomain new = [] /\
     filter isByCompanyName new = [ByCompanyName (Job.company job)]) /\
    (websiteLookupThrows World getWebsiteUrlFromSearchAPI job (net World r) \/
     domainExtractionThrows World getWebsiteUrlFromSearchAPI getDomainFromUrl
       job (net World r) \/
     searchByDomainThrows World getWebsiteUrlFromSearchAPI getDomainFromUrl
       findEmailsWithHunter job (net World r) ->
     filter isByCompanyName new = []) /\
    (domainExtractionThrows World getWebsiteUrlFromSearchAPI getDomainFromUrl
       job (net World r) ->
     filter isByDomain new = []).
Proof.
  unfold tryCatch, GoogleJobsApi.enrichment, bind, called, assign.
  destruct (getWebsiteUrlFromSearchAPI (Job.company job) (net World r))
    as [[found|] w1] eqn:EW; cbn [snd calls net processedJob].
  2:{ (* the website lookup threw *)
      exists [WebsiteLookup (Job.company job)]. split; [reflexivity|].
      split; [cbn; lia|]. split; [split; [cbn; intuition discriminate | no_such_case]|].
      split; [cbn; intuition discriminate|]. split; [no_such_case|].
      split; intros _; reflexivity. }
  destruct found as [url|]; [destruct (JS.truthy url) eqn:EU|].
  2,3: (* no website *)
    rewrite companyNameFallback_calls; cbn [snd calls net processedJob];
    exists [WebsiteLookup (Job.company job); ByCompanyName (Job.company job)];
    (split; [now rewrite <- app_assoc|]); (split; [cbn; lia|]);
    (split; [split; [intros _; left; eexists; eexists; split; [exact EW|];
                     try (apply truthy_false in EU; subst url);
                     (now left) || (now right)
                    | intros _; cbn; tauto]|]);
    (split; [cbn; intros c [H|[H|[]]]; [discriminate | now injection H]|]);
    (split; [no_such_case|]); (split; no_such_case).
  cbn [snd calls net processedJob].
  destruct (getDomainFromUrl url) as [derived|] eqn:ED; cbn [snd calls net processedJob].
  2:{ (* the domain extraction threw *)
      exists [WebsiteLookup (Job.company job); DomainFromUrl url].
      split; [now rewrite <- app_assoc|].
      split; [cbn; lia|]. split; [split; [cbn; intuition discriminate | no_such_case]|].
      split; [cbn; intuition discriminate|]. split; [no_such_case|].
      split; intros _; reflexivity. }
  destruct derived as [domain|]; [destruct (JS.truthy domain) eqn:EDom|].
  2,3: (* no domain *)
    rewrite companyNameFallback_calls; cbn [snd calls net processedJob];
    exists [WebsiteLookup (Job.company job); DomainFromUrl url;
            ByCompanyName (Job.company job)];
    (split; [now rewrite <- !app_assoc|]); (split; [cbn; lia|]);
    (split; [split; [intros _; right; left; exists url, w1; eexists;
                     split; [exact EW|]; split; [now apply truthy_true|];
                     split; [exact ED|];
                     try (apply truthy_false in EDom; subst domain);
                     (now left) || (now right)
                    | intros _; cbn; tauto]|]);
    (split; [cbn; intros c [H|[H|[H|[]]]]; try discriminate; now injection H|]);
    (split; [intros _; split; reflexivity|]);
    (split; no_such_case).
  cbn [snd calls net processedJob].
  destruct (findEmailsWithHunter domain (Job.company job) w1)
    as [[emails|] w2] eqn:EH; cbn [snd calls net processedJob].
  2:{ (* the search by domain threw *)
      exists [WebsiteLookup (Job.company job); DomainFromUrl url;
              ByDomain domain (Job.company job)].
      split; [now rewrite <- !app_assoc|].
      split; [cbn; lia|]. split; [split; [cbn; intuition discriminate | no_such_case]|].
      split; [cbn; intuition discriminate|]. split; [no_such_case|].
      split; [intros _; reflexivity | no_such_case]. }
  destruct (hasEmails emails) eqn:EE; cbn [snd calls net processedJob].
  - (* contacts by domain *)
    exists [WebsiteLookup (Job.company job); DomainFromUrl url;
            ByDomain domain (Job.company job)].
    split; [now rewrite <- !app_assoc|].
    split; [cbn; lia|]. split; [split; [cbn; intuition discriminate | no_such_case]|].
    split; [cbn; intuition discriminate|]. split; [no_such_case|].
    split; [intros _; reflexivity | no_such_case].
  - (* none by domain: the fallback *)
    rewrite companyNameFallback_calls; cbn [snd calls net processedJob].
    exists [WebsiteLookup (Job.company job); DomainFromUrl url;
            ByDomain domain (Job.company job); ByCompanyName (Job.company job)].
    split; [now rewrite <- !app_assoc|]. split; [cbn; lia|].
    split; [split; [intros _; right; right; exists url, w1, domain, w2, emails;
                    split; [exact EW|]; split; [now apply truthy_true|];
                    split; [exact ED|]; split; [now apply truthy_true|];
                    split; [exact EH|]; now apply hasEmails_false
                   | intros _; cbn; tauto]|].
    split; [cbn; intros c [H|[H|[H|[H|[]]]]]; try discriminate; now injection H|].
    split; [no_such_case|]. split; no_such_case.
Qed.

End EnrichmentChain.

(** ** Salary (C8) *)

(** What a match records: a lone amount is both bounds, and without a
    period keyword the period is left as it was. *)
Lemma recordMatch_single_amount (m : SalaryMatch) (salaryInfo : SalaryInfo) :
  group2 m = None ->
  max (recordMatch m salaryInfo) = min (recordMatch m salaryInfo) /\
  min (recordMatch m salaryInfo) = Some (parseFloat (removeCommas (group1 m))) /\
  currency (recordMatch m salaryInfo) = currency salaryInfo.
Proof. intros H. unfold recordMatch. rewrite H. cbn. repeat split. Qed.

Lemma recordMatch_no_period (m : SalaryMatch) (salaryInfo : SalaryInfo) :
  group4 m = None -> period (recordMatch m salaryInfo) = period salaryInfo.
Proof. intros H. unfold recordMatch. rewrite H. reflexivity. Qed.

(** Without a block titled Compensation the description decides, by its
    leftmost match. *)
Lemma highlightsLoop_no_compensation (highlights : list Highlight.t)
      (salaryInfo : SalaryInfo) :
  forallb (fun h => negb (Highlight.title h =? "Compensation")) highlights = true ->
  highlightsLoop highlights salaryInfo = salaryInfo.
Proof.
  induction highlights as [|h rest IH]; cbn [forallb highlightsLoop];
    [reflexivity|].
  intros H. apply andb_true_iff in H as [H1 H2].
  apply negb_true_iff in H1. rewrite H1. cbn [andb]. now apply IH.
Qed.

Lemma salary_from_description (job : Job.t) :
  forallb (fun h => negb (Highlight.title h =? "Compensation"))
          (Job.highlights job) = true ->
  extractSalaryInfo job =
    let initial :=
      {| min := None; max := None; currency := "USD"; period := "yearly" |} in
    match salaryMatch (Job.description job) with
    | Some m => recordMatch m initial
    | None => initial
    end.
Proof.
  intros H. unfold extractSalaryInfo.
  rewrite (highlightsLoop_no_compensation _ _ H). cbn [min truthyNum negb andb].
  destruct (Job.description job) as [|c d]; reflexivity.
Qed.

(** The example of the specification. *)
Lemma salary_example (highlights : list Highlight.t) :
  highlightsLoop highlights
    {| min := None; max := None; currency := "USD"; period := "yearly" |} =
    {| min := None; max := None; currency := "USD"; period := "yearly" |} ->
  extractSalaryInfo (jobWith "Pay: $18 - $22 per hour" highlights) =
    {| min := Some (Num 18 0); max := Some (Num 22 0);
       currency := "USD"; period := "hourly" |}.
Proof.
  intros H. unfold extractSalaryInfo. cbn [Job.highlights jobWith].
  rewrite H. vm_compute. reflexivity.
Qed.

Lemma salary_example_no_highlights :
  extractSalaryInfo (jobWith "Pay: $18 - $22 per hour" []) =
    {| min := Some (Num 18 0); max := Some (Num 22 0);
       currency := "USD"; period := "hourly" |}.
Proof. apply salary_example. reflexivity. Qed.

(** Thousands separators are dropped, a lone amount is both bounds, and
    without a period keyword the period stays yearly. *)
Lemma salary_single_amount :
  extractSalaryInfo (jobWith "Salary: $52,500 plus tips" []) =
    {| min := Some (Num 52500 0); max := Some (Num 52500 0);
       currency := "USD"; period := "yearly" |}.
Proof. vm_compute. reflexivity. Qed.

(** A Compensation block is read before the description. *)
Lemma salary_highlights_first :
  extractSalaryInfo
    (jobWith "Pay: $18 - $22 per hour"
             [ Highlight.mk "Compensation" ["Great team"; "$25 a day"; "$30 a week"] ]) =
    {| min := Some (Num 25 0); max := Some (Num 25 0);
       currency := "USD"; period := "daily" |}.
Proof. vm_compute. reflexivity. Qed.

(** C8 at a job with two Compensation blocks: the first match in reading
    order is "$20 per hour", yet the amounts returned are those of the second
    block, with the period of the first. *)
Theorem salary_later_block_overrides :
  salaryMatch "$20 per hour" =
    Some {| group1 := "20"; group2 := None; group4 := Some "hour" |} /\
  extractSalaryInfo twoCompensationBlocks =
    {| min := Some (Num 50000 0); max := Some (Num 50000 0);
       currency := "USD"; period := "hourly" |}.
Proof. split; vm_compute; reflexivity. Qed.

(** ** The toggles of the input (C2) *)

Section Toggles.

Variable World : Type.
Variable apiKey : option string.
Variable fetch : Request -> World -> Response * World.
Variable getWebsiteUrlFromSearchAPI :
  string -> World -> Outcome (option string) * World.
Variable getDomainFromUrl : string -> Outcome (option string).
Variable findEmailsWithHunter :
  string -> string -> World -> Outcome (option (list Email.t)) * World.
Variable findEmailsByCompanyName :
  string -> World -> Outcome (option (list Email.t)) * World.
Variable toISOString : World -> string.

Local Abbreviation processQuery :=
  (Main.processQuery World apiKey fetch getWebsiteUrlFromSearchAPI
     getDomainFromUrl findEmailsWithHunter findEmailsByCompanyName toISOString).

(** The work done for a query reads three fields of the input: the
    location, the page bound and the full-time toggle. *)
Lemma processQuery_reads (input input' : Main.Input) (query : string) (w : World) :
  Main.location input = Main.location input' ->
  Main.maxPagesPerQuery input = Main.maxPagesPerQuery input' ->
  Main.fullTimeOnly input = Main.fullTimeOnly input' ->
  processQuery input query w = processQuery input' query w.
Proof.
  intros H1 H2 H3. unfold Main.processQuery. now rewrite H1, H2, H3.
Qed.

End Toggles.

(** C2 at that input: both jobs are found and both are dropped, whatever
    the lookups would answer. *)
Theorem toggles_off_jobs_still_dropped
        (getWebsiteUrlFromSearchAPI : string -> nat -> Outcome (option string) * nat)
        (getDomainFromUrl : string -> Outcome (option string))
        (findEmailsWithHunter :
           string -> string -> nat -> Outcome (option (list Email.t)) * nat)
        (findEmailsByCompanyName :
           string -> nat -> Outcome (option (list Email.t)) * nat)
        (toISOString : nat -> string) :
  let result :=
    Main.processQuery nat (Some "key") onePage getWebsiteUrlFromSearchAPI
      getDomainFromUrl findEmailsWithHunter findEmailsByCompanyName toISOString
      togglesOff "restaurant jobs" 0%nat in
  Main.excludeFastFood togglesOff = false /\
  Main.excludeRecruiters togglesOff = false /\
  Main.found nat result = 2%nat /\
  option_map (processedJobs nat) (Main.processing nat result) = Some [] /\
  option_map (excludedByFastFood nat) (Main.processing nat result) = Some 1%nat /\
  option_map (excludedByCompany nat) (Main.processing nat result) = Some 1%nat.
Proof. vm_compute. repeat split. Qed.

(** ** The store of database.js (C1, C10, C4) *)

Section ListFacts.

Context {A : Type}.

Lemma updateFirst_length (f : A -> bool) (g : A -> A) (l : list A) :
  List.length (Database.updateFirst f g l) = List.length l.
Proof.
  induction l as [|x l IH]; simpl; [reflexivity|].
  destruct (f x); simpl; congruence.
Qed.

(** An update that keeps a key keeps the rows that carry it. *)
Lemma updateFirst_filter_length (f h : A -> bool) (g : A -> A) (l : list A) :
  (forall x, h (g x) = h x) ->
  List.length (filter h (Database.updateFirst f g l)) = List.length (filter h l).
Proof.
  intros Hkey. induction l as [|x l IH]; simpl; [reflexivity|].
  destruct (f x); simpl.
  - rewrite Hkey. destruct (h x); reflexivity.
  - destruct (h x); simpl; congruence.
Qed.

Lemma updateFirst_existsb (f h : A -> bool) (g : A -> A) (l : list A) :
  (forall x, h (g x) = h x) ->
  existsb h (Database.updateFirst f g l) = existsb h l.
Proof.
  intros Hkey. induction l as [|x l IH]; simpl; [reflexivity|].
  destruct (f x); simpl; [now rewrite Hkey | now rewrite IH].
Qed.

Lemma find_none_filter (f : A -> bool) (l : list A) :
  find f l = None -> filter f l = [].
Proof.
  induction l as [|x l IH]; simpl; [reflexivity|].
  destruct (f x); [discriminate | exact IH].
Qed.


Lemma existsb_false_filter (f : A -> bool) (l : list A) :
  existsb f l = false -> filter f l = [].
Proof.
  induction l as [|x l IH]; simpl; [reflexivity|].
  destruct (f x); [discriminate | exact IH].
Qed.

Lemma existsb_true_filter (f : A -> bool) (l : list A) :
  existsb f l = true -> (1 <= List.length (filter f l))%nat.
Proof.
  induction l as [|x l IH]; simpl; [discriminate|].
  destruct (f x); simpl; [intros _; lia | exact IH].
Qed.

Lemma find_updateFirst (f : A -> bool) (g : A -> A) (l : list A) (x : A) :
  (forall y, f (g y) = f y) ->
  find f l = Some x -> find f (Database.updateFirst f g l) = Some (g x).
Proof.
  intros Hkey. induction l as [|y l IH]; simpl; [discriminate|].
  destruct (f y) eqn:E.
  - intros [= <-]. simpl. now rewrite Hkey, E.
  - intros H. simpl. rewrite E. now apply IH.
Qed.

Lemma find_app_new (f : A -> bool) (l : list A) (x : A) :
  find f l = None -> f x = true -> find f (l ++ [x]) = Some x.
Proof.
  intros F Hx. induction l as [|y l IH]; cbn.
  - now rewrite Hx.
  - cbn in F. destruct (f y); [discriminate | now apply IH].
Qed.

Lemma find_unique (f : A -> bool) (l : list A) (x : A) :
  (List.length (filter f l) <= 1)%nat -> In x l -> f x = true -> find f l = Some x.
Proof.
  induction l as [|y l IH]; simpl; [tauto|].
  intros Hle [->|Hin] Hx.
  - now rewrite Hx.
  - destruct (f y) eqn:E.
    + simpl in Hle. exfalso.
      assert (In x (filter f l)) by (apply filter_In; now split).
      destruct (filter f l); [contradiction | simpl in Hle; lia].
    + now apply IH.
Qed.

End ListFacts.

Section StoreFacts.

Import Database.

Lemma conflicts_updatedRow (link : option string) (now : Timestamp)
      (job : ProcessedJob) (old : JobRow.t) :
  conflicts link (updatedRow now job old) = conflicts link old.
Proof. reflexivity. Qed.


Lemma conflicts_sym_link (l l' : string) (row : JobRow.t) :
  conflicts (Some l) row = true -> conflicts (Some l') row = true -> l = l'.
Proof.
  unfold conflicts. destruct (JobRow.apply_link row) as [x|]; [|discriminate].
  intros H1 H2. apply String.eqb_eq in H1, H2. congruence.
Qed.

(** The job statement keeps the link constraint, and leaves one row for the
    link of the job it was given. *)
Lemma upsertJob_uniqueLinks (now : Timestamp) (job : ProcessedJob) (t : Tables) :
  uniqueLinks t -> uniqueLinks (snd (upsertJob now job t)).
Proof.
  intros Hu link. unfold upsertJob, linkCount.
  destruct (find (conflicts (GoogleJobsApi.apply_link job)) (jobs t)) as [old|] eqn:F;
    cbn [snd jobs].
  - rewrite updateFirst_filter_length; [apply Hu | intros; apply conflicts_updatedRow].
  - rewrite filter_app, length_app. cbn [filter].
    destruct (conflicts (Some link) (proposedRow (jobs_id_seq t) now job)) eqn:C.
    + assert (GoogleJobsApi.apply_link job = Some link) as Hl.
      { revert C. unfold conflicts. cbn.
        destruct (GoogleJobsApi.apply_link job) as [x|]; [|discriminate].
        intros H. apply String.eqb_eq in H. now subst. }
      rewrite Hl in F. rewrite (find_none_filter _ _ F). cbn. lia.
    + cbn. specialize (Hu link). unfold linkCount in Hu. lia.
Qed.


Lemma upsertJob_contacts (now : Timestamp) (job : ProcessedJob) (t : Tables) :
  contacts (snd (upsertJob now job t)) = contacts t.
Proof. unfold upsertJob. destruct (find _ (jobs t)); reflexivity. Qed.

(** The contact statement leaves the jobs alone, keeps the contact
    constraint, and leaves one row for its pair. *)
Lemma upsertContact_jobs (now : Timestamp) (jobId : Z) (email : Email.t)
      (company : string) (domain : option string) (t t' : Tables) :
  upsertContact now jobId email company domain t = Some t' ->
  jobs t' = jobs t /\ jobs_id_seq t' = jobs_id_seq t.
Proof.
  unfold upsertContact. destruct (negb (jobExists jobId t)); [discriminate|].
  intros [= <-]. now split.
Qed.

Lemma sameContact_updated (jobId : Z) (e : string) (email : Email.t)
      (company : string) (domain : option string) (old : ContactRow.t) :
  sameContact jobId e (updatedContact email company domain old) =
  sameContact jobId e old.
Proof. reflexivity. Qed.

Lemma upsertContact_count (now : Timestamp) (jobId : Z) (email : Email.t)
      (company : string) (domain : option string) (t t' : Tables)
      (id : Z) (e : string) :
  upsertContact now jobId email company domain t = Some t' ->
  contactCount id e t' =
    if existsb (sameContact jobId (Email.email email)) (contacts t)
    then contactCount id e t
    else contactCount id e t +
         (if Z.eqb jobId id && String.eqb (Email.email email) e then 1 else 0).
Proof.
  unfold upsertContact, contactCount.
  destruct (negb (jobExists jobId t)); [discriminate|].
  intros [= <-]. cbn [contacts].
  destruct (existsb (sameContact jobId (Email.email email)) (contacts t)).
  - apply updateFirst_filter_length. intros; apply sameContact_updated.
  - rewrite filter_app, length_app. cbn [filter]. unfold sameContact at 2.
    cbn [ContactRow.job_id ContactRow.email].
    destruct (Z.eqb jobId id && String.eqb (Email.email email) e); reflexivity.
Qed.

Lemma upsertContact_uniqueContacts (now : Timestamp) (jobId : Z) (email : Email.t)
      (company : string) (domain : option string) (t t' : Tables) :
  uniqueContacts t ->
  upsertContact now jobId email company domain t = Some t' ->
  uniqueContacts t'.
Proof.
  intros Hu H id e. rewrite (upsertContact_count _ _ _ _ _ _ _ id e H).
  destruct (existsb (sameContact jobId (Email.email email)) (contacts t)) eqn:E;
    [apply Hu|].
  destruct (Z.eqb jobId id && String.eqb (Email.email email) e) eqn:K.
  - apply andb_true_iff in K as [K1 K2].
    apply Z.eqb_eq in K1. apply String.eqb_eq in K2. subst.
    unfold contactCount. rewrite (existsb_false_filter _ _ E). cbn. lia.
  - specialize (Hu id e). lia.
Qed.

Lemma upsertContact_present (now : Timestamp) (jobId : Z) (email : Email.t)
      (company : string) (domain : option string) (t t' : Tables) :
  upsertContact now jobId email company domain t = Some t' ->
  (1 <= contactCount jobId (Email.email email) t')%nat.
Proof.
  intros H. rewrite (upsertContact_count _ _ _ _ _ _ _ _ _ H).
  destruct (existsb (sameContact jobId (Email.email email)) (contacts t)) eqn:E.
  - now apply existsb_true_filter.
  - rewrite Z.eqb_refl, String.eqb_refl. cbn. lia.
Qed.

Lemma upsertContact_grows (now : Timestamp) (jobId : Z) (email : Email.t)
      (company : string) (domain : option string) (t t' : Tables)
      (id : Z) (e : string) :
  upsertContact now jobId email company domain t = Some t' ->
  (contactCount id e t <= contactCount id e t')%nat.
Proof.
  intros H. rewrite (upsertContact_count _ _ _ _ _ _ _ id e H).
  destruct (existsb _ (contacts t)); lia.
Qed.

End StoreFacts.

Section ClientFacts.

Import Database.

Variable fault : nat -> Command -> bool.
Variable clock : nat -> Timestamp.

Local Abbreviation query := (query fault clock).
Local Abbreviation contactsLoop := (contactsLoop fault clock).
Local Abbreviation tryJob := (tryJob fault clock).
Local Abbreviation jobsLoop := (jobsLoop fault clock).
Local Abbreviation insertJobsIntoDatabase := (insertJobsIntoDatabase fault clock).

(** A command that is refused changes nothing but the record of what was
    sent. *)
Lemma query_sent (c : Command) (s s' : Session) (o : Outcome (option Z)) :
  query c s = (o, s') -> issued s' = (issued s ++ [c])%list.
Proof.
  unfold Database.query. destruct (fault _ c); [now intros [= <- <-]|].
  destruct c; try (now intros [= <- <-]).
  - destruct (aborted s); [now intros [= <- <-]|].
    destruct (upsertJob _ _ _). now intros [= <- <-].
  - destruct (aborted s); [now intros [= <- <-]|].
    destruct (upsertContact _ _ _ _ _ _); now intros [= <- <-].
Qed.

Lemma query_throws (c : Command) (s s' : Session) :
  query c s = (Throws, s') ->
  tables s' = tables s /\ snapshot s' = snapshot s /\
  transaction_time s' = transaction_time s.
Proof.
  unfold Database.query. destruct (fault _ c); [now intros [= <-]|].
  destruct c; try discriminate.
  - destruct (aborted s); [now intros [= <-]|].
    destruct (upsertJob _ _ _). discriminate.
  - destruct (aborted s); [now intros [= <-]|].
    destruct (upsertContact _ _ _ _ _ _); [discriminate | now intros [= <-]].
Qed.

Lemma query_insertJob (job : ProcessedJob) (s s' : Session) (r : option Z) :
  query (InsertJob job) s = (Returns r, s') ->
  r = Some (fst (upsertJob (transaction_time s) job (tables s))) /\
  tables s' = snd (upsertJob (transaction_time s) job (tables s)) /\
  snapshot s' = snapshot s /\ transaction_time s' = transaction_time s.
Proof.
  unfold Database.query. destruct (fault _ _); [discriminate|].
  destruct (aborted s); [discriminate|].
  destruct (upsertJob _ _ _) as [id t]. now intros [= <- <-].
Qed.

Lemma query_insertContact (jobId : Z) (email : Email.t) (company : string)
      (domain : option string) (s s' : Session) (r : option Z) :
  query (InsertContact jobId email company domain) s = (Returns r, s') ->
  upsertContact (transaction_time s) jobId email company domain (tables s)
    = Some (tables s') /\
  snapshot s' = snapshot s /\ transaction_time s' = transaction_time s.
Proof.
  unfold Database.query. destruct (fault _ _); [discriminate|].
  destruct (aborted s); [discriminate|].
  destruct (upsertContact _ _ _ _ _ _) as [t|]; [|discriminate].
  now intros [= _ <-].
Qed.

Lemma contactsLoop_returns (jobId : Z) (job : ProcessedJob) :
  forall (emails : list Email.t) (s s' : Session) (u : unit),
    contactsLoop jobId job emails s = (Returns u, s') ->
    persistContacts (transaction_time s) jobId (GoogleJobsApi.company job)
      (GoogleJobsApi.company_domain job) emails (tables s) = Some (tables s') /\
    snapshot s' = snapshot s /\ transaction_time s' = transaction_time s.
Proof.
  intros emails. induction emails as [|email rest IH]; intros s s' u; cbn.
  - intros H. inversion H. subst. now repeat split.
  - destruct (query _ s) as [[r|] s1] eqn:Q; [|discriminate].
    intros H. apply query_insertContact in Q as [Q1 [Q2 Q3]].
    apply IH in H as [H1 [H2 H3]]. rewrite Q1. rewrite Q3 in H1.
    repeat split; congruence.
Qed.

Lemma tryJob_returns (job : ProcessedJob) (s s' : Session) (jobId : Z) :
  tryJob job s = (Returns jobId, s') ->
  jobId = fst (upsertJob (transaction_time s) job (tables s)) /\
  persistContacts (transaction_time s) jobId (GoogleJobsApi.company job)
    (GoogleJobsApi.company_domain job) (GoogleJobsApi.emails job)
    (snd (upsertJob (transaction_time s) job (tables s))) = Some (tables s') /\
  snapshot s' = snapshot s /\ transaction_time s' = transaction_time s.
Proof.
  unfold Database.tryJob.
  destruct (query (InsertJob job) s) as [[[id|]|] s1] eqn:Q; try discriminate.
  apply query_insertJob in Q as [Q1 [Q2 [Q3 Q4]]].
  destruct (contactsLoop id job _ s1) as [[u|] s2] eqn:C; [|discriminate].
  intros [= <- <-]. apply contactsLoop_returns in C as [C1 [C2 C3]].
  injection Q1 as Q1. rewrite Q4, Q2 in C1. repeat split; congruence.
Qed.

(** A statement that is served leaves the transaction in order. *)
Lemma query_returns_clean (c : Command) (s s' : Session) (r : option Z) :
  isInsert c = true -> query c s = (Returns r, s') -> aborted s' = false.
Proof.
  unfold Database.query. destruct (fault _ c); [discriminate|].
  destruct c; try discriminate; intros _.
  - destruct (aborted s); [discriminate|].
    destruct (upsertJob _ _ _). now intros [= _ <-].
  - destruct (aborted s); [discriminate|].
    destruct (upsertContact _ _ _ _ _ _); [|discriminate]. now intros [= _ <-].
Qed.

Lemma contactsLoop_clean (jobId : Z) (job : ProcessedJob) :
  forall (emails : list Email.t) (s s' : Session) (u : unit),
    aborted s = false ->
    contactsLoop jobId job emails s = (Returns u, s') -> aborted s' = false.
Proof.
  intros emails. induction emails as [|email rest IH]; intros s s' u A; cbn.
  - now intros [= _ <-].
  - destruct (query _ s) as [[r|] s1] eqn:Q; [|discriminate].
    apply query_returns_clean in Q; [|reflexivity]. now apply IH.
Qed.

Lemma tryJob_clean (job : ProcessedJob) (s s' : Session) (jobId : Z) :
  tryJob job s = (Returns jobId, s') -> aborted s' = false.
Proof.
  unfold Database.tryJob.
  destruct (query (InsertJob job) s) as [[[id|]|] s1] eqn:Q; try discriminate.
  apply query_returns_clean in Q; [|reflexivity].
  destruct (contactsLoop id job _ s1) as [[u|] s2] eqn:C; [|discriminate].
  intros [= _ <-]. exact (contactsLoop_clean _ _ _ _ _ _ Q C).
Qed.

(** A call that reports one job for a batch of one went through: the
    tables it leaves are those of the two statements. *)
Lemma single_job_persisted (job : ProcessedJob) (s s' : Session) :
  insertJobsIntoDatabase (Some s) [job] = (Returns 1%nat, Some s') ->
  let now := transaction_time s' in
  let jobId := fst (upsertJob now job (tables s)) in
  persistContacts now jobId (GoogleJobsApi.company job)
    (GoogleJobsApi.company_domain job) (GoogleJobsApi.emails job)
    (snd (upsertJob now job (tables s))) = Some (tables s').
Proof.
  unfold Database.insertJobsIntoDatabase, rollingBack.
  destruct (query Connect s) as [[r0|] s0] eqn:Q0; [|discriminate].
  assert (T0 : tables s0 = tables s).
  { revert Q0. unfold Database.query. destruct (fault _ _); [discriminate|].
    now intros [= _ <-]. }
  destruct (query Begin s0) as [[r1|] s1] eqn:Q1.
  2:{ destruct (query Rollback s1) as [[?|] ?]; discriminate. }
  assert (T1 : tables s1 = tables s0).
  { revert Q1. unfold Database.query. destruct (fault _ _); [discriminate|].
    now intros [= _ <-]. }
  cbn [Database.jobsLoop].
  destruct (tryJob job s1) as [[jobId|] s2] eqn:T.
  2:{ destruct (query Commit s2) as [[?|] ?]; [discriminate|].
      destruct (query Rollback _) as [[?|] ?]; discriminate. }
  destruct (query Commit s2) as [[r3|] s3] eqn:Q3.
  2:{ destruct (query Rollback _) as [[?|] ?]; discriminate. }
  intros [= <-]. cbv zeta.
  assert (T3 : tables s3 = tables s2 /\ transaction_time s3 = transaction_time s2).
  { revert Q3. unfold Database.query. destruct (fault _ _); [discriminate|].
    rewrite (tryJob_clean _ _ _ _ T). now intros [= _ <-]. }
  destruct T3 as [T3 T3'].
  apply tryJob_returns in T as [H1 [H2 [_ H4]]].
  rewrite T3, T3', H4, <- T0, <- T1, <- H1. exact H2.
Qed.

(** What the contacts of a job leave behind. *)
Lemma persistContacts_facts (now : Timestamp) (jobId : Z) (company : string)
      (domain : option string) :
  forall (emails : list Email.t) (t t' : Tables),
    persistContacts now jobId company domain emails t = Some t' ->
    jobs t' = jobs t /\
    (uniqueContacts t -> uniqueContacts t') /\
    (forall id e, (contactCount id e t <= contactCount id e t')%nat) /\
    (forall email, In email emails ->
                   (1 <= contactCount jobId (Email.email email) t')%nat).
Proof.
  intros emails. induction emails as [|email rest IH]; intros t t'; cbn.
  - intros [= <-]. repeat split; auto. contradiction.
  - destruct (upsertContact now jobId email company domain t) as [t1|] eqn:U;
      [|discriminate].
    intros H. destruct (IH _ _ H) as [H1 [H2 [H3 H4]]].
    destruct (upsertContact_jobs _ _ _ _ _ _ _ U) as [J _].
    repeat split.
    + congruence.
    + intros Hu. apply H2. eapply upsertContact_uniqueContacts; eauto.
    + intros id e. etransitivity; [|apply H3]. eapply upsertContact_grows; eauto.
    + intros e [<-|Hin]; [|now apply H4].
      etransitivity; [|apply H3]. eapply upsertContact_present; eauto.
Qed.





(** C10: a job without a link conflicts with no row: persisted twice with
    success, it is inserted twice, as two rows with different ids and the
    columns of the job. *)
Theorem null_link_inserts_twice (job : ProcessedJob) (s s1 s2 : Session) :
  GoogleJobsApi.apply_link job = None ->
  insertJobsIntoDatabase (Some s) [job] = (Returns 1%nat, Some s1) ->
  insertJobsIntoDatabase (Some s1) [job] = (Returns 1%nat, Some s2) ->
  exists id1 id2,
    id1 <> id2 /\
    jobs (tables s1) =
      (jobs (tables s) ++ [proposedRow id1 (transaction_time s1) job])%list /\
    jobs (tables s2) =
      (jobs (tables s) ++ [proposedRow id1 (transaction_time s1) job;
                           proposedRow id2 (transaction_time s2) job])%list /\
    List.length (jobs (tables s2)) = (List.length (jobs (tables s)) + 2)%nat.
Proof.
  intros Hl R1 R2.
  apply single_job_persisted in R1. apply single_job_persisted in R2.
  cbv zeta in R1, R2.
  destruct (persistContacts_facts _ _ _ _ _ _ _ R1) as [J1 _].
  destruct (persistContacts_facts _ _ _ _ _ _ _ R2) as [J2 _].
  assert (Seq1 : jobs_id_seq (tables s1) = (jobs_id_seq (tables s) + 1)%Z).
  { clear - R1 Hl. revert R1.
    generalize (fst (upsertJob (transaction_time s1) job (tables s))).
    assert (jobs_id_seq (snd (upsertJob (transaction_time s1) job (tables s)))
            = (jobs_id_seq (tables s) + 1)%Z) as <-.
    { unfold upsertJob. destruct (find _ _); reflexivity. }
    generalize (snd (upsertJob (transaction_time s1) job (tables s))).
    generalize (tables s1).
    induction (GoogleJobsApi.emails job) as [|e l IH]; intros t' t z; cbn.
    - now intros [= <-].
    - destruct (upsertContact _ _ _ _ _ _) as [t1|] eqn:U; [|discriminate].
      intros H. apply IH in H. apply upsertContact_jobs in U as [_ U]. congruence. }
  unfold upsertJob in J1, J2. rewrite Hl in J1, J2. cbn [conflicts] in J1, J2.
  assert (N : forall l : list JobRow.t, find (fun _ => false) l = None).
  { induction l; [reflexivity | exact IHl]. }
  rewrite N in J1, J2. cbn [snd jobs] in J1, J2.
  exists (jobs_id_seq (tables s)), (jobs_id_seq (tables s1)).
  split; [lia|]. split; [exact J1|]. split.
  - rewrite J2, J1, <- app_assoc. reflexivity.
  - rewrite J2, J1, !length_app. cbn. lia.
Qed.

End ClientFacts.

(** ** What the loop over the jobs carries on *)

Section IsolationDatabase.

Import Database.

Variable fault : nat -> Command -> bool.
Variable clock : nat -> Timestamp.

Local Abbreviation query := (query fault clock).
Local Abbreviation contactsLoop := (contactsLoop fault clock).
Local Abbreviation tryJob := (tryJob fault clock).
Local Abbreviation jobsLoop := (jobsLoop fault clock).
Local Abbreviation insertJobsIntoDatabase := (insertJobsIntoDatabase fault clock).

Lemma carriedOn_refl (s : Session) : carriedOn s s.
Proof.
  split; auto. exists []. now rewrite app_nil_r.
Qed.

Lemma carriedOn_trans (s1 s2 s3 : Session) :
  carriedOn s1 s2 -> carriedOn s2 s3 -> carriedOn s1 s3.
Proof.
  intros [A1 A2 [l1 [A3 A4]]] [B1 B2 [l2 [B3 B4]]]. split.
  - congruence.
  - auto.
  - exists (l1 ++ l2)%list. rewrite B3, A3, app_assoc, forallb_app, A4, B4.
    now split.
Qed.

Lemma upsertJob_rows_stay (now : Timestamp) (job : ProcessedJob) (t : Tables) (id : Z) :
  jobExists id t = true -> jobExists id (snd (upsertJob now job t)) = true.
Proof.
  unfold jobExists, upsertJob.
  destruct (find _ (jobs t)); cbn [snd jobs]; intros H.
  - now rewrite updateFirst_existsb.
  - rewrite existsb_app, H. reflexivity.
Qed.

Lemma upsertJob_row_exists (now : Timestamp) (job : ProcessedJob) (t : Tables) :
  jobExists (fst (upsertJob now job t)) (snd (upsertJob now job t)) = true.
Proof.
  unfold jobExists, upsertJob.
  destruct (find _ (jobs t)) as [old|] eqn:F; cbn [fst snd jobs].
  - rewrite updateFirst_existsb; [|reflexivity].
    apply find_some in F as [Hin _]. apply existsb_exists.
    exists old. split; [exact Hin | apply Z.eqb_refl].
  - rewrite existsb_app. cbn. rewrite Z.eqb_refl. apply orb_true_r.
Qed.

Lemma statement_carriedOn (c : Command) (s s' : Session) (o : Outcome (option Z)) :
  isStatement c = true -> query c s = (o, s') -> carriedOn s s'.
Proof.
  intros Hc Q.
  assert (Hsent : exists statements,
             issued s' = (issued s ++ statements)%list /\
             forallb isStatement statements = true).
  { exists [c]. split; [eapply query_sent; eauto | cbn; now rewrite Hc]. }
  destruct o as [r|].
  - destruct c; try discriminate.
    + apply query_insertJob in Q as [_ [Q2 [Q3 _]]]. split; trivial.
      intros id. rewrite Q2. apply upsertJob_rows_stay.
    + apply query_insertContact in Q as [Q1 [Q2 _]]. split; trivial.
      intros id. unfold jobExists.
      apply upsertContact_jobs in Q1 as [-> _]. trivial.
  - apply query_throws in Q as [Q1 [Q2 _]]. split; trivial.
    intros id. now rewrite Q1.
Qed.

Lemma contactsLoop_carriedOn (jobId : Z) (job : ProcessedJob) :
  forall (l : list Email.t) (s : Session),
    carriedOn s (snd (contactsLoop jobId job l s)).
Proof.
  induction l as [|email rest IH]; intros s; cbn.
  - apply carriedOn_refl.
  - destruct (query _ s) as [[r|] s1] eqn:Q.
    + eapply carriedOn_trans; [|apply IH].
      eapply statement_carriedOn; [|exact Q]; reflexivity.
    + cbn. eapply statement_carriedOn; [|exact Q]; reflexivity.
Qed.

Lemma tryJob_carriedOn (job : ProcessedJob) (s : Session) :
  carriedOn s (snd (tryJob job s)) /\
  forall id, fst (tryJob job s) = Returns id ->
             jobExists id (tables (snd (tryJob job s))) = true.
Proof.
  unfold Database.tryJob.
  destruct (query (InsertJob job) s) as [[[id|]|] s1] eqn:Q; cbn [fst snd].
  - pose proof (contactsLoop_carriedOn id job (GoogleJobsApi.emails job) s1) as C.
    assert (S1 : carriedOn s s1) by (eapply statement_carriedOn; [|exact Q]; reflexivity).
    assert (E : jobExists id (tables s1) = true).
    { apply query_insertJob in Q as [Q1 [Q2 _]]. injection Q1 as ->.
      rewrite Q2. apply upsertJob_row_exists. }
    destruct (contactsLoop id job _ s1) as [[u|] s2]; cbn [fst snd] in *.
    + split; [eapply carriedOn_trans; eauto|].
      intros id' [= <-]. now apply (rows_stay _ _ C).
    + split; [eapply carriedOn_trans; eauto | discriminate].
  - split; [eapply statement_carriedOn; [|exact Q]; reflexivity | discriminate].
  - split; [eapply statement_carriedOn; [|exact Q]; reflexivity | discriminate].
Qed.

Lemma jobsLoop_accounts :
  forall (batch : list ProcessedJob) (insertedCount : nat) (s : Session),
    fst (jobsLoop batch insertedCount s) =
      (insertedCount + succeeded (attempts fault clock batch s))%nat /\
    List.length (attempts fault clock batch s) = List.length batch /\
    carriedOn s (snd (jobsLoop batch insertedCount s)) /\
    forall id, In (Returns id) (attempts fault clock batch s) ->
               jobExists id (tables (snd (jobsLoop batch insertedCount s))) = true.
Proof.
  induction batch as [|job rest IH]; intros n s.
  - cbn. split; [unfold succeeded; cbn; lia|].
    split; [reflexivity|]. split; [apply carriedOn_refl | contradiction].
  - cbn [Database.jobsLoop attempts].
    destruct (tryJob_carriedOn job s) as [C E].
    destruct (tryJob job s) as [[id|] s1]; cbn [fst snd] in *.
    + destruct (IH (S n) s1) as [H1 [H2 [H3 H4]]].
      unfold succeeded in *. cbn [filter isReturns List.length].
      split; [|split; [|split]].
      * rewrite H1. lia.
      * now rewrite H2.
      * eapply carriedOn_trans; eauto.
      * intros id' [[= <-]|Hin]; [|now apply H4].
        apply (rows_stay _ _ H3). now apply E.
    + destruct (IH n s1) as [H1 [H2 [H3 H4]]].
      unfold succeeded in *. cbn [filter isReturns List.length].
      split; [|split; [|split]].
      * exact H1.
      * now rewrite H2.
      * eapply carriedOn_trans; eauto.
      * intros id' [Hin|Hin]; [discriminate | now apply H4].
Qed.

Lemma query_connect (s : Session) :
  (forall n, fault n Connect = false) ->
  query Connect s =
    (Returns None,
     {| tables := tables s; snapshot := snapshot s; aborted := aborted s;
        transaction_time := transaction_time s;
        issued := issued s ++ [Connect] |}).
Proof. intros H. unfold Database.query. now rewrite H. Qed.

Lemma query_begin (s : Session) :
  (forall n, fault n Begin = false) ->
  query Begin s =
    (Returns None,
     {| tables := tables s; snapshot := Some (tables s); aborted := false;
        transaction_time := clock (List.length (issued s));
        issued := issued s ++ [Begin] |}).
Proof. intros H. unfold Database.query. now rewrite H. Qed.

Lemma query_commit (s : Session) :
  (forall n, fault n Commit = false) ->
  query Commit s =
    (Returns None,
     {| tables := if aborted s then restored s else tables s;
        snapshot := None; aborted := false;
        transaction_time := transaction_time s;
        issued := issued s ++ [Commit] |}).
Proof. intros H. unfold Database.query. now rewrite H. Qed.

End IsolationDatabase.

Section IsolationMain.

Import Main.

Variable fault : nat -> Command -> bool.
Variable clock : nat -> string.

Local Abbreviation query := (query fault).
Local Abbreviation contactsLoop := (contactsLoop fault).
Local Abbreviation tryJob := (tryJob fault clock).
Local Abbreviation jobsLoop := (jobsLoop fault clock).
Local Abbreviation insertJobsIntoDatabase := (insertJobsIntoDatabase fault clock).

Lemma carriedOnMain_refl (s : Session) : carriedOnMain s s.
Proof.
  split; auto. exists []. now rewrite app_nil_r.
Qed.

Lemma carriedOnMain_trans (s1 s2 s3 : Session) :
  carriedOnMain s1 s2 -> carriedOnMain s2 s3 -> carriedOnMain s1 s3.
Proof.
  intros [A1 A2 [l1 [A3 A4]]] [B1 B2 [l2 [B3 B4]]]. split.
  - congruence.
  - auto.
  - exists (l1 ++ l2)%list. rewrite B3, A3, app_assoc, forallb_app, A4, B4.
    now split.
Qed.

Lemma upsertJob_rows_stay_main (v : JobValues) (t : Tables) (id : Z) :
  jobExists id t = true -> jobExists id (snd (upsertJob v t)) = true.
Proof.
  unfold jobExists, upsertJob.
  destruct (find _ (jobs t)); cbn [snd jobs]; intros H.
  - now rewrite updateFirst_existsb.
  - rewrite existsb_app, H. reflexivity.
Qed.

Lemma upsertJob_row_exists_main (v : JobValues) (t : Tables) :
  jobExists (fst (upsertJob v t)) (snd (upsertJob v t)) = true.
Proof.
  unfold jobExists, upsertJob.
  destruct (find _ (jobs t)) as [old|] eqn:F; cbn [fst snd jobs].
  - rewrite updateFirst_existsb; [|reflexivity].
    apply find_some in F as [Hin _]. apply existsb_exists.
    exists old. split; [exact Hin | apply Z.eqb_refl].
  - rewrite existsb_app. cbn. rewrite Z.eqb_refl. apply orb_true_r.
Qed.

Lemma statement_carriedOn_main (c : Command) (s : Session) :
  isStatementMain c = true ->
  carriedOnMain s (snd (query c s)) /\
  forall id, fst (query c s) = Returns (Some id) ->
             jobExists id (tables (snd (query c s))) = true.
Proof.
  intros Hc.
  assert (Hsent : exists statements,
             (issued s ++ [c])%list = (issued s ++ statements)%list /\
             forallb isStatementMain statements = true).
  { exists [c]. split; [reflexivity | cbn; now rewrite Hc]. }
  unfold Main.query. destruct (fault _ c).
  - cbn [fst snd]. split; [split; cbn; auto | discriminate].
  - destruct c as [| | | |values|jobId name ttl email now]; try discriminate.
    all: destruct (aborted s);
      [cbn [fst snd]; split; [split; cbn; auto | discriminate]|].
    + destruct (upsertJob values (tables s)) as [id t] eqn:U. cbn [fst snd].
      split.
      * split; cbn; auto. intros id' H.
        change t with (snd (id, t)). rewrite <- U.
        now apply upsertJob_rows_stay_main.
      * intros id' [= <-]. cbn.
        change t with (snd (id, t)). change id with (fst (id, t)) at 1.
        rewrite <- U. apply upsertJob_row_exists_main.
    + destruct (upsertContact jobId name ttl email now (tables s)) as [t|] eqn:U;
        cbn [fst snd]; (split; [|discriminate]).
      * split; cbn; auto. intros id.
        revert U. unfold upsertContact, jobExists.
        destruct (negb _); [discriminate|]. now intros [= <-].
      * split; cbn; auto.
Qed.

Lemma contactsLoop_carriedOn_main (jobId : Z) (now : string) :
  forall (l : list Email.t) (s : Session),
    carriedOnMain s (contactsLoop jobId now l s).
Proof.
  induction l as [|email rest IH]; intros s; cbn.
  - apply carriedOnMain_refl.
  - match goal with
    | |- context [query ?c s] =>
        destruct (statement_carriedOn_main c s eq_refl) as [C _];
        destruct (query c s) as [o s1]
    end.
    cbn [snd] in C. eapply carriedOnMain_trans; [exact C | apply IH].
Qed.

Lemma tryJob_carriedOn_main (job : ProcessedJob) (s : Session) :
  carriedOnMain s (snd (tryJob job s)) /\
  forall id, fst (tryJob job s) = Returns id ->
             jobExists id (tables (snd (tryJob job s))) = true.
Proof.
  unfold Main.tryJob.
  match goal with
  | |- context [query ?c s] =>
      destruct (statement_carriedOn_main c s eq_refl) as [C E];
      destruct (query c s) as [[[id|]|] s1]
  end; cbn [fst snd] in *.
  - pose proof (contactsLoop_carriedOn_main id (clock (List.length (issued s)))
                  (GoogleJobsApi.emails job) s1) as C'.
    split; [eapply carriedOnMain_trans; eauto|].
    intros id' [= <-]. apply (rows_stay_main _ _ C'). now apply E.
  - split; [exact C | discriminate].
  - split; [exact C | discriminate].
Qed.

Lemma jobsLoop_accounts_main :
  forall (batch : list ProcessedJob) (insertedCount : nat) (s : Session),
    fst (jobsLoop batch insertedCount s) =
      (insertedCount + succeeded (attemptsMain fault clock batch s))%nat /\
    List.length (attemptsMain fault clock batch s) = List.length batch /\
    carriedOnMain s (snd (jobsLoop batch insertedCount s)) /\
    forall id, In (Returns id) (attemptsMain fault clock batch s) ->
               jobExists id (tables (snd (jobsLoop batch insertedCount s))) = true.
Proof.
  induction batch as [|job rest IH]; intros n s.
  - cbn. split; [unfold succeeded; cbn; lia|].
    split; [reflexivity|]. split; [apply carriedOnMain_refl | contradiction].
  - cbn [Main.jobsLoop attemptsMain].
    destruct (tryJob_carriedOn_main job s) as [C E].
    destruct (tryJob job s) as [[id|] s1]; cbn [fst snd] in *.
    + destruct (IH (S n) s1) as [H1 [H2 [H3 H4]]].
      unfold succeeded in *. cbn [filter isReturns List.length].
      split; [|split; [|split]].
      * rewrite H1. lia.
      * now rewrite H2.
      * eapply carriedOnMain_trans; eauto.
      * intros id' [[= <-]|Hin]; [|now apply H4].
        apply (rows_stay_main _ _ H3). now apply E.
    + destruct (IH n s1) as [H1 [H2 [H3 H4]]].
      unfold succeeded in *. cbn [filter isReturns List.length].
      split; [|split; [|split]].
      * exact H1.
      * now rewrite H2.
      * eapply carriedOnMain_trans; eauto.
      * intros id' [Hin|Hin]; [discriminate | now apply H4].
Qed.

Lemma query_connect_main (s : Session) :
  (forall n, fault n Connect = false) ->
  query Connect s =
    (Returns None,
     {| tables := tables s; snapshot := snapshot s; aborted := aborted s;
        issued := issued s ++ [Connect] |}).
Proof. intros H. unfold Main.query. now rewrite H. Qed.

Lemma query_begin_main (s : Session) :
  (forall n, fault n Begin = false) ->
  query Begin s =
    (Returns None,
     {| tables := tables s; snapshot := Some (tables s); aborted := false;
        issued := issued s ++ [Begin] |}).
Proof. intros H. unfold Main.query. now rewrite H. Qed.

Lemma query_commit_main (s : Session) :
  (forall n, fault n Commit = false) ->
  query Commit s =
    (Returns None,
     {| tables := if aborted s then restored s else tables s;
        snapshot := None; aborted := false;
        issued := issued s ++ [Commit] |}).
Proof. intros H. unfold Main.query. now rewrite H. Qed.

End IsolationMain.


(** ** A run on concrete data *)


Lemma null_link_inserts_twice_witness :
  apply_link dishwasher = None /\
  List.length (Database.jobs (Database.tables dishwasherTwice)) = 2%nat /\
  map Database.JobRow.id (Database.jobs (Database.tables dishwasherTwice)) = [1%Z; 2%Z].
Proof.
  split; [reflexivity|].
  destruct (null_link_inserts_twice served ticking dishwasher
              emptyStore dishwasherOnce dishwasherTwice)
    as [id1 [id2 [Hne [J1 [J2 Hlen]]]]].
  - reflexivity.
  - vm_compute. reflexivity.
  - vm_compute. reflexivity.
  - split; [exact Hlen | vm_compute; reflexivity].
Defined.

(** The copy of main.js keeps one row per (title, company): the same job
    persisted twice is one row, but a posting met under two titles is two
    rows with one link, where the store of database.js keeps one. *)
Lemma main_copy_same_job_twice :
  linksMain
    (afterMain
       (Main.insertJobsIntoDatabase servedMain isoTime
          (Some (afterMain
                   (Main.insertJobsIntoDatabase servedMain isoTime
                      (Some emptyStoreMain) [lineCook])))
          [lineCook]))
  = [Some "https://jobs.example.com/luna/1"].
Proof. vm_compute. reflexivity. Qed.

Lemma main_copy_two_titles_one_link :
  linksMain
    (afterMain
       (Main.insertJobsIntoDatabase servedMain isoTime (Some emptyStoreMain)
          [lineCook; lineCookRetitled; lineCookRetitled]))
  = [Some "https://jobs.example.com/luna/1"; Some "https://jobs.example.com/luna/1"] /\
  map Database.JobRow.apply_link
      (Database.jobs
         (Database.tables
            (after (Database.insertJobsIntoDatabase served ticking (Some emptyStore)
                      [lineCook; lineCookRetitled; lineCookRetitled]))))
  = [Some "https://jobs.example.com/luna/1"].
Proof. split; vm_compute; reflexivity. Qed.

Lemma enrichment_fallback_order_witness :
  noDomainDerived nat websiteWithoutDomain noDomain lunaJob 0%nat /\
  calls nat
    (tryCatch nat
       (enrichment nat websiteWithoutDomain noDomain noEmailsByDomain oneEmailByName
                   lunaJob) freshRun)
  = [WebsiteLookup "Luna Bistro"; DomainFromUrl "not a url";
     ByCompanyName "Luna Bistro"].
Proof.
  assert (H : noDomainDerived nat websiteWithoutDomain noDomain lunaJob 0%nat).
  { exists "not a url", 1%nat, None. repeat split; [discriminate | now left]. }
  split; [exact H|].
  destruct (enrichment_fallback_order nat websiteWithoutDomain noDomain
              noEmailsByDomain oneEmailByName lunaJob freshRun)
    as [new [Hcalls [_ [_ [_ [Hnone _]]]]]].
  destruct (Hnone H) as [_ _]. vm_compute. reflexivity.
Defined.

(** C6 as the specification words it fails, where the extraction may throw:
    the website lookup returns a URL, no domain is derived from it because
    the extraction throws, and the search by company name is not made
    once, it is not made at all. *)
Lemma throwing_extraction_has_no_fallback :
  ~ (List.length
       (filter isByCompanyName
          (calls nat
             (tryCatch nat
                (enrichment nat websiteWithoutDomain throwingDomain
                            noEmailsByDomain oneEmailByName lunaJob) freshRun)))
     = 1%nat).
Proof. vm_compute. discriminate. Qed.

(* ------------------------------------------------------------------ *)
(** * Further properties of the code *)

(** ** shouldExcludeCompany *)

Lemma tokenBounded_includes (lowerCompany brand : string) :
  tokenBounded lowerCompany brand -> JS.includes lowerCompany brand = true.
Proof.
  intros H. apply includes_iff.
  destruct H as [H | [[r H] | [[l H] | [l [r H]]]]].
  - exists EmptyString, EmptyString. now rewrite H, append_empty_r.
  - now exists EmptyString, (" " ++ r).
  - exists (l ++ " "), EmptyString. now rewrite H, append_empty_r, append_assoc.
  - exists (l ++ " "), (" " ++ r). now rewrite H, !append_assoc.
Qed.

Lemma not_sentinel (company : string) :
  JS.truthy company = true -> company <> "Unknown Company" ->
  negb (JS.truthy company) || (company =? "Unknown Company") = false.
Proof.
  intros H1 H2. rewrite H1. apply String.eqb_neq in H2. now rewrite H2.
Qed.

(** X1: the shape of every verdict. Without a reason nothing is excluded
    and nothing is matched; with a reason the company is excluded and the
    matched term is a name of the list the reason refers to that occurs in
    the lower-cased company name. An empty name and the sentinel get no
    reason. *)
Theorem verdict_is_well_formed (company : string) :
  match reason (shouldExcludeCompany company) with
  | None =>
      isExcluded (shouldExcludeCompany company) = false /\
      matched (shouldExcludeCompany company) = None
  | Some r =>
      isExcluded (shouldExcludeCompany company) = true /\
      JS.truthy company = true /\ company <> "Unknown Company" /\
      exists term,
        matched (shouldExcludeCompany company) = Some term /\
        In term (listOf r) /\
        JS.includes (JS.toLowerCase company) term = true
  end.
Proof.
  unfold shouldExcludeCompany.
  destruct (JS.truthy company) eqn:T; cbn [negb orb]; [|now split].
  destruct (company =? "Unknown Company") eqn:E; [now split|].
  apply String.eqb_neq in E.
  destruct (find _ EXCLUDED_COMPANIES) as [name|] eqn:F1;
    cbn [reason isExcluded matched notExcluded listOf].
  - apply find_some in F1 as [Hin Hinc].
    repeat split; trivial. now exists name.
  - destruct (find _ FAST_FOOD_RESTAURANTS) as [brand|] eqn:F2;
      cbn [reason isExcluded matched notExcluded listOf].
    + apply find_some in F2 as [Hin Hhit].
      repeat split; trivial. exists brand. repeat split; trivial.
      apply tokenBounded_includes. now apply fastFoodHit_iff.
    + now split.
Qed.

(** X2: the excluded-organisations list is consulted first: a company whose
    lower-cased name holds a name of that list is excluded for that reason,
    whatever the fast-food list would say, and the term reported is the
    first name of the list that occurs. *)
Theorem excluded_company_comes_first (company name : string) :
  JS.truthy company = true -> company <> "Unknown Company" ->
  In name EXCLUDED_COMPANIES ->
  JS.includes (JS.toLowerCase company) name = true ->
  exists first,
    shouldExcludeCompany company =
      {| isExcluded := true; reason := Some excluded_company;
         matched := Some first |} /\
    find (fun excluded => JS.includes (JS.toLowerCase company) excluded)
         EXCLUDED_COMPANIES = Some first.
Proof.
  intros T Hne Hin Hinc. unfold shouldExcludeCompany.
  rewrite (not_sentinel _ T Hne).
  destruct (find _ EXCLUDED_COMPANIES) as [first|] eqn:F.
  - now exists first.
  - exfalso. pose proof (find_none _ _ F name Hin) as H. cbv beta in H. congruence.
Qed.

Lemma excluded_company_comes_first_witness :
  shouldExcludeCompany "Compass Cafe at Subway" =
    {| isExcluded := true; reason := Some excluded_company;
       matched := Some "compass" |}.
Proof.
  destruct (excluded_company_comes_first "Compass Cafe at Subway" "compass")
    as [first [H F]].
  - reflexivity.
  - discriminate.
  - vm_compute. tauto.
  - vm_compute. reflexivity.
  - rewrite H. vm_compute in F. injection F as <-. reflexivity.
Defined.

(** X3: the converse of the token rule: a company that names no excluded
    organisation and whose lower-cased name holds a brand of the fast-food
    list as a token is excluded as fast food. *)
Theorem token_bounded_brand_is_excluded (company brand : string) :
  JS.truthy company = true -> company <> "Unknown Company" ->
  namesNoExcluded company ->
  In brand FAST_FOOD_RESTAURANTS ->
  tokenBounded (JS.toLowerCase company) brand ->
  exists first,
    shouldExcludeCompany company =
      {| isExcluded := true; reason := Some fast_food; matched := Some first |} /\
    In first FAST_FOOD_RESTAURANTS /\
    tokenBounded (JS.toLowerCase company) first.
Proof.
  intros T Hne Hno Hin Htok. unfold shouldExcludeCompany.
  rewrite (not_sentinel _ T Hne).
  destruct (find _ EXCLUDED_COMPANIES) as [name|] eqn:F1.
  - exfalso. apply find_some in F1 as [H1 H2]. rewrite (Hno name H1) in H2.
    discriminate.
  - destruct (find _ FAST_FOOD_RESTAURANTS) as [first|] eqn:F2.
    + exists first. apply find_some in F2 as [H1 H2].
      repeat split; trivial. now apply fastFoodHit_iff.
    + exfalso. pose proof (find_none _ _ F2 brand Hin) as H.
      apply fastFoodHit_iff in Htok. congruence.
Qed.

Lemma token_bounded_brand_is_excluded_witness :
  namesNoExcluded "Taco Bell Cantina" /\
  shouldExcludeCompany "Taco Bell Cantina" =
    {| isExcluded := true; reason := Some fast_food; matched := Some "taco bell" |}.
Proof.
  assert (Hno : namesNoExcluded "Taco Bell Cantina").
  { intros name Hin. vm_compute in Hin.
    repeat (destruct Hin as [<-|Hin]; [vm_compute; reflexivity|]). contradiction. }
  split; [exact Hno|].
  destruct (token_bounded_brand_is_excluded "Taco Bell Cantina" "taco bell")
    as [first [H _]].
  - reflexivity.
  - discriminate.
  - exact Hno.
  - vm_compute. tauto.
  - right; left. exists "cantina". reflexivity.
  - vm_compute. reflexivity.
Defined.

(** ** processJobsForDatabase *)

Lemma excluded_iff_reason (company : string) :
  isExcluded (shouldExcludeCompany company) =
  match reason (shouldExcludeCompany company) with
  | Some _ => true
  | None => false
  end.
Proof.
  unfold shouldExcludeCompany.
  destruct (negb (JS.truthy company) || (company =? "Unknown Company"));
    [reflexivity|].
  destruct (find _ EXCLUDED_COMPANIES); [reflexivity|].
  destruct (find _ FAST_FOOD_RESTAURANTS); reflexivity.
Qed.

Lemma withEnrichment_same (p : ProcessedJob) :
  withEnrichment (company_website p) (company_domain p) (emails p) p = p.
Proof. destruct p. reflexivity. Qed.

Section Processing.

Variable World : Type.
Variable getWebsiteUrlFromSearchAPI :
  string -> World -> Outcome (option string) * World.
Variable getDomainFromUrl : string -> Outcome (option string).
Variable findEmailsWithHunter :
  string -> string -> World -> Outcome (option (list Email.t)) * World.
Variable findEmailsByCompanyName :
  string -> World -> Outcome (option (list Email.t)) * World.
Variable toISOString : World -> string.

Local Abbreviation enrichment :=
  (enrichment World getWebsiteUrlFromSearchAPI getDomainFromUrl
              findEmailsWithHunter findEmailsByCompanyName).
Local Abbreviation processJob :=
  (processJob World getWebsiteUrlFromSearchAPI getDomainFromUrl
              findEmailsWithHunter findEmailsByCompanyName toISOString).
Local Abbreviation processJobsForDatabase :=
  (processJobsForDatabase World getWebsiteUrlFromSearchAPI getDomainFromUrl
     findEmailsWithHunter findEmailsByCompanyName toISOString).

(** The fallback replaces the contacts or leaves the object alone. *)
Lemma companyNameFallback_object (job : Job.t) (r : Run World) :
  exists contacts,
    processedJob World
      (snd (companyNameFallback World findEmailsByCompanyName job r)) =
    withEnrichment (company_website (processedJob World r))
                   (company_domain (processedJob World r)) contacts
                   (processedJob World r).
Proof.
  unfold companyNameFallback, bind, called, assign, ret.
  destruct (findEmailsByCompanyName (Job.company job) (net World r))
    as [[found|] w']; [destruct (hasEmails found)|]; cbn [snd processedJob].
  - exists (emailsOf found). destruct (processedJob World r). reflexivity.
  - exists (emails (processedJob World r)). now rewrite withEnrichment_same.
  - exists (emails (processedJob World r)). now rewrite withEnrichment_same.
Qed.

(** The enrichment touches the website, the domain and the contacts, and
    nothing else; what it stores is consistent. *)
Lemma enrichment_object (job : Job.t) (r : Run World) :
  notEnriched (processedJob World r) ->
  exists website domain contacts,
    processedJob World (tryCatch World (enrichment job) r) =
      withEnrichment website domain contacts (processedJob World r) /\
    enrichedConsistently
      (withEnrichment website domain contacts (processedJob World r)).
Proof.
  intros [Hw [Hd He]]. destruct r as [w0 cs p]. cbn [processedJob] in *.
  destruct p. cbn [company_website company_domain emails] in *. subst.
  assert (Plain : forall contacts p,
             enrichedConsistently (withEnrichment None None contacts p)).
  { intros. split; cbn; intros; discriminate. }
  assert (Site : forall url contacts p, JS.truthy url = true ->
             enrichedConsistently (withEnrichment (Some url) None contacts p)).
  { intros url contacts p T. split; cbn; [intros u [= <-]; exact T | discriminate]. }
  assert (Both : forall url d contacts p,
             JS.truthy url = true -> JS.truthy d = true ->
             enrichedConsistently (withEnrichment (Some url) (Some d) contacts p)).
  { intros url d contacts p T1 T2. split; cbn.
    - intros u [= <-]. exact T1.
    - intros u [= <-]. split; [exact T2 | discriminate]. }
  unfold tryCatch, GoogleJobsApi.enrichment, bind, called, assign.
  cbn [snd calls net processedJob].
  destruct (getWebsiteUrlFromSearchAPI (Job.company job) w0)
    as [[found|] w1]; cbn [snd calls net processedJob].
  2:{ exists None, None, []. split; [reflexivity | apply Plain]. }
  destruct found as [url|]; [destruct (JS.truthy url) eqn:EU|].
  2,3: match goal with
       | |- context [companyNameFallback _ _ ?j ?x] =>
           destruct (companyNameFallback_object j x) as [contacts Hc]
       end; cbn [processedJob company_website company_domain] in Hc; rewrite Hc;
       exists None, None, contacts; (split; [reflexivity | apply Plain]).
  cbn [snd calls net processedJob].
  destruct (getDomainFromUrl url) as [derived|]; cbn [snd calls net processedJob].
  2:{ exists (Some url), None, []. split; [reflexivity | now apply Site]. }
  destruct derived as [d|]; [destruct (JS.truthy d) eqn:ED|].
  2,3: match goal with
       | |- context [companyNameFallback _ _ ?j ?x] =>
           destruct (companyNameFallback_object j x) as [contacts Hc]
       end; cbn [processedJob company_website company_domain set_company_website]
              in Hc; rewrite Hc;
       exists (Some url), None, contacts; (split; [reflexivity | now apply Site]).
  cbn [snd calls net processedJob].
  destruct (findEmailsWithHunter d (Job.company job) w1) as [[found|] w2];
    cbn [snd calls net processedJob].
  2:{ exists (Some url), (Some d), []. split; [reflexivity | now apply Both]. }
  destruct (hasEmails found); cbn [snd calls net processedJob].
  - exists (Some url), (Some d), (emailsOf found).
    split; [reflexivity | now apply Both].
  - match goal with
    | |- context [companyNameFallback _ _ ?j ?x] =>
        destruct (companyNameFallback_object j x) as [contacts Hc]
    end.
    cbn [processedJob company_website company_domain set_company_website
           set_company_domain] in Hc. rewrite Hc.
    exists (Some url), (Some d), contacts.
    split; [reflexivity | now apply Both].
Qed.

Lemma enrichment_more_calls (job : Job.t) (r : Run World) :
  exists more,
    calls World (tryCatch World (enrichment job) r) = (calls World r ++ more)%list.
Proof.
  assert (Fb : forall x l,
             calls World x = (calls World r ++ l)%list ->
             exists more,
               calls World
                 (snd (companyNameFallback World findEmailsByCompanyName job x))
               = (calls World r ++ more)%list).
  { intros x l H. rewrite companyNameFallback_calls, H, <- app_assoc. eauto. }
  unfold tryCatch, GoogleJobsApi.enrichment, bind, called, assign.
  destruct (getWebsiteUrlFromSearchAPI (Job.company job) (net World r))
    as [[found|] w1]; cbn [snd calls net processedJob]; [|eauto].
  destruct found as [url|]; [destruct (JS.truthy url)|];
    try (eapply Fb; reflexivity).
  cbn [snd calls net processedJob].
  destruct (getDomainFromUrl url) as [derived|]; cbn [snd calls net processedJob].
  2:{ rewrite <- app_assoc. eauto. }
  destruct derived as [d|]; [destruct (JS.truthy d)|];
    try (eapply Fb; cbn [calls]; rewrite <- app_assoc; reflexivity).
  cbn [snd calls net processedJob].
  destruct (findEmailsWithHunter d (Job.company job) w1) as [[found|] w2];
    cbn [snd calls net processedJob].
  2:{ rewrite <- !app_assoc. eauto. }
  destruct (hasEmails found); cbn [snd calls net processedJob].
  - rewrite <- !app_assoc. eauto.
  - eapply Fb. cbn [calls]. rewrite <- !app_assoc. reflexivity.
Qed.

(** What one round of the loop does to its state. *)
Lemma processJob_step (includeHunterData : bool) (st : Processing World)
      (job : Job.t) :
  let st' := processJob includeHunterData st job in
  exists new more,
    processedJobs World st' = (processedJobs World st ++ new)%list /\
    Forall2 describes (filter kept [job]) new /\
    Forall enrichedConsistently new /\
    lookups World st' = (lookups World st ++ more)%list /\
    (includeHunterData = false ->
     Forall notEnriched new /\ more = [] /\
     GoogleJobsApi.after World st' = GoogleJobsApi.after World st) /\
    excludedCount World st' =
      (excludedCount World st +
       List.length (filter (fun job => negb (kept job)) [job]))%nat /\
    excludedByCompany World st' =
      (excludedByCompany World st +
       List.length (filter (excludedFor excluded_company) [job]))%nat /\
    excludedByFastFood World st' =
      (excludedByFastFood World st +
       List.length (filter (excludedFor fast_food) [job]))%nat.
Proof.
  cbv zeta. unfold GoogleJobsApi.processJob. cbn [filter].
  unfold kept, excludedFor. rewrite excluded_iff_reason.
  destruct (reason (shouldExcludeCompany (Job.company job))) as [[|]|] eqn:R;
    cbn [negb sameReason List.length processedJobs excludedCount
           excludedByCompany excludedByFastFood lookups GoogleJobsApi.after].
  - exists [], []. rewrite !app_nil_r.
    repeat split; auto; lia.
  - exists [], []. rewrite !app_nil_r.
    repeat split; auto; lia.
  - match goal with
    | |- context [if includeHunterData then tryCatch World ?m ?r0 else _] =>
        set (r := r0);
        destruct (enrichment_object job r) as [w [d [e [Ho Hc]]]];
          [repeat split|];
        destruct (enrichment_more_calls job r) as [mine Hm]
    end.
    destruct includeHunterData.
    + exists [processedJob World (tryCatch World (enrichment job) r)], mine.
      split; [reflexivity|].
      split; [constructor; [|constructor];
              rewrite Ho; subst r; cbn; repeat split|].
      split; [constructor; [rewrite Ho; exact Hc | constructor]|].
      split; [rewrite Hm; subst r; reflexivity|].
      split; [discriminate|]. repeat split; lia.
    + exists [processedJob World r], [].
      split; [reflexivity|].
      split; [constructor; [|constructor]; subst r; cbn; repeat split|].
      split; [constructor; [|constructor];
              subst r; split; cbn; intros; discriminate|].
      split; [subst r; cbn [calls]; now rewrite app_nil_r|].
      split; [|repeat split; lia].
      intros _. split; [constructor; [subst r; repeat split | constructor]|].
      split; reflexivity.
Qed.

(** What the loop over the jobs does to its state. *)
Lemma processJob_fold (includeHunterData : bool) :
  forall (batch : list Job.t) (st : Processing World),
    let st' := fold_left (processJob includeHunterData) batch st in
    exists new more,
      processedJobs World st' = (processedJobs World st ++ new)%list /\
      Forall2 describes (filter kept batch) new /\
      Forall enrichedConsistently new /\
      lookups World st' = (lookups World st ++ more)%list /\
      (includeHunterData = false ->
       Forall notEnriched new /\ more = [] /\
       GoogleJobsApi.after World st' = GoogleJobsApi.after World st) /\
      excludedCount World st' =
        (excludedCount World st +
         List.length (filter (fun job => negb (kept job)) batch))%nat /\
      excludedByCompany World st' =
        (excludedByCompany World st +
         List.length (filter (excludedFor excluded_company) batch))%nat /\
      excludedByFastFood World st' =
        (excludedByFastFood World st +
         List.length (filter (excludedFor fast_food) batch))%nat.
Proof.
  intros batch. induction batch as [|job rest IH]; intros st; cbv zeta.
  - exists [], []. cbn. rewrite !app_nil_r, !Nat.add_0_r.
    repeat split; auto.
  - cbn [fold_left].
    destruct (processJob_step includeHunterData st job)
      as [new1 [more1 [A1 [A2 [A3 [A4 [A5 [A6 [A7 A8]]]]]]]]].
    destruct (IH (processJob includeHunterData st job))
      as [new2 [more2 [B1 [B2 [B3 [B4 [B5 [B6 [B7 B8]]]]]]]]].
    cbv zeta in *.
    assert (Cut : forall f : Job.t -> bool,
               filter f (job :: rest) = (filter f [job] ++ filter f rest)%list).
    { intros f. cbn. destruct (f job); reflexivity. }
    exists (new1 ++ new2)%list, (more1 ++ more2)%list.
    rewrite !Cut, !length_app.
    split; [rewrite B1, A1, <- app_assoc; reflexivity|].
    split; [now apply Forall2_app|].
    split; [apply Forall_app; now split|].
    split; [rewrite B4, A4, <- app_assoc; reflexivity|].
    split.
    { intros Hb. destruct (A5 Hb) as [X1 [X2 X3]].
      destruct (B5 Hb) as [Y1 [Y2 Y3]]. subst more1 more2.
      split; [apply Forall_app; now split|]. split; [reflexivity | congruence]. }
    split; [lia|]. split; lia.
Qed.

(** X4: the accounts of the loop. Every job is either processed or counted
    as excluded, each exclusion under one of the two reasons, and the
    processed jobs are the jobs that pass the exclusion check, in their
    order, each with the fields of its job and of the extraction. *)
Theorem processing_accounts (batch : list Job.t) (includeHunterData : bool)
        (w : World) :
  let result := processJobsForDatabase batch includeHunterData w in
  (List.length (processedJobs World result) + excludedCount World result
     = List.length batch)%nat /\
  (excludedCount World result
     = excludedByCompany World result + excludedByFastFood World result)%nat /\
  excludedByCompany World result
    = List.length (filter (excludedFor excluded_company) batch) /\
  excludedByFastFood World result
    = List.length (filter (excludedFor fast_food) batch) /\
  Forall2 describes (filter kept batch) (processedJobs World result).
Proof.
  cbv zeta. unfold GoogleJobsApi.processJobsForDatabase.
  match goal with
  | |- context [fold_left _ batch ?s] =>
      destruct (processJob_fold includeHunterData batch s)
        as [new [more [H1 [H2 [_ [_ [_ [H6 [H7 H8]]]]]]]]]
  end.
  cbv zeta in *. cbn [processedJobs excludedCount excludedByCompany
                        excludedByFastFood app Nat.add] in *.
  rewrite H1, H6, H7, H8.
  assert (L : List.length new = List.length (filter kept batch)).
  { symmetry. eapply Forall2_length; eauto. }
  rewrite L.
  split; [|split; [|split; [reflexivity|split; [reflexivity|assumption]]]];
    clear.
  - induction batch as [|job rest IH]; cbn; [reflexivity|].
    destruct (kept job); cbn; lia.
  - assert (Pt : forall job,
               negb (kept job) =
                 excludedFor excluded_company job || excludedFor fast_food job /\
               excludedFor excluded_company job && excludedFor fast_food job
                 = false).
    { intros job. unfold kept, excludedFor. rewrite excluded_iff_reason.
      destruct (reason (shouldExcludeCompany (Job.company job))) as [[|]|];
        split; reflexivity. }
    induction batch as [|job rest IH]; cbn; [reflexivity|].
    destruct (Pt job) as [P1 P2].
    destruct (kept job), (excludedFor excluded_company job),
      (excludedFor fast_food job); cbn in *; try discriminate; lia.
Qed.

(** X5: without enrichment no lookup is called, the network is left as it
    was, and every processed job has no website, no domain and no
    contact. *)
Theorem no_enrichment_no_lookup (batch : list Job.t) (w : World) :
  let result := processJobsForDatabase batch false w in
  lookups World result = [] /\ GoogleJobsApi.after World result = w /\
  Forall notEnriched (processedJobs World result).
Proof.
  cbv zeta. unfold GoogleJobsApi.processJobsForDatabase.
  match goal with
  | |- context [fold_left _ batch ?s] =>
      destruct (processJob_fold false batch s)
        as [new [more [H1 [_ [_ [H4 [H5 _]]]]]]]
  end.
  cbv zeta in *. destruct (H5 eq_refl) as [A [B C]].
  cbn [processedJobs lookups GoogleJobsApi.after app] in *.
  rewrite H1, H4, C, B. repeat split. exact A.
Qed.


End Processing.

(** ** searchJobs and searchAllJobs *)

Lemma processedJobs_map_wellFormed (raw : RawResult.t) :
  wellFormedJob (processedJobs_map raw).
Proof.
  unfold wellFormedJob. rewrite company_in_order.
  cbn [processedJobs_map Job.title Job.location
    Job.description Job.posted_at Job.schedule Job.apply_link].
  repeat split; try (apply truthy_iff; now apply orDefault_truthy).
  - apply truthy_iff, companyInOrder_truthy.
  - intros link. destruct (RawResult.apply_link raw) as [[|c l]|]; cbn;
      try discriminate. intros [= <-]. discriminate.
Qed.

Section SearchFacts.

Variable World : Type.
Variable apiKey : option string.
Variable fetch : Request -> World -> Response * World.

Local Abbreviation searchJobs := (searchJobs World apiKey fetch).
Local Abbreviation pageLoop := (pageLoop World apiKey fetch).
Local Abbreviation searchAllJobs := (searchAllJobs World apiKey fetch).
Local Abbreviation pages := (pages World).
Local Abbreviation allJobs := (allJobs World).
Local Abbreviation currentPage := (currentPage World).
Local Abbreviation loopToken := (loopToken World).

(** X7: the result of one call, whatever the provider does. It reports more
    pages exactly when it carries a token, a token it carries is not empty,
    a result without jobs is the empty result (no token, no more pages), and
    its jobs are well formed. Without an API key no request is made. *)
Theorem searchJobs_result_shape (query location : string)
        (token : option string) (w : World) :
  let page := fst (searchJobs query location token w) in
  let result := page_result page in
  hasMore result = JS.truthyO (nextPageToken result) /\
  (forall t, nextPageToken result = Some t -> t <> EmptyString) /\
  (jobs result = [] -> result = noJobs) /\
  Forall wellFormedJob (jobs result) /\
  (JS.truthyO apiKey = false ->
   page_response page = None /\ result = noJobs /\
   snd (searchJobs query location token w) = w).
Proof.
  cbv zeta. unfold GoogleJobsApi.searchJobs.
  destruct (JS.truthyO apiKey) eqn:K; cbn [negb fst snd page_result page_response].
  2:{ repeat split; auto; discriminate. }
  destruct (fetch _ w) as [response w'].
  destruct response as [|ok data];
    [cbn; repeat split; auto; discriminate|].
  destruct ok; cbn [negb]; [|cbn; repeat split; auto; discriminate].
  destruct (data_jobs data) as [[|r raw]|];
    try (cbn; repeat split; auto; discriminate).
  cbn [fst page_result hasMore nextPageToken jobs].
  split; [destruct (data_next_page_token data) as [[|c t]|]; reflexivity|].
  split; [intros t; destruct (data_next_page_token data) as [[|c t']|]; cbn;
          try discriminate; intros [= <-]; discriminate|].
  split; [discriminate|]. split; [|discriminate].
  apply Forall_forall. intros j Hj. apply in_map_iff in Hj as [x [<- _]].
  apply processedJobs_map_wellFormed.
Qed.

(** X8: without an API key the search of all pages makes one call, which
    sends nothing, and returns no job. *)
Theorem search_without_key (query location : string) (maxPages : Z) (w : World) :
  JS.truthyO apiKey = false ->
  exists st,
    searchAllJobs query location maxPages w = Some st /\
    allJobs st = [] /\ currentPage st = 1%Z /\ world World st = w /\
    pages st = [ {| page_token := None; page_response := None;
                    page_result := noJobs |} ].
Proof.
  intros K. unfold GoogleJobsApi.searchAllJobs. cbn [GoogleJobsApi.pageLoop].
  unfold GoogleJobsApi.searchJobs. rewrite K. cbn.
  eexists. split; [reflexivity|]. cbn. repeat split.
Qed.

(** The loop against a provider that always has more. *)
Lemma pageLoop_to_the_bound (query location : string) (maxPages : Z) :
  JS.truthyO apiKey = true -> alwaysMore fetch ->
  forall (fuel : nat) (st : PageLoop World),
    (currentPage st < maxPages)%Z ->
    (maxPages - currentPage st <= Z.of_nat fuel)%Z ->
    exists st',
      pageLoop query location maxPages fuel st = Some st' /\
      currentPage st' = maxPages /\
      Z.of_nat (List.length (pages st')) =
        (Z.of_nat (List.length (pages st)) + (maxPages - currentPage st))%Z.
Proof.
  intros K Hmore. induction fuel as [|fuel IH]; intros st Hlt Hfuel; [lia|].
  cbn [GoogleJobsApi.pageLoop]. unfold GoogleJobsApi.searchJobs. rewrite K.
  cbn [negb].
  match goal with
  | |- context [fetch ?r ?x] =>
      destruct (Hmore r x) as [raw [token [w' [Hf [Hraw Htok]]]]]; rewrite Hf
  end.
  cbn [negb data_jobs data_next_page_token].
  destruct raw as [|r0 raw]; [contradiction|].
  cbn [page_result jobs nextPageToken JS.truthyO map List.length Nat.eqb].
  rewrite Htok. cbn [andb].
  destruct (currentPage st + 1 <? maxPages)%Z eqn:E;
    cbn [JS.truthyO]; rewrite ?Htok; cbn [andb].
  - apply Z.ltb_lt in E.
    match goal with
    | |- context [pageLoop _ _ _ fuel ?s] => destruct (IH s) as [st' [H1 [H2 H3]]]
    end; cbn [GoogleJobsApi.currentPage]; try lia.
    exists st'. split; [exact H1|]. split; [exact H2|].
    rewrite H3. cbn [GoogleJobsApi.pages GoogleJobsApi.currentPage].
    rewrite length_app. cbn [List.length]. lia.
  - apply Z.ltb_ge in E. eexists. split; [reflexivity|].
    cbn [GoogleJobsApi.pages GoogleJobsApi.currentPage].
    rewrite length_app. cbn [List.length]. split; lia.
Qed.

(** X9: against a provider that always answers with jobs and a token the
    bound is what stops the loop: exactly [maxPages] pages are fetched. *)
Theorem bound_is_reached (query location : string) (maxPages : Z) (w : World) :
  JS.truthyO apiKey = true -> alwaysMore fetch -> (1 <= maxPages)%Z ->
  exists st,
    searchAllJobs query location maxPages w = Some st /\
    currentPage st = maxPages /\
    Z.of_nat (List.length (pages st)) = maxPages.
Proof.
  intros K Hmore Hmax. unfold GoogleJobsApi.searchAllJobs.
  match goal with
  | |- context [pageLoop _ _ _ ?f ?s] =>
      destruct (pageLoop_to_the_bound query location maxPages K Hmore f s)
        as [st [H1 [H2 H3]]]
  end; cbn [GoogleJobsApi.currentPage]; try lia.
  exists st. split; [exact H1|]. split; [exact H2|].
  rewrite H3. cbn. lia.
Qed.

Lemma allJobs_wellFormed (query location : string) (maxPages : Z) (w : World)
      (st : PageLoop World) :
  searchAllJobs query location maxPages w = Some st ->
  Forall wellFormedJob (allJobs st).
Proof.
  unfold GoogleJobsApi.searchAllJobs.
  destruct (pageLoop_runs World apiKey fetch query location maxPages
              (S (Z.to_nat maxPages))
              {| GoogleJobsApi.allJobs := []; GoogleJobsApi.loopToken := None;
                 GoogleJobsApi.currentPage := 0; GoogleJobsApi.pages := [];
                 GoogleJobsApi.world := w |})
    as [st' [more [last H]]]; [lia | cbn; lia |].
  destruct H as [Hrun [_ [_ [Hf [_ [_ [_ Hall]]]]]]].
  rewrite Hrun. intros [= <-]. cbn [GoogleJobsApi.allJobs app] in Hall.
  rewrite Hall. apply Forall_forall. intros j Hj.
  apply in_concat in Hj as [l [Hl Hj]]. apply in_map_iff in Hl as [p [<- Hp]].
  rewrite Forall_forall in Hf.
  destruct (Hf p Hp) as [Hno | [data [raw [_ [_ [_ [Hj' _]]]]]]].
  - unfold jobsOf in Hj. rewrite Hno in Hj. contradiction.
  - unfold jobsOf in Hj. rewrite Hj' in Hj. apply in_map_iff in Hj as [x [<- _]].
    apply processedJobs_map_wellFormed.
Qed.

(** X10: whatever the provider sends, the search of all pages returns, and
    every job it returns is well formed: no empty title, company, location,
    description, posting date or schedule, and no empty link. *)
Theorem search_returns_well_formed_jobs (query location : string)
        (maxPages : Z) (w : World) :
  exists st,
    searchAllJobs query location maxPages w = Some st /\
    Forall wellFormedJob (allJobs st).
Proof.
  destruct (searchAllJobs query location maxPages w) as [st|] eqn:E.
  - exists st. split; [reflexivity|]. exact (allJobs_wellFormed _ _ _ _ _ E).
  - exfalso. unfold GoogleJobsApi.searchAllJobs in E.
    destruct (pageLoop_runs World apiKey fetch query location maxPages
                (S (Z.to_nat maxPages))
                {| GoogleJobsApi.allJobs := []; GoogleJobsApi.loopToken := None;
                   GoogleJobsApi.currentPage := 0; GoogleJobsApi.pages := [];
                   GoogleJobsApi.world := w |})
      as [st' [more [last [Hrun _]]]]; [lia | cbn; lia |]. congruence.
Qed.

End SearchFacts.

Lemma search_without_key_witness :
  exists st,
    searchAllJobs nat None alwaysEmpty "restaurant chef" EmptyString 5 7%nat = Some st /\
    allJobs nat st = [] /\ world nat st = 7%nat.
Proof.
  destruct (search_without_key nat None alwaysEmpty "restaurant chef" EmptyString
              5 7%nat eq_refl) as [st [H1 [H2 [_ [H4 _]]]]].
  exists st. repeat split; assumption.
Defined.

Lemma endless_alwaysMore : alwaysMore endless.
Proof.
  intros request w. exists [subwayJob], "next", (S w). repeat split. discriminate.
Qed.

Lemma bound_is_reached_witness :
  alwaysMore endless /\
  exists st,
    searchAllJobs nat (Some "key") endless "restaurant chef" EmptyString 3 0%nat
      = Some st /\
    List.length (pages nat st) = 3%nat /\ world nat st = 3%nat.
Proof.
  split; [exact endless_alwaysMore|].
  destruct (bound_is_reached nat (Some "key") endless "restaurant chef" EmptyString
              3 0%nat eq_refl endless_alwaysMore) as [st [H1 [H2 H3]]]; [lia|].
  exists st. split; [exact H1|]. split; [lia|].
  vm_compute in H1. injection H1 as <-. reflexivity.
Defined.

(** ** extractSkills *)

Lemma arrayIncludes_iff (l : list string) (x : string) :
  arrayIncludes l x = true <-> In x l.
Proof.
  unfold arrayIncludes. rewrite existsb_exists. split.
  - intros [y [Hy E]]. apply String.eqb_eq in E. now subst.
  - intros H. exists x. split; [exact H | apply String.eqb_refl].
Qed.

(** A loop that only adds to a list: what it adds is what its steps add. *)
Lemma fold_left_collect {A : Type} (step : list string -> A -> list string)
      (P : A -> string -> Prop) :
  (forall s a x, In x (step s a) <-> In x s \/ P a x) ->
  (forall s a, NoDup s -> NoDup (step s a)) ->
  forall l s,
    (forall x, In x (fold_left step l s) <-> In x s \/ exists a, In a l /\ P a x) /\
    (NoDup s -> NoDup (fold_left step l s)).
Proof.
  intros Hin Hnd l. induction l as [|a l IH]; intros s; cbn [fold_left].
  - split; [|auto]. intros x. split; [auto|]. intros [H|[a [[] _]]]; exact H.
  - destruct (IH (step s a)) as [I1 I2]. split.
    + intros x. rewrite I1, Hin. split.
      * intros [[H|H]|[b [Hb H]]].
        -- now left.
        -- right. exists a. split; [now left | exact H].
        -- right. exists b. split; [now right | exact H].
      * intros [H|[b [[<-|Hb] H]]].
        -- left. now left.
        -- left. now right.
        -- right. exists b. now split.
    + intros H. apply I2, Hnd, H.
Qed.

Lemma commonCulinarySkills_NoDup : NoDup commonCulinarySkills.
Proof.
  unfold commonCulinarySkills.
  repeat (apply NoDup_cons; [cbn; intuition discriminate|]). apply NoDup_nil.
Qed.

(** What [extractSkills] collects, in terms of the model's lower-casing. *)
Lemma skills_collected (job : Job.t) :
  NoDup (extractSkills job) /\
  forall skill, In skill (extractSkills job) <-> skillWanted job skill.
Proof.
  assert (Inner : forall item l s,
    (forall x,
       In x (fold_left
               (fun skills skill =>
                  if JS.includes (JS.toLowerCase item) (JS.toLowerCase skill) &&
                     negb (arrayIncludes skills skill)
                  then (skills ++ [skill])%list else skills) l s)
       <-> In x s \/
           exists skill, In skill l /\ skill = x /\ mentionsSkill item skill = true) /\
    (NoDup s ->
     NoDup (fold_left
              (fun skills skill =>
                 if JS.includes (JS.toLowerCase item) (JS.toLowerCase skill) &&
                    negb (arrayIncludes skills skill)
                 then (skills ++ [skill])%list else skills) l s))).
  { intros item.
    apply (fold_left_collect _
             (fun skill x => skill = x /\ mentionsSkill item skill = true)).
    - intros s skill x. unfold mentionsSkill.
      destruct (JS.includes _ _); cbn [andb]; [|intuition discriminate].
      destruct (arrayIncludes s skill) eqn:A; cbn [negb].
      + apply arrayIncludes_iff in A. split; [auto|].
        intros [H|[<- _]]; assumption.
      + rewrite in_app_iff. cbn [In]. intuition.
    - intros s skill H.
      destruct (JS.includes _ _); cbn [andb]; [|exact H].
      destruct (arrayIncludes s skill) eqn:A; cbn [negb]; [exact H|].
      apply NoDup_app; [exact H | repeat constructor; intros [] |].
      intros a Ha [<-|[]]. apply arrayIncludes_iff in Ha. congruence. }
  assert (Items : forall items s,
    (forall x,
       In x (fold_left
               (fun skills item =>
                  fold_left
                    (fun skills skill =>
                       if JS.includes (JS.toLowerCase item) (JS.toLowerCase skill) &&
                          negb (arrayIncludes skills skill)
                       then (skills ++ [skill])%list else skills)
                    commonCulinarySkills skills) items s)
       <-> In x s \/
           exists item, In item items /\
                        In x commonCulinarySkills /\ mentionsSkill item x = true) /\
    (NoDup s ->
     NoDup (fold_left
              (fun skills item =>
                 fold_left
                   (fun skills skill =>
                      if JS.includes (JS.toLowerCase item) (JS.toLowerCase skill) &&
                         negb (arrayIncludes skills skill)
                      then (skills ++ [skill])%list else skills)
                   commonCulinarySkills skills) items s))).
  { apply (fold_left_collect _
             (fun item x => In x commonCulinarySkills /\ mentionsSkill item x = true)).
    - intros s item x. rewrite (proj1 (Inner item commonCulinarySkills s)).
      split; (intros [H|H]; [now left | right]).
      + destruct H as [skill [H1 [<- H3]]]. now split.
      + destruct H as [H1 H2]. now exists x.
    - intros s item. apply Inner. }
  unfold extractSkills.
  match goal with
  | |- context [fold_left ?step (Job.highlights job) ?s0] =>
      unshelve epose proof
        (fold_left_collect step
           (fun highlight x =>
              (Highlight.title highlight =? "Qualifications") = true /\
              exists item, In item (Highlight.items highlight) /\
                           In x commonCulinarySkills /\
                           mentionsSkill item x = true)
           _ _ (Job.highlights job) s0) as [In1 Nd1]
  end.
  - intros s h x. cbv beta.
    destruct (Highlight.title h =? "Qualifications"); cbn [andb].
    + destruct (Highlight.items h) as [|item items] eqn:E;
        cbn [List.length Nat.eqb negb].
      * split; [auto|]. intros [H|[_ [item [[] _]]]]. exact H.
      * rewrite (proj1 (Items (item :: items) s)). intuition.
    + intuition discriminate.
  - intros s h H. cbv beta.
    destruct (Highlight.title h =? "Qualifications"); cbn [andb]; [|exact H].
    destruct (negb _); [|exact H]. now apply Items.
  - split.
    + apply Nd1. destruct (JS.truthy (Job.description job)); [|constructor].
      apply NoDup_filter, commonCulinarySkills_NoDup.
    + intros skill. rewrite In1. unfold skillWanted, itemsTitled. split.
      * intros [H|[h [Hh [T [item [H1 [H2 H3]]]]]]].
        -- destruct (JS.truthy (Job.description job)); [|contradiction].
           apply filter_In in H as [H1 H2]. split; [exact H1|]. left. now split.
        -- split; [exact H2|]. right. exists item. split; [|exact H3].
           apply in_flat_map. exists h. split; [exact Hh|]. now rewrite T.
      * intros [HV [[T H]|[item [Hi H]]]].
        -- left. rewrite T. apply filter_In. now split.
        -- right. apply in_flat_map in Hi as [h [Hh Hi]].
           destruct (Highlight.title h =? "Qualifications") eqn:T; [|contradiction].
           exists h. split; [exact Hh|]. split; [exact T|]. now exists item.
Qed.

Lemma allChars_app (f : ascii -> bool) (a b : string) :
  allChars f (a ++ b) = allChars f a && allChars f b.
Proof.
  induction a as [|c a IH]; cbn [append allChars]; [reflexivity|].
  now rewrite IH, andb_assoc.
Qed.

Lemma lowerChar_ascii (c : ascii) : isAscii (JS.lowerChar c) = isAscii c.
Proof. destruct c as [[] [] [] [] [] [] [] []]; reflexivity. Qed.

Lemma toLowerCase_ascii (s : string) :
  allChars isAscii (JS.toLowerCase s) = allChars isAscii s.
Proof.
  induction s as [|c s IH]; cbn [JS.toLowerCase allChars]; [reflexivity|].
  now rewrite lowerChar_ascii, IH.
Qed.

(** What an ASCII text mentions is ASCII. *)
Lemma mentionsSkill_ascii (text skill : string) :
  allChars isAscii text = true -> mentionsSkill text skill = true ->
  allChars isAscii skill = true.
Proof.
  unfold mentionsSkill. intros A H. apply includes_iff in H as [a [b H]].
  rewrite <- toLowerCase_ascii in A. rewrite H, !allChars_app in A.
  apply andb_true_iff in A as [_ A]. apply andb_true_iff in A as [A _].
  now rewrite toLowerCase_ascii in A.
Qed.

(** X11: for a job whose description and Qualifications items are ASCII
    text, where the lower-casing of the model is that of the code: the
    skills extracted are exactly the skills of the vocabulary that the
    description, or an item of a block titled Qualifications, mentions
    (both lower-cased); no skill is listed twice; and every skill extracted
    is ASCII itself, so the one entry of the vocabulary that is not is never
    extracted from such a job. *)
Theorem skills_are_the_mentioned (job : Job.t) :
  asciiTexts job ->
  NoDup (extractSkills job) /\
  (forall skill, In skill (extractSkills job) <-> skillWanted job skill) /\
  (forall skill, In skill (extractSkills job) -> allChars isAscii skill = true).
Proof.
  intros [Ad Ai]. destruct (skills_collected job) as [Nd Hin].
  split; [exact Nd|]. split; [exact Hin|].
  intros skill H. apply Hin in H as [_ [[_ H]|[item [Hi H]]]].
  - exact (mentionsSkill_ascii _ _ Ad H).
  - exact (mentionsSkill_ascii _ _ (Ai item Hi) H).
Qed.

Lemma skills_are_the_mentioned_witness :
  asciiTexts grillCook /\
  NoDup (extractSkills grillCook) /\
  extractSkills grillCook = ["baking"; "grilling"; "knife skills"; "food safety"].
Proof.
  assert (H : asciiTexts grillCook).
  { split; [reflexivity|]. intros item [<-|[<-|[]]]; reflexivity. }
  split; [exact H|].
  split; [exact (proj1 (skills_are_the_mentioned grillCook H))|].
  vm_compute. reflexivity.
Defined.

(** ** extractSalaryInfo *)

Lemma dropWhile_stops (f : ascii -> bool) (s : string) :
  match JS.dropWhile f s with
  | EmptyString => True
  | String c _ => f c = false
  end.
Proof.
  induction s as [|c s IH]; cbn; [exact I|].
  destruct (f c) eqn:E; [exact IH | cbn; exact E].
Qed.

Lemma amountHere_sound (s g r : string) :
  amountHere s = Some (g, r) ->
  s = String "$" (g ++ r) /\ g <> EmptyString /\
  allChars amountChar g = true /\ amountEnds r = true.
Proof.
  unfold amountHere. destruct s as [|c s]; [discriminate|].
  destruct c as [[|] [|] [|] [|] [|] [|] [|] [|]]; try discriminate.
  destruct (JS.truthy (JS.takeWhile amountChar s)) eqn:T; [|discriminate].
  intros [= <- <-]. destruct (dropWhile_split amountChar s) as [H1 H2].
  split; [now rewrite <- H1|]. split; [now apply truthy_iff|].
  split; [exact H2|]. unfold amountEnds.
  pose proof (dropWhile_stops amountChar s) as H.
  destruct (JS.dropWhile amountChar s); [reflexivity | now rewrite H].
Qed.

Lemma rangeHere_group (s g r : string) :
  rangeHere s = Some (g, r) ->
  g <> EmptyString /\ allChars amountChar g = true.
Proof.
  unfold rangeHere. destruct (JS.dropWhile JS.isSpace s) as [|c r0]; [discriminate|].
  destruct c as [[|] [|] [|] [|] [|] [|] [|] [|]]; try discriminate.
  intros H. apply amountHere_sound in H. tauto.
Qed.

Lemma take_startsWithCI (word s : string) :
  JS.startsWithCI s word = true ->
  JS.toLowerCase (take (String.length word) s) = JS.toLowerCase word.
Proof.
  unfold JS.startsWithCI. revert s.
  induction word as [|c word IH]; intros s H; [reflexivity|].
  destruct s as [|d s]; simpl in H; [discriminate|].
  destruct (ascii_dec (JS.lowerChar c) (JS.lowerChar d)) as [Heq|]; [|discriminate].
  simpl. now rewrite (IH s H), Heq.
Qed.

Lemma unitHere_sound (s g : string) :
  unitHere s = Some g -> In (JS.toLowerCase g) (map fst periodOf).
Proof.
  unfold unitHere. set (s' := JS.dropWhile JS.isSpace s).
  destruct (JS.startsWithCI s' "hour") eqn:E1;
    [intros H;
     replace g with (take (String.length "hour") s')
       by (cbn [String.length]; congruence);
     rewrite (take_startsWithCI "hour" s' E1); cbn; tauto|].
  destruct (JS.startsWithCI s' "year") eqn:E2;
    [intros H;
     replace g with (take (String.length "year") s')
       by (cbn [String.length]; congruence);
     rewrite (take_startsWithCI "year" s' E2); cbn; tauto|].
  destruct (JS.startsWithCI s' "month") eqn:E3;
    [intros H;
     replace g with (take (String.length "month") s')
       by (cbn [String.length]; congruence);
     rewrite (take_startsWithCI "month" s' E3); cbn; tauto|].
  destruct (JS.startsWithCI s' "week") eqn:E4;
    [intros H;
     replace g with (take (String.length "week") s')
       by (cbn [String.length]; congruence);
     rewrite (take_startsWithCI "week" s' E4); cbn; tauto|].
  destruct (JS.startsWithCI s' "day") eqn:E5;
    [intros H;
     replace g with (take (String.length "day") s')
       by (cbn [String.length]; congruence);
     rewrite (take_startsWithCI "day" s' E5); cbn; tauto|].
  discriminate.
Qed.

Lemma periodHere_sound (s g : string) :
  periodHere s = Some g -> In (JS.toLowerCase g) (map fst periodOf).
Proof.
  unfold periodHere, orElse. cbv zeta.
  set (s' := JS.dropWhile JS.isSpace s).
  destruct (JS.startsWithCI s' "per");
    [destruct (unitHere (JS.drop _ s')) eqn:U1;
       [intros [= <-]; exact (unitHere_sound _ _ U1)|]|].
  all: destruct (JS.startsWithCI s' "a");
    [destruct (unitHere (JS.drop (String.length "a") s')) eqn:U2;
       [intros [= <-]; exact (unitHere_sound _ _ U2)|]|].
  all: destruct (JS.startsWithCI s' "/"); try discriminate.
  all: intros H; exact (unitHere_sound _ _ H).
Qed.

Lemma salaryMatchHere_groups (rest : string) (m : SalaryMatch) :
  salaryMatchHere rest = Some m ->
  (exists r, rest = String "$" (group1 m ++ r) /\ amountEnds r = true) /\
  group1 m <> EmptyString /\ allChars amountChar (group1 m) = true /\
  (forall g, group2 m = Some g ->
             g <> EmptyString /\ allChars amountChar g = true) /\
  (forall g, group4 m = Some g -> In (JS.toLowerCase g) (map fst periodOf)).
Proof.
  unfold salaryMatchHere.
  destruct (amountHere rest) as [[g1 r1]|] eqn:A; [|discriminate].
  apply amountHere_sound in A as [A1 [A2 [A3 A4]]].
  destruct (rangeHere r1) as [[g2 r2]|] eqn:R; intros [= <-];
    cbn [group1 group2 group4].
  - split; [now exists r1|]. split; [exact A2|]. split; [exact A3|].
    split; [intros g [= <-]; exact (rangeHere_group _ _ _ R)|].
    intros g. apply periodHere_sound.
  - split; [now exists r1|]. split; [exact A2|]. split; [exact A3|].
    split; [discriminate|]. intros g. apply periodHere_sound.
Qed.

Lemma salaryMatch_eq (text : string) :
  salaryMatch text =
    match salaryMatchHere text with
    | Some m => Some m
    | None =>
        match text with
        | EmptyString => None
        | String _ rest => salaryMatch rest
        end
    end.
Proof. destruct text; reflexivity. Qed.

(** The match is the leftmost one. *)
Lemma salaryMatch_here (text : string) (m : SalaryMatch) :
  salaryMatch text = Some m ->
  exists before rest,
    text = before ++ rest /\ salaryMatchHere rest = Some m /\
    forall b r, text = b ++ r ->
                (String.length b < String.length before)%nat ->
                salaryMatchHere r = None.
Proof.
  induction text as [|c text IH]; rewrite salaryMatch_eq;
    destruct (salaryMatchHere _) as [m'|] eqn:E; try discriminate.
  - intros [= <-]. exists EmptyString, (String c text). split; [reflexivity|].
    split; [exact E|]. cbn. intros; lia.
  - intros H. destruct (IH H) as [before [rest [H1 [H2 H3]]]].
    exists (String c before), rest. split; [cbn; now rewrite <- H1|].
    split; [exact H2|]. intros b r Hb Hl. destruct b as [|d b].
    + cbn in Hb. now subst r.
    + cbn in Hb, Hl. injection Hb as <- Hb. apply (H3 b r Hb). lia.
Qed.

Lemma salaryMatch_empty : salaryMatch EmptyString = None.
Proof. reflexivity. Qed.

Lemma recordMatch_period (m : SalaryMatch) (info : SalaryInfo) (g : string) :
  group4 m = Some g -> In (JS.toLowerCase g) (map fst periodOf) ->
  In (JS.toLowerCase g, period (recordMatch m info)) periodOf.
Proof.
  intros G Hin. unfold recordMatch. rewrite G. cbn [period].
  destruct g as [|a g]; [cbn in Hin; intuition discriminate|].
  cbn [JS.truthy]. remember (JS.toLowerCase (String a g)) as p eqn:Ep. clear Ep.
  cbn in Hin. destruct Hin as [<-|[<-|[<-|[<-|[<-|[]]]]]]; cbn; tauto.
Qed.

Lemma recordMatch_read (text : string) (m : SalaryMatch) (info : SalaryInfo) :
  salaryMatch text = Some m ->
  readFrom text (recordMatch m info) /\
  currency (recordMatch m info) = currency info /\
  (In (period info) periods -> In (period (recordMatch m info)) periods).
Proof.
  intros H. split; [|split; [reflexivity|]].
  - exists m. split; [exact H|]. split; [reflexivity|].
    destruct (salaryMatch_here _ _ H) as [before [rest [_ [Hm _]]]].
    destruct (salaryMatchHere_groups _ _ Hm) as [_ [_ [_ [G2 _]]]].
    unfold recordMatch. cbn [max].
    destruct (group2 m) as [g|]; [|reflexivity].
    destruct (G2 g eq_refl) as [Hg _].
    destruct g; [contradiction | reflexivity].
  - intros Hp. unfold recordMatch. cbn [period].
    destruct (group4 m) as [g|]; [|exact Hp].
    destruct (JS.truthy g); [|exact Hp].
    repeat (destruct (_ =? _); [cbn; tauto|]). exact Hp.
Qed.

Lemma itemsLoop_cases (items : list string) (info : SalaryInfo) :
  (itemsLoop items info = info /\
   Forall (fun text => salaryMatch text = None) items) \/
  exists text m,
    In text items /\ salaryMatch text = Some m /\
    itemsLoop items info = recordMatch m info.
Proof.
  induction items as [|item items IH]; cbn [itemsLoop]; [left; now split|].
  destruct (salaryMatch item) as [m|] eqn:E.
  - right. exists item, m. split; [now left | now split].
  - destruct IH as [[H1 H2]|[text [m [H1 [H2 H3]]]]].
    + left. split; [exact H1 | now constructor].
    + right. exists text, m. split; [now right | now split].
Qed.

Lemma highlightsLoop_reads (highlights : list Highlight.t) :
  forall info : SalaryInfo,
    let result := highlightsLoop highlights info in
    let texts :=
      flat_map (fun highlight =>
                  if Highlight.title highlight =? "Compensation"
                  then Highlight.items highlight else [])
               highlights in
    currency result = currency info /\
    (In (period info) periods -> In (period result) periods) /\
    ((result = info /\ Forall (fun text => salaryMatch text = None) texts) \/
     exists text, In text texts /\ readFrom text result).
Proof.
  induction highlights as [|h rest IH]; intros info; cbv zeta.
  - cbn. split; [reflexivity|]. split; [auto|]. left. now split.
  - cbn [highlightsLoop flat_map].
    assert (E : (if (Highlight.title h =? "Compensation") &&
                    negb (Nat.eqb (List.length (Highlight.items h)) 0)
                 then itemsLoop (Highlight.items h) info else info) =
                (if Highlight.title h =? "Compensation"
                 then itemsLoop (Highlight.items h) info else info)).
    { destruct (Highlight.title h =? "Compensation"); [|reflexivity].
      destruct (Highlight.items h); reflexivity. }
    rewrite E. clear E.
    destruct (Highlight.title h =? "Compensation").
    + destruct (itemsLoop_cases (Highlight.items h) info)
        as [[E F]|[text [m [Hin [Hm E]]]]]; rewrite E.
      * destruct (IH info) as [C [P R]]. cbv zeta in *.
        split; [exact C|]. split; [exact P|].
        destruct R as [[R1 R2]|[text [R1 R2]]].
        -- left. split; [exact R1 | apply Forall_app; now split].
        -- right. exists text. split; [apply in_or_app; now right | exact R2].
      * destruct (IH (recordMatch m info)) as [C [P R]]. cbv zeta in *.
        destruct (recordMatch_read text m info Hm) as [M1 [M2 M3]].
        split; [now rewrite C|]. split; [auto|]. right.
        destruct R as [[R1 R2]|[text' [R1 R2]]].
        -- exists text. split; [apply in_or_app; now left | now rewrite R1].
        -- exists text'. split; [apply in_or_app; now right | exact R2].
    + cbn [app]. apply IH.
Qed.

(** X12: where the salary comes from. The currency is always USD and the
    period one of the five known ones; either no Compensation item and not
    the description matches the pattern, and the result is the initial one
    (no bounds, yearly), or the bounds are the amounts of a match of one of
    these texts. *)
Theorem salary_is_read_from_the_job (job : Job.t) :
  let info := extractSalaryInfo job in
  currency info = "USD" /\ In (period info) periods /\
  ((info = {| min := None; max := None; currency := "USD"; period := "yearly" |} /\
    Forall (fun text => salaryMatch text = None) (salaryTexts job)) \/
   exists text, In text (salaryTexts job) /\ readFrom text info).
Proof.
  cbv zeta. unfold extractSalaryInfo, salaryTexts, itemsTitled.
  destruct (highlightsLoop_reads (Job.highlights job)
              {| min := None; max := None; currency := "USD"; period := "yearly" |})
    as [C [P R]].
  cbv zeta in *. cbn [currency period] in C, P.
  assert (P' := P ltac:(cbn; tauto)). clear P.
  destruct (negb _ && JS.truthy (Job.description job)) eqn:Cond.
  - destruct (salaryMatch (Job.description job)) as [m|] eqn:M.
    + destruct (recordMatch_read _ m (highlightsLoop (Job.highlights job)
                 {| min := None; max := None; currency := "USD"; period := "yearly" |}) M)
        as [M1 [M2 M3]].
      split; [now rewrite M2|]. split; [auto|]. right.
      exists (Job.description job). split; [apply in_or_app; right; now left | exact M1].
    + split; [exact C|]. split; [exact P'|].
      destruct R as [[R1 R2]|[text [R1 R2]]].
      * left. split; [exact R1|]. apply Forall_app. split; [exact R2|].
        constructor; [exact M | constructor].
      * right. exists text. split; [apply in_or_app; now left | exact R2].
  - split; [exact C|]. split; [exact P'|].
    destruct R as [[R1 R2]|[text [R1 R2]]].
    + left. split; [exact R1|]. apply Forall_app. split; [exact R2|].
      rewrite R1 in Cond. cbn [min truthyNum negb andb] in Cond.
      destruct (Job.description job); [|discriminate].
      constructor; [reflexivity | constructor].
    + right. exists text. split; [apply in_or_app; now left | exact R2].
Qed.

(** X13: what a match of the salary pattern holds. It is the leftmost
    match; its first group is the whole run of digits, commas and dots after
    a dollar sign; a second amount, when there is one, is such a run too;
    and a unit, when there is one, is one of the five of the pattern up to
    case, so the period recorded is the one that belongs to it. *)
Theorem salary_match_groups (text : string) (m : SalaryMatch) (info : SalaryInfo) :
  salaryMatch text = Some m ->
  (exists before rest,
     text = before ++ "$" ++ group1 m ++ rest /\ amountEnds rest = true /\
     forall b r, text = b ++ r ->
                 (String.length b < String.length before)%nat ->
                 salaryMatchHere r = None) /\
  group1 m <> EmptyString /\ allChars amountChar (group1 m) = true /\
  (forall g, group2 m = Some g ->
             g <> EmptyString /\ allChars amountChar g = true) /\
  (forall g, group4 m = Some g ->
             In (JS.toLowerCase g, period (recordMatch m info)) periodOf).
Proof.
  intros H. destruct (salaryMatch_here _ _ H) as [before [rest [H1 [H2 H3]]]].
  destruct (salaryMatchHere_groups _ _ H2) as [[r [G0 G0']] [G1 [G1' [G2 G4]]]].
  split; [|split; [exact G1|split; [exact G1'|split; [exact G2|]]]].
  - exists before, r. split; [now rewrite H1, G0|]. split; [exact G0' | exact H3].
  - intros g Hg. apply recordMatch_period; [exact Hg | now apply G4].
Qed.

Lemma salary_match_groups_witness :
  exists before rest,
    "Pay: $18 - $22 Per Hour" = before ++ "$" ++ "18" ++ rest /\
    amountEnds rest = true.
Proof.
  destruct (salary_match_groups "Pay: $18 - $22 Per Hour"
              {| group1 := "18"; group2 := Some "22"; group4 := Some "Hour" |}
              {| min := None; max := None; currency := "USD"; period := "yearly" |})
    as [[before [rest [H1 [H2 _]]]] _].
  - vm_compute. reflexivity.
  - exists before, rest. split; [exact H1 | exact H2].
Defined.

(** ** insertJobsIntoDatabase under faults *)

Lemma updateFirst_In {A : Type} (f : A -> bool) (g : A -> A) (l : list A) (x : A) :
  In x l -> f x = false -> In x (Database.updateFirst f g l).
Proof.
  intros Hin Hf. induction l as [|y l IH]; [contradiction|].
  cbn [Database.updateFirst]. destruct (f y) eqn:E.
  - destruct Hin as [->|Hin]; [congruence | now right].
  - destruct Hin as [->|Hin]; [now left | right; now apply IH].
Qed.

Lemma updateFirst_In_image {A : Type} (f : A -> bool) (g : A -> A) (l : list A)
      (x : A) :
  In x l ->
  In x (Database.updateFirst f g l) \/ In (g x) (Database.updateFirst f g l).
Proof.
  intros Hin. induction l as [|y l IH]; [contradiction|].
  cbn [Database.updateFirst]. destruct (f y) eqn:E.
  - destruct Hin as [->|Hin]; [right; now left | left; now right].
  - destruct Hin as [->|Hin]; [left; now left|].
    destruct (IH Hin); [left | right]; now right.
Qed.

Lemma updateFirst_In_inv {A : Type} (f : A -> bool) (g : A -> A) (l : list A)
      (y : A) :
  In y (Database.updateFirst f g l) -> In y l \/ exists x, In x l /\ y = g x.
Proof.
  induction l as [|x l IH]; [contradiction|].
  cbn [Database.updateFirst]. destruct (f x).
  - intros [<-|Hin]; [right; exists x; split; [now left | reflexivity]|].
    left. now right.
  - intros [<-|Hin]; [left; now left|].
    destruct (IH Hin) as [H|[z [H1 H2]]]; [left; now right|].
    right. exists z. split; [now right | exact H2].
Qed.

Section StoreInvariant.

Import Database.

Variable fault : nat -> Command -> bool.
Variable clock : nat -> Timestamp.
Variable I : Tables -> Prop.
Variable Q : ProcessedJob -> Prop.

Hypothesis I_job :
  forall now job t, Q job -> I t -> I (snd (upsertJob now job t)).
Hypothesis I_contact :
  forall now jobId email company domain t t',
    I t -> upsertContact now jobId email company domain t = Some t' -> I t'.

Lemma query_keeps (c : Command) (s : Session) :
  (forall job, c = InsertJob job -> Q job) ->
  sessionKeeps I s -> sessionKeeps I (snd (query fault clock c s)).
Proof.
  intros Hc [H1 H2]. unfold sessionKeeps, Database.query. cbv zeta.
  assert (R : I (restored s)).
  { unfold restored. destruct (snapshot s) as [t|]; auto. }
  destruct (fault _ c); [split; assumption|].
  destruct c as [| | | |job|jobId email company domain];
    cbn [snd tables snapshot]; try (split; assumption).
  - split; [exact H1|]. now intros t [= <-].
  - split; [|discriminate]. destruct (aborted s); assumption.
  - split; [exact R | discriminate].
  - destruct (aborted s); [split; assumption|].
    pose proof (I_job (transaction_time s) job (tables s) (Hc job eq_refl) H1) as H.
    destruct (upsertJob _ job (tables s)) as [id t]. cbn [snd tables snapshot] in *.
    split; assumption.
  - destruct (aborted s); [split; assumption|].
    destruct (upsertContact _ jobId email company domain (tables s)) as [t|] eqn:U;
      cbn [snd tables snapshot]; (split; [|exact H2]); eauto.
Qed.

Lemma contactsLoop_keeps (jobId : Z) (job : ProcessedJob) :
  forall (emails : list Email.t) (s : Session),
    sessionKeeps I s ->
    sessionKeeps I (snd (contactsLoop fault clock jobId job emails s)).
Proof.
  intros emails. induction emails as [|email rest IH]; intros s H; [exact H|].
  cbn [Database.contactsLoop].
  match goal with
  | |- context [query fault clock ?c s] =>
      pose proof (query_keeps c s ltac:(discriminate) H) as K;
      destruct (query fault clock c s) as [[r|] s1]
  end; cbn [snd] in *; [now apply IH | exact K].
Qed.

Lemma tryJob_keeps (job : ProcessedJob) (s : Session) :
  Q job -> sessionKeeps I s -> sessionKeeps I (snd (tryJob fault clock job s)).
Proof.
  intros HQ H. unfold Database.tryJob.
  assert (K : sessionKeeps I (snd (query fault clock (InsertJob job) s))).
  { apply query_keeps; [|exact H]. now intros j [= <-]. }
  destruct (query fault clock (InsertJob job) s) as [[[jobId|]|] s1];
    cbn [snd] in *; try exact K.
  pose proof (contactsLoop_keeps jobId job (GoogleJobsApi.emails job) s1 K) as K2.
  destruct (contactsLoop fault clock jobId job _ s1) as [[u|] s2]; exact K2.
Qed.

Lemma jobsLoop_keeps (batch : list ProcessedJob) :
  Forall Q batch ->
  forall (insertedCount : nat) (s : Session),
    sessionKeeps I s ->
    sessionKeeps I (snd (jobsLoop fault clock batch insertedCount s)).
Proof.
  induction 1 as [|job rest HQ _ IH]; intros n s H; [exact H|].
  cbn [Database.jobsLoop].
  pose proof (tryJob_keeps job s HQ H) as K.
  destruct (tryJob fault clock job s) as [[id|] s1]; cbn [snd] in K; now apply IH.
Qed.

Lemma insertJobsIntoDatabase_keeps (batch : list ProcessedJob) (s : Session) :
  Forall Q batch -> sessionKeeps I s ->
  exists s',
    snd (insertJobsIntoDatabase fault clock (Some s) batch) = Some s' /\
    sessionKeeps I s'.
Proof.
  intros HQ H. unfold Database.insertJobsIntoDatabase, Database.rollingBack.
  pose proof (query_keeps Connect s ltac:(discriminate) H) as K0.
  destruct (query fault clock Connect s) as [[r0|] s0]; cbn [snd] in K0;
    [|now exists s0].
  pose proof (query_keeps Begin s0 ltac:(discriminate) K0) as K1.
  destruct (query fault clock Begin s0) as [[r1|] s1]; cbn [snd] in K1.
  - pose proof (jobsLoop_keeps batch HQ 0%nat s1 K1) as K2.
    destruct (jobsLoop fault clock batch 0 s1) as [n s2]. cbn [snd] in K2.
    pose proof (query_keeps Commit s2 ltac:(discriminate) K2) as K3.
    destruct (query fault clock Commit s2) as [[r3|] s3]; cbn [snd] in K3;
      [now exists s3|].
    pose proof (query_keeps Rollback s3 ltac:(discriminate) K3) as K4.
    destruct (query fault clock Rollback s3) as [[r4|] s4]; now exists s4.
  - pose proof (query_keeps Rollback s1 ltac:(discriminate) K1) as K4.
    destruct (query fault clock Rollback s1) as [[r4|] s4]; now exists s4.
Qed.

End StoreInvariant.

Section StoreUnderFaults.

Import Database.

Variable fault : nat -> Command -> bool.
Variable clock : nat -> Timestamp.

Local Abbreviation insertJobsIntoDatabase := (insertJobsIntoDatabase fault clock).

(** X14: whatever the store refuses, a call that starts outside a
    transaction leaves every row alone whose link no job of the batch
    carries: the row is in the table afterwards, as it was. *)
Theorem untouched_rows_survive (s : Session) (batch : list ProcessedJob)
        (row : JobRow.t) :
  snapshot s = None ->
  In row (jobs (tables s)) ->
  Forall (fun job => conflicts (GoogleJobsApi.apply_link job) row = false) batch ->
  exists s',
    snd (insertJobsIntoDatabase (Some s) batch) = Some s' /\
    In row (jobs (tables s')).
Proof.
  intros Hs Hin Hb.
  destruct (insertJobsIntoDatabase_keeps fault clock
              (fun t => In row (jobs t))
              (fun job => conflicts (GoogleJobsApi.apply_link job) row = false))
    with (batch := batch) (s := s) as [s' [H1 [H2 _]]].
  - intros now job t HQ Ht. unfold upsertJob.
    destruct (find _ (jobs t)); cbn [snd jobs].
    + now apply updateFirst_In.
    + apply in_or_app. now left.
  - intros now jobId email company domain t t' Ht U.
    apply upsertContact_jobs in U as [U _]. now rewrite U.
  - exact Hb.
  - split; [exact Hin|]. rewrite Hs. discriminate.
  - now exists s'.
Qed.

Lemma constraints_upsertJob (now : Timestamp) (job : ProcessedJob) (t : Tables) :
  constraintsHold t -> constraintsHold (snd (upsertJob now job t)).
Proof.
  intros [U1 [U2 U3]]. split; [now apply upsertJob_uniqueLinks|]. split.
  - intros id e. unfold contactCount. rewrite upsertJob_contacts. apply U2.
  - intros c Hc. rewrite upsertJob_contacts in Hc.
    apply upsertJob_rows_stay. now apply U3.
Qed.

Lemma constraints_upsertContact (now : Timestamp) (jobId : Z) (email : Email.t)
      (company : string) (domain : option string) (t t' : Tables) :
  constraintsHold t ->
  upsertContact now jobId email company domain t = Some t' ->
  constraintsHold t'.
Proof.
  intros [U1 [U2 U3]] U. split; [|split].
  - intros link. unfold linkCount.
    destruct (upsertContact_jobs _ _ _ _ _ _ _ U) as [-> _]. apply U1.
  - eapply upsertContact_uniqueContacts; eauto.
  - intros c Hc. unfold jobExists.
    destruct (upsertContact_jobs _ _ _ _ _ _ _ U) as [-> _].
    fold (jobExists (ContactRow.job_id c) t).
    unfold upsertContact in U.
    destruct (jobExists jobId t) eqn:E; cbn [negb] in U; [|discriminate].
    injection U as <-. cbn [contacts] in Hc.
    destruct (existsb _ (contacts t)).
    + apply updateFirst_In_inv in Hc as [Hc|[old [Hc ->]]]; [now apply U3|].
      cbn [updatedContact ContactRow.job_id]. now apply U3.
    + apply in_app_or in Hc as [Hc|[<-|[]]]; [now apply U3 | exact E].
Qed.

(** X15: whatever the store refuses, a call that starts outside a
    transaction on tables that satisfy their constraints (one row per link,
    one contact row per job and address, every contact with its job) leaves
    tables that satisfy them. *)
Theorem constraints_are_kept (s : Session) (batch : list ProcessedJob) :
  snapshot s = None -> constraintsHold (tables s) ->
  exists s',
    snd (insertJobsIntoDatabase (Some s) batch) = Some s' /\
    constraintsHold (tables s').
Proof.
  intros Hs Hc.
  destruct (insertJobsIntoDatabase_keeps fault clock constraintsHold
              (fun _ => True))
    with (batch := batch) (s := s) as [s' [H1 [H2 _]]].
  - intros now job t _. apply constraints_upsertJob.
  - intros now jobId email company domain t t'. apply constraints_upsertContact.
  - apply Forall_forall. auto.
  - split; [exact Hc|]. rewrite Hs. discriminate.
  - now exists s'.
Qed.

(** X16: database.js, when the COMMIT is refused and the ROLLBACK served:
    the call returns 0 and the rows of both tables are those the call
    found, whatever the statements did. *)
Theorem refused_commit_stores_nothing (s : Session) (batch : list ProcessedJob) :
  (forall n, fault n Connect = false) ->
  (forall n, fault n Begin = false) ->
  (forall n, fault n Commit = true) ->
  (forall n, fault n Rollback = false) ->
  exists s',
    insertJobsIntoDatabase (Some s) batch = (Returns 0%nat, Some s') /\
    jobs (tables s') = jobs (tables s) /\
    contacts (tables s') = contacts (tables s) /\
    snapshot s' = None /\
    exists statements,
      issued s' = (issued s ++ [Connect; Begin] ++ statements ++ [Commit; Rollback])%list /\
      forallb isStatement statements = true.
Proof.
  intros HC HB HM HR. unfold Database.insertJobsIntoDatabase.
  rewrite (query_connect fault clock s HC). rewrite (query_begin fault clock _ HB).
  match goal with
  | |- context [jobsLoop fault clock batch 0 ?x] => set (s1 := x)
  end.
  destruct (jobsLoop_accounts fault clock batch 0 s1)
    as [_ [_ [[C1 _ [stmts [C3 C4]]] _]]].
  destruct (jobsLoop fault clock batch 0 s1) as [n s2]. cbn [fst snd] in *.
  unfold Database.rollingBack, Database.query. cbv zeta.
  rewrite HM. cbn [snapshot tables issued transaction_time].
  rewrite HR. rewrite C1. subst s1. cbn [snapshot tables issued].
  eexists. split; [reflexivity|]. cbn [tables snapshot issued].
  split; [reflexivity|]. split; [reflexivity|]. split; [reflexivity|].
  exists stmts. split; [|exact C4]. rewrite C3. cbn [issued].
  now rewrite <- !app_assoc.
Qed.

End StoreUnderFaults.

Lemma untouched_rows_survive_witness :
  exists s',
    snd (Database.insertJobsIntoDatabase refusesPastry ticking (Some onceStored)
           [pastryChef; dishwasher]) = Some s' /\
    In (Database.proposedRow 1%Z 1%Z lineCook) (Database.jobs (Database.tables s')).
Proof.
  apply (untouched_rows_survive refusesPastry ticking onceStored
           [pastryChef; dishwasher] (Database.proposedRow 1%Z 1%Z lineCook)).
  - reflexivity.
  - vm_compute. left. reflexivity.
  - repeat constructor.
Defined.

Lemma onceStored_constraints : constraintsHold (Database.tables onceStored).
Proof.
  split; [|split].
  - intros link. unfold linkCount. cbn [Database.tables Database.jobs onceStored filter].
    destruct (Database.conflicts _ _); cbn; lia.
  - intros id e. unfold contactCount.
    cbn [Database.tables Database.contacts onceStored filter].
    unfold Database.sameContact. cbn [Database.ContactRow.job_id Database.ContactRow.email].
    destruct (1 =? id)%Z; cbn [andb filter List.length]; [|lia].
    destruct ("ana@lunabistro.example" =? e) eqn:E1;
      destruct ("bo@lunabistro.example" =? e) eqn:E2; cbn; try lia.
    apply String.eqb_eq in E1, E2. congruence.
  - intros c Hc. vm_compute in Hc. destruct Hc as [<-|[<-|[]]]; reflexivity.
Qed.

Lemma constraints_are_kept_witness :
  exists s',
    snd (Database.insertJobsIntoDatabase refusesPastry ticking (Some onceStored)
           [pastryChef; lineCookRetitled]) = Some s' /\
    constraintsHold (Database.tables s').
Proof.
  apply (constraints_are_kept refusesPastry ticking onceStored
           [pastryChef; lineCookRetitled]).
  - reflexivity.
  - exact onceStored_constraints.
Defined.

Lemma refused_commit_stores_nothing_witness :
  exists s',
    Database.insertJobsIntoDatabase onlyCommitFails ticking (Some onceStored)
      [pastryChef; dishwasher] = (Returns 0%nat, Some s') /\
    Database.jobs (Database.tables s') = Database.jobs (Database.tables onceStored).
Proof.
  destruct (refused_commit_stores_nothing onlyCommitFails ticking onceStored
              [pastryChef; dishwasher]) as [s' [H1 [H2 _]]];
    try (intros n; reflexivity).
  exists s'. split; [exact H1 | exact H2].
Defined.

(** ** A run in which every command is served *)

Lemma find_updateFirst_In {A : Type} (f : A -> bool) (g : A -> A) (l : list A)
      (x : A) :
  find f l = Some x -> In (g x) (Database.updateFirst f g l).
Proof.
  induction l as [|y l IH]; [discriminate|].
  cbn [find Database.updateFirst]. destruct (f y).
  - intros [= <-]. now left.
  - intros H. right. now apply IH.
Qed.

Section ServedJobs.

Import Database.

Variable fault : nat -> Command -> bool.
Variable clock : nat -> Timestamp.

Lemma upsertJob_has_row (now : Timestamp) (job : ProcessedJob) (t : Tables) :
  exists row,
    In row (jobs (snd (upsertJob now job t))) /\
    JobRow.id row = fst (upsertJob now job t) /\
    JobRow.apply_link row = GoogleJobsApi.apply_link job.
Proof.
  unfold upsertJob.
  destruct (find _ (jobs t)) as [old|] eqn:F; cbn [fst snd jobs].
  - exists (updatedRow now job old).
    split; [now apply find_updateFirst_In|]. split; [reflexivity|].
    apply find_some in F as [_ F]. unfold conflicts in F.
    cbn [updatedRow JobRow.apply_link].
    destruct (GoogleJobsApi.apply_link job) as [l|]; [|discriminate].
    destruct (JobRow.apply_link old) as [l'|]; [|discriminate].
    apply String.eqb_eq in F. now subst.
  - exists (proposedRow (jobs_id_seq t) now job).
    split; [apply in_or_app; right; now left|]. now split.
Qed.

Lemma stored_upsertJob (now : Timestamp) (job' job : ProcessedJob) (t : Tables) :
  stored job t -> stored job (snd (upsertJob now job' t)).
Proof.
  intros [row [H1 [H2 H3]]]. unfold stored, contactCount.
  rewrite upsertJob_contacts. unfold upsertJob.
  destruct (find _ (jobs t)); cbn [snd jobs].
  - destruct (updateFirst_In_image
                (conflicts (GoogleJobsApi.apply_link job'))
                (updatedRow now job') (jobs t) row H1) as [H|H].
    + exists row. now split.
    + exists (updatedRow now job' row). split; [exact H|]. now split.
  - exists row. split; [apply in_or_app; now left | now split].
Qed.

Lemma stored_persist (now : Timestamp) (jobId : Z) (company : string)
      (domain : option string) (emails : list Email.t) (job : ProcessedJob)
      (t t' : Tables) :
  stored job t ->
  persistContacts now jobId company domain emails t = Some t' ->
  stored job t'.
Proof.
  intros [row [H1 [H2 H3]]] P.
  destruct (persistContacts_facts _ _ _ _ _ _ _ P) as [J [_ [G _]]].
  exists row. split; [now rewrite J|]. split; [exact H2|].
  intros email Hin. specialize (H3 email Hin).
  specialize (G (JobRow.id row) (Email.email email)). lia.
Qed.

Lemma contactsLoop_served (jobId : Z) (job : ProcessedJob) :
  (forall n id email company domain,
      fault n (InsertContact id email company domain) = false) ->
  forall (emails : list Email.t) (s : Session),
    aborted s = false ->
    jobExists jobId (tables s) = true ->
    exists s', contactsLoop fault clock jobId job emails s = (Returns tt, s').
Proof.
  intros HC emails. induction emails as [|email rest IH]; intros s A H.
  - now exists s.
  - cbn [Database.contactsLoop]. unfold Database.query. cbv zeta.
    rewrite HC, A. unfold upsertContact. rewrite H. cbn [negb].
    apply IH; [reflexivity | exact H].
Qed.

(** A job whose statements are served, in a transaction that has not
    failed. *)
Lemma tryJob_served (job : ProcessedJob) (s : Session) :
  (forall n id email company domain,
      fault n (InsertContact id email company domain) = false) ->
  (forall n, fault n (InsertJob job) = false) ->
  aborted s = false ->
  exists id s',
    tryJob fault clock job s = (Returns id, s') /\
    stored job (tables s') /\
    (forall j, stored j (tables s) -> stored j (tables s')) /\
    snapshot s' = snapshot s /\ aborted s' = false.
Proof.
  intros HC HJ A. unfold Database.tryJob.
  destruct (query fault clock (InsertJob job) s) as [r s1] eqn:Q.
  assert (Q' := Q). unfold Database.query in Q'. cbv zeta in Q'.
  rewrite HJ, A in Q'.
  pose proof (upsertJob_has_row (transaction_time s) job (tables s))
    as [row [R1 [R2 R3]]].
  pose proof (upsertJob_row_exists (transaction_time s) job (tables s)) as Ex.
  pose proof (fun j => stored_upsertJob (transaction_time s) job j (tables s)) as St.
  destruct (upsertJob (transaction_time s) job (tables s)) as [id t].
  cbn [fst snd] in *. injection Q' as <- <-.
  match goal with
  | |- context [contactsLoop fault clock id job ?emails ?x] =>
      destruct (contactsLoop_served id job HC emails x eq_refl Ex) as [s2 L];
      rewrite L;
      destruct (contactsLoop_returns fault clock id job emails x s2 tt L)
        as [P [S2 _]];
      pose proof (contactsLoop_clean fault clock id job emails x s2 tt eq_refl L)
        as A2
  end.
  cbn [tables snapshot transaction_time] in P, S2.
  exists id, s2. split; [reflexivity|].
  destruct (persistContacts_facts _ _ _ _ _ _ _ P) as [J [_ [_ G]]].
  split; [|split; [|split; [exact S2 | exact A2]]].
  - exists row. split; [now rewrite J|]. split; [exact R3|].
    intros email Hin. rewrite R2. now apply G.
  - intros j Hj. eapply stored_persist; [|exact P]. now apply St.
Qed.

Lemma jobsLoop_served :
  (forall n id email company domain,
      fault n (InsertContact id email company domain) = false) ->
  forall (batch : list ProcessedJob),
    (forall n job, In job batch -> fault n (InsertJob job) = false) ->
    forall (insertedCount : nat) (s : Session),
      aborted s = false ->
      exists s',
        jobsLoop fault clock batch insertedCount s =
          ((insertedCount + List.length batch)%nat, s') /\
        Forall (fun job => stored job (tables s')) batch /\
        (forall j, stored j (tables s) -> stored j (tables s')) /\
        snapshot s' = snapshot s /\ aborted s' = false.
Proof.
  intros HC batch. induction batch as [|job rest IH]; intros HJ n s A.
  - exists s. cbn. rewrite Nat.add_0_r. repeat split; auto.
  - cbn [Database.jobsLoop List.length].
    destruct (tryJob_served job s HC (fun k => HJ k job (or_introl eq_refl)) A)
      as [id [s1 [T [H1 [H2 [H3 A1]]]]]].
    rewrite T.
    destruct (IH (fun k j Hj => HJ k j (or_intror Hj)) (S n) s1 A1)
      as [s' [L [F [K [S' A']]]]].
    exists s'. split; [rewrite L; f_equal; lia|].
    split; [constructor; [now apply K | exact F]|].
    split; [auto|]. split; [congruence | exact A'].
Qed.

(** Once the transaction has failed no job gets through, and nothing
    changes. *)
Lemma tryJob_aborted (job : ProcessedJob) (s : Session) :
  aborted s = true ->
  exists s',
    tryJob fault clock job s = (Throws, s') /\
    tables s' = tables s /\ snapshot s' = snapshot s /\ aborted s' = true.
Proof.
  intros A. unfold Database.tryJob, Database.query. cbv zeta. rewrite A.
  destruct (fault _ _); eexists; (split; [reflexivity|]); cbn; auto.
Qed.

Lemma jobsLoop_aborted :
  forall (batch : list ProcessedJob) (insertedCount : nat) (s : Session),
    aborted s = true ->
    exists s',
      jobsLoop fault clock batch insertedCount s = (insertedCount, s') /\
      tables s' = tables s /\ snapshot s' = snapshot s /\ aborted s' = true.
Proof.
  induction batch as [|job rest IH]; intros n s A.
  - exists s. now repeat split.
  - cbn [Database.jobsLoop].
    destruct (tryJob_aborted job s A) as [s1 [T [H1 [H2 A1]]]]. rewrite T.
    destruct (IH n s1 A1) as [s' [L [K1 [K2 A']]]].
    exists s'. split; [exact L|]. repeat split; congruence.
Qed.

Lemma jobsLoop_app :
  forall (first rest : list ProcessedJob) (insertedCount : nat) (s : Session),
    jobsLoop fault clock (first ++ rest) insertedCount s =
      jobsLoop fault clock rest
        (fst (jobsLoop fault clock first insertedCount s))
        (snd (jobsLoop fault clock first insertedCount s)).
Proof.
  induction first as [|job first IH]; intros rest n s; [reflexivity|].
  cbn [app Database.jobsLoop].
  destruct (tryJob fault clock job s) as [[id|] s1]; apply IH.
Qed.

End ServedJobs.

Section ServedRun.

Import Database.

Variable fault : nat -> Command -> bool.
Variable clock : nat -> Timestamp.

Hypothesis served_all : forall n c, fault n c = false.

(** X17: database.js, when the store serves every command: the call
    returns the size of the batch, the transaction is closed, and every job
    of the batch has a row that carries its link, with a contact row for
    each of its addresses. *)
Theorem served_run_stores_every_job (s : Session) (batch : list ProcessedJob) :
  exists s',
    insertJobsIntoDatabase fault clock (Some s) batch =
      (Returns (List.length batch), Some s') /\
    Forall (fun job => stored job (tables s')) batch /\
    snapshot s' = None.
Proof.
  unfold Database.insertJobsIntoDatabase.
  rewrite (query_connect fault clock s (fun n => served_all n Connect)).
  rewrite (query_begin fault clock _ (fun n => served_all n Begin)).
  match goal with
  | |- context [jobsLoop fault clock batch 0 ?x] =>
      destruct (jobsLoop_served fault clock
                  (fun n id e c d => served_all n _) batch
                  (fun n job _ => served_all n _) 0%nat x eq_refl)
        as [s2 [L [F [_ [_ A]]]]];
      rewrite L
  end.
  rewrite (query_commit fault clock s2 (fun n => served_all n Commit)).
  rewrite A.
  eexists. split; [reflexivity|]. cbn [tables snapshot]. now split.
Qed.

End ServedRun.

Lemma served_run_stores_every_job_witness :
  exists s',
    Database.insertJobsIntoDatabase served ticking (Some onceStored)
      [lineCookRetitled; dishwasher; dishwasher] = (Returns 3%nat, Some s') /\
    Forall (fun job => stored job (Database.tables s'))
           [lineCookRetitled; dishwasher; dishwasher].
Proof.
  destruct (served_run_stores_every_job served ticking (fun n c => eq_refl)
              onceStored [lineCookRetitled; dishwasher; dishwasher])
    as [s' [H1 [H2 _]]].
  exists s'. split; [exact H1 | exact H2].
Defined.

(** ** The copy of main.js when the COMMIT fails *)

Section ServedJobsMain.

Import Main.

Variable fault : nat -> Command -> bool.
Variable clock : nat -> string.

(** A contact statement touches neither the job rows nor the snapshot;
    when it is served in a transaction that has not failed, the
    transaction goes on. *)
Lemma query_contact_main (jobId : Z) (name title email now : string) (s : Session) :
  jobs (tables (snd (query fault (InsertContact jobId name title email now) s)))
    = jobs (tables s) /\
  snapshot (snd (query fault (InsertContact jobId name title email now) s))
    = snapshot s /\
  (fault (List.length (issued s)) (InsertContact jobId name title email now) = false ->
   aborted s = false -> jobExists jobId (tables s) = true ->
   aborted (snd (query fault (InsertContact jobId name title email now) s)) = false).
Proof.
  unfold Main.query. cbv zeta.
  destruct (fault _ _); [cbn; repeat split; discriminate|].
  destruct (aborted s); [cbn; repeat split; discriminate|].
  unfold upsertContact.
  destruct (jobExists jobId (tables s)); cbn; repeat split; discriminate.
Qed.

Lemma contactsLoop_jobs_main (jobId : Z) (now : string) :
  forall (emails : list Email.t) (s : Session),
    jobs (tables (contactsLoop fault jobId now emails s)) = jobs (tables s) /\
    snapshot (contactsLoop fault jobId now emails s) = snapshot s /\
    ((forall n id name title email now',
         fault n (InsertContact id name title email now') = false) ->
     aborted s = false -> jobExists jobId (tables s) = true ->
     aborted (contactsLoop fault jobId now emails s) = false).
Proof.
  intros emails. induction emails as [|email rest IH]; intros s;
    [now repeat split|].
  cbn [Main.contactsLoop].
  match goal with
  | |- context [query fault (InsertContact ?a ?b ?c ?d ?e) s] =>
      destruct (query_contact_main a b c d e s) as [Q1 [Q2 Q3]];
      destruct (query fault (InsertContact a b c d e) s) as [o s1]
  end.
  cbn [snd] in Q1, Q2, Q3. destruct (IH s1) as [I1 [I2 I3]].
  split; [congruence|]. split; [congruence|].
  intros HC A E. apply I3; [exact HC | now apply Q3|].
  unfold jobExists. rewrite Q1. exact E.
Qed.

(** A job whose statement is served in a transaction that has not
    failed. *)
Lemma tryJob_served_main (job : ProcessedJob) (s : Session) :
  (forall n now, fault n (InsertJob (jobValues now job)) = false) ->
  aborted s = false ->
  let v := jobValues (clock (List.length (issued s))) job in
  fst (tryJob fault clock job s) = Returns (fst (upsertJob v (tables s))) /\
  jobs (tables (snd (tryJob fault clock job s))) = jobs (snd (upsertJob v (tables s))) /\
  snapshot (snd (tryJob fault clock job s)) = snapshot s /\
  ((forall n id name title email now',
       fault n (InsertContact id name title email now') = false) ->
   aborted (snd (tryJob fault clock job s)) = false).
Proof.
  intros HJ A. cbv zeta. unfold Main.tryJob.
  set (v := jobValues (clock (List.length (issued s))) job).
  assert (Q : query fault (InsertJob v) s =
              (Returns (Some (fst (upsertJob v (tables s)))),
               {| tables := snd (upsertJob v (tables s));
                  snapshot := snapshot s; aborted := false;
                  issued := issued s ++ [InsertJob v] |})).
  { unfold Main.query. cbv zeta. subst v. rewrite HJ, A.
    destruct (upsertJob _ (tables s)); reflexivity. }
  rewrite Q. cbn [fst snd]. split; [reflexivity|].
  match goal with
  | |- context [contactsLoop fault ?id ?now ?emails ?x] =>
      destruct (contactsLoop_jobs_main id now emails x) as [I1 [I2 I3]]
  end.
  rewrite I1, I2. split; [reflexivity|]. split; [reflexivity|].
  intros HC. apply I3; [exact HC | reflexivity|].
  cbn [tables]. apply upsertJob_row_exists_main.
Qed.

Lemma jobsLoop_served_main :
  (forall n id name title email now',
      fault n (InsertContact id name title email now') = false) ->
  forall (batch : list ProcessedJob),
    (forall n now job, In job batch ->
                       fault n (InsertJob (jobValues now job)) = false) ->
    forall (insertedCount : nat) (s : Session),
      aborted s = false ->
      fst (jobsLoop fault clock batch insertedCount s) =
        (insertedCount + List.length batch)%nat /\
      snapshot (snd (jobsLoop fault clock batch insertedCount s)) = snapshot s /\
      aborted (snd (jobsLoop fault clock batch insertedCount s)) = false.
Proof.
  intros HC batch. induction batch as [|job rest IH]; intros HJ n s A.
  - cbn. split; [lia | now split].
  - cbn [Main.jobsLoop List.length].
    destruct (tryJob_served_main job s
                (fun k now => HJ k now job (or_introl eq_refl)) A)
      as [T1 [_ [T3 T4]]].
    cbv zeta in *. specialize (T4 HC).
    destruct (tryJob fault clock job s) as [o s1]. cbn [fst snd] in *.
    subst o.
    destruct (IH (fun k now j Hj => HJ k now j (or_intror Hj)) (S n) s1 T4)
      as [H1 [H2 H3]].
    split; [rewrite H1; lia|]. split; [congruence | exact H3].
Qed.

(** Once the transaction has failed no job gets through, and nothing
    changes. *)
Lemma tryJob_aborted_main (job : ProcessedJob) (s : Session) :
  aborted s = true ->
  fst (tryJob fault clock job s) = Throws /\
  tables (snd (tryJob fault clock job s)) = tables s /\
  snapshot (snd (tryJob fault clock job s)) = snapshot s /\
  aborted (snd (tryJob fault clock job s)) = true.
Proof.
  intros A. unfold Main.tryJob, Main.query. cbv zeta. rewrite A.
  destruct (fault _ _); cbn; auto.
Qed.

Lemma jobsLoop_aborted_main :
  forall (batch : list ProcessedJob) (insertedCount : nat) (s : Session),
    aborted s = true ->
    fst (jobsLoop fault clock batch insertedCount s) = insertedCount /\
    tables (snd (jobsLoop fault clock batch insertedCount s)) = tables s /\
    snapshot (snd (jobsLoop fault clock batch insertedCount s)) = snapshot s /\
    aborted (snd (jobsLoop fault clock batch insertedCount s)) = true.
Proof.
  induction batch as [|job rest IH]; intros n s A.
  - cbn. now repeat split.
  - cbn [Main.jobsLoop].
    destruct (tryJob_aborted_main job s A) as [T [H1 [H2 A1]]].
    destruct (tryJob fault clock job s) as [o s1]. cbn [fst snd] in *. subst o.
    destruct (IH n s1 A1) as [L [K1 [K2 A']]].
    split; [exact L|]. repeat split; congruence.
Qed.

Lemma jobsLoop_app_main :
  forall (first rest : list ProcessedJob) (insertedCount : nat) (s : Session),
    jobsLoop fault clock (first ++ rest) insertedCount s =
      jobsLoop fault clock rest
        (fst (jobsLoop fault clock first insertedCount s))
        (snd (jobsLoop fault clock first insertedCount s)).
Proof.
  induction first as [|job first IH]; intros rest n s; [reflexivity|].
  cbn [app Main.jobsLoop].
  destruct (tryJob fault clock job s) as [[id|] s1]; apply IH.
Qed.

End ServedJobsMain.

Section MainUnderFaults.

Import Main.

Variable fault : nat -> Command -> bool.
Variable clock : nat -> string.

(** X18: main.js, when the statements are served, the COMMIT is refused and
    the ROLLBACK served: the rows of both tables are those the call found,
    and yet the call returns the size of the batch. *)
Theorem main_copy_counts_rolled_back_jobs (s : Session) (batch : list ProcessedJob) :
  (forall n, fault n Connect = false) ->
  (forall n, fault n Begin = false) ->
  (forall n v, fault n (InsertJob v) = false) ->
  (forall n id name title email now,
      fault n (InsertContact id name title email now) = false) ->
  (forall n, fault n Commit = true) ->
  (forall n, fault n Rollback = false) ->
  exists s',
    insertJobsIntoDatabase fault clock (Some s) batch =
      (List.length batch, Some s') /\
    jobs (tables s') = jobs (tables s) /\
    contacts (tables s') = contacts (tables s) /\
    snapshot s' = None.
Proof.
  intros HC HB HJ HE HM HR. unfold Main.insertJobsIntoDatabase.
  rewrite (query_connect_main fault s HC). rewrite (query_begin_main fault _ HB).
  match goal with
  | |- context [jobsLoop fault clock batch 0 ?x] => set (s1 := x)
  end.
  destruct (jobsLoop_served_main fault clock HE batch
              (fun n now job _ => HJ n _) 0%nat s1 eq_refl) as [Hn [C1 _]].
  destruct (jobsLoop fault clock batch 0 s1) as [n s2]. cbn [fst snd] in *.
  subst n. unfold Main.query. cbv zeta.
  rewrite HM. cbn [snapshot tables issued snd].
  rewrite HR. unfold restored. cbn [snapshot tables]. rewrite C1.
  subst s1. cbn [snapshot tables issued snd].
  eexists. split; [reflexivity|]. cbn [tables snapshot]. repeat split.
Qed.

End MainUnderFaults.

Lemma main_copy_counts_rolled_back_jobs_witness :
  exists s',
    Main.insertJobsIntoDatabase onlyCommitFailsMain isoTime (Some emptyStoreMain)
      [lineCook; pastryChef] = (2%nat, Some s') /\
    Main.jobs (Main.tables s') = [].
Proof.
  destruct (main_copy_counts_rolled_back_jobs onlyCommitFailsMain isoTime
              emptyStoreMain [lineCook; pastryChef]) as [s' [H1 [H2 _]]];
    try (intros; reflexivity).
  exists s'. split; [exact H1 | exact H2].
Defined.

(** ** The work done for one query (main.js) *)

Lemma filter_length_split {A : Type} (f : A -> bool) (l : list A) :
  (List.length (filter f l) + List.length (filter (fun x => negb (f x)) l)
   = List.length l)%nat.
Proof.
  induction l as [|x l IH]; [reflexivity|].
  cbn. destruct (f x); cbn; lia.
Qed.

Lemma filter_length_bound {A : Type} (f : A -> bool) (l : list A) :
  (List.length (filter f l) <= List.length l)%nat.
Proof.
  induction l as [|x l IH]; [cbn; lia|]. cbn. destruct (f x); cbn; lia.
Qed.

Lemma describes_origin (f : Job.t -> bool) (batch : list Job.t) :
  forall new : list ProcessedJob,
    Forall2 describes (filter f batch) new ->
    Forall (fun p => exists job, In job batch /\ f job = true /\ describes job p) new.
Proof.
  induction batch as [|job rest IH]; cbn [filter]; intros new H.
  - inversion H. constructor.
  - destruct (f job) eqn:E.
    + inversion H as [|? p ? new' Hd Hrest]; subst. constructor.
      * exists job. split; [now left | now split].
      * eapply Forall_impl; [|apply IH; exact Hrest].
        intros p' [j [H1 H2]]. exists j. split; [now right | exact H2].
    + eapply Forall_impl; [|apply IH; exact H].
      intros p' [j [H1 H2]]. exists j. split; [now right | exact H2].
Qed.

Section QueryFacts.

Variable World : Type.
Variable apiKey : option string.
Variable fetch : Request -> World -> Response * World.
Variable getWebsiteUrlFromSearchAPI :
  string -> World -> Outcome (option string) * World.
Variable getDomainFromUrl : string -> Outcome (option string).
Variable findEmailsWithHunter :
  string -> string -> World -> Outcome (option (list Email.t)) * World.
Variable findEmailsByCompanyName :
  string -> World -> Outcome (option (list Email.t)) * World.
Variable toISOString : World -> string.

Local Abbreviation processQuery :=
  (Main.processQuery World apiKey fetch getWebsiteUrlFromSearchAPI
     getDomainFromUrl findEmailsWithHunter findEmailsByCompanyName toISOString).

(** The search of a query returns. *)
Lemma searchAllJobs_returns (query location : string) (maxPages : Z) (w : World) :
  exists st, searchAllJobs World apiKey fetch query location maxPages w = Some st.
Proof.
  unfold GoogleJobsApi.searchAllJobs.
  destruct (pageLoop_runs World apiKey fetch query location maxPages
              (S (Z.to_nat maxPages))
              {| GoogleJobsApi.allJobs := []; GoogleJobsApi.loopToken := None;
                 GoogleJobsApi.currentPage := 0; GoogleJobsApi.pages := [];
                 GoogleJobsApi.world := w |})
    as [st [more [last [H _]]]]; [lia | cbn; lia |].
  now exists st.
Qed.

(** The test of the filter holds exactly of the jobs that signal
    full-time. *)
Lemma isFullTime_iff (job : Job.t) :
  Main.isFullTime job = true <-> signalsFullTime job.
Proof.
  unfold Main.isFullTime, signalsFullTime.
  rewrite orb_true_iff, String.eqb_eq, existsb_exists.
  split; (intros [H|H]; [now left | right]).
  - destruct H as [ext [Hin H]]. apply includes_iff in H as [a [b H]].
    now exists ext, a, b.
  - destruct H as [ext [a [b [Hin H]]]]. exists ext. split; [exact Hin|].
    apply includes_iff. now exists a, b.
Qed.

Lemma selectedFrom_filter (found : list Job.t) :
  selectedFrom true found (filter Main.isFullTime found).
Proof.
  induction found as [|job found IH]; cbn [filter]; [constructor|].
  destruct (Main.isFullTime job) eqn:E.
  - apply selected_keep; [intros _; now apply isFullTime_iff | exact IH].
  - apply selected_drop; [reflexivity | | exact IH].
    intros H. apply isFullTime_iff in H. congruence.
Qed.

Lemma selectedFrom_all (found : list Job.t) : selectedFrom false found found.
Proof.
  induction found as [|job found IH]; [constructor|].
  apply selected_keep; [discriminate | exact IH].
Qed.

(** X19: the accounts of one query, whatever the provider and the lookups
    do. The search returns; when it finds no job nothing is processed.
    Otherwise the number reported is the number of jobs found; the jobs
    that go on are all of them or, with the full-time filter on, those
    among them that signal full-time, in the order found; the processed
    jobs are, one for one and in order, what extraction makes of those of
    them whose company passes the exclusion check, and the excluded count
    is the number of the others. Hence the jobs processed and the jobs
    excluded are together at most the jobs found, and exactly the jobs
    found when the full-time filter is off; every processed job has a
    title, a company, a location and a description, and a company that
    passes the exclusion check; with the full-time filter on, every
    processed job comes from a job found that signals full-time. *)
Theorem processQuery_accounts (input : Main.Input) (query : string) (w : World) :
  let result := processQuery input query w in
  exists search,
    searchAllJobs World apiKey fetch query (Main.location input)
                  (Main.maxPagesPerQuery input) w = Some search /\
    match Main.processing World result with
    | None => Main.found World result = 0%nat /\ allJobs World search = []
    | Some p =>
        Main.found World result = List.length (allJobs World search) /\
        (1 <= Main.found World result)%nat /\
        (exists batch,
            selectedFrom (Main.fullTimeOnly input) (allJobs World search) batch /\
            Forall2 describes (filter kept batch) (processedJobs World p) /\
            excludedCount World p
            = List.length (filter (fun job => negb (kept job)) batch)) /\
        (List.length (processedJobs World p) + excludedCount World p
         <= Main.found World result)%nat /\
        (Main.fullTimeOnly input = false ->
         (List.length (processedJobs World p) + excludedCount World p
          = Main.found World result)%nat) /\
        Forall presentable (processedJobs World p) /\
        (Main.fullTimeOnly input = true ->
         Forall (fun pj => exists job,
                     In job (allJobs World search) /\ signalsFullTime job /\
                     kept job = true /\ describes job pj)
                (processedJobs World p))
    end.
Proof.
  cbv zeta. unfold Main.processQuery, Main.testMode.
  destruct (searchAllJobs_returns query (Main.location input)
              (Main.maxPagesPerQuery input) w) as [search E].
  exists search. split; [exact E|]. rewrite E.
  pose proof (allJobs_wellFormed _ _ _ _ _ _ _ _ E) as WF.
  destruct (List.length (allJobs World search) =? 0)%nat eqn:L.
  { cbn [Main.processing Main.found]. split; [reflexivity|].
    apply Nat.eqb_eq in L. now destruct (allJobs World search). }
  apply Nat.eqb_neq in L. cbn [Main.processing Main.found].
  set (found := allJobs World search) in *.
  set (batch := if Main.fullTimeOnly input then filter Main.isFullTime found
                else found).
  assert (WFb : Forall wellFormedJob batch).
  { subst batch. destruct (Main.fullTimeOnly input); [|exact WF].
    apply Forall_forall. intros j Hj. apply filter_In in Hj as [Hj _].
    rewrite Forall_forall in WF. now apply WF. }
  unfold GoogleJobsApi.processJobsForDatabase.
  match goal with
  | |- context [fold_left _ batch ?s] =>
      destruct (processJob_fold World getWebsiteUrlFromSearchAPI getDomainFromUrl
                  findEmailsWithHunter findEmailsByCompanyName toISOString
                  Main.forceHunterData batch s)
        as [new [more [H1 [H2 [_ [_ [_ [H6 _]]]]]]]]
  end.
  cbv zeta in *. cbn [processedJobs excludedCount app Nat.add] in H1, H6.
  rewrite H1, H6.
  assert (Len : List.length new = List.length (filter kept batch)).
  { symmetry. eapply Forall2_length; eauto. }
  pose proof (filter_length_split kept batch) as Split.
  assert (Hb : (List.length batch <= List.length found)%nat).
  { subst batch. destruct (Main.fullTimeOnly input); [apply filter_length_bound | lia]. }
  split; [reflexivity|]. split; [lia|]. split.
  { exists batch. split; [|split; [exact H2 | reflexivity]].
    subst batch. destruct (Main.fullTimeOnly input);
      [apply selectedFrom_filter | apply selectedFrom_all]. }
  split; [lia|]. split; [|split].
  - intros F. subst batch. rewrite F in *. lia.
  - pose proof (describes_origin kept batch new H2) as O.
    rewrite Forall_forall in O, WFb. apply Forall_forall. intros p Hp.
    destruct (O p Hp) as [job [Hin [Hk D]]].
    destruct (WFb job Hin) as [W1 [W2 [W3 [W4 _]]]].
    destruct D as [D1 [D2 [D3 [_ [_ [D6 _]]]]]].
    unfold presentable. rewrite D1, D2, D3, D6.
    repeat split; try assumption.
    unfold kept in Hk. now apply negb_true_iff in Hk.
  - intros F. subst batch. rewrite F in H2.
    pose proof (describes_origin kept _ new H2) as O.
    eapply Forall_impl; [|exact O].
    intros p [job [Hin [Hk D]]]. exists job.
    apply filter_In in Hin as [Hin Hf].
    split; [exact Hin|]. split; [now apply isFullTime_iff|]. now split.
Qed.

End QueryFacts.

(** ** The source label *)

Lemma replaceFirst_eq (s p r : string) :
  JS.replaceFirst s p r =
    if prefix p s then r ++ JS.drop (String.length p) s
    else match s with
         | EmptyString => EmptyString
         | String c s' => String c (JS.replaceFirst s' p r)
         end.
Proof. destruct s; reflexivity. Qed.

Lemma drop_app (p s : string) : JS.drop (String.length p) (p ++ s) = s.
Proof. induction p as [|c p IH]; [reflexivity | exact IH]. Qed.

(** [replace] with a string pattern rewrites the first occurrence, where
    ever it is, and no other. *)
Lemma replaceFirst_first (p r behind : string) :
  forall before : string,
    (forall b c, before = b ++ c -> c <> EmptyString ->
                 JS.startsWith (c ++ p ++ behind) p = false) ->
    JS.replaceFirst (before ++ p ++ behind) p r = before ++ r ++ behind.
Proof.
  induction before as [|ch before IH]; intros H; rewrite replaceFirst_eq.
  - cbn [append].
    assert (P : prefix p (p ++ behind) = true) by (apply prefix_iff; now exists behind).
    now rewrite P, drop_app.
  - assert (P : prefix p (String ch before ++ p ++ behind) = false).
    { apply (H EmptyString (String ch before)); [reflexivity | discriminate]. }
    rewrite P. cbn [append]. f_equal. apply IH.
    intros b c -> Hc. apply (H (String ch b) c); [reflexivity | exact Hc].
Qed.

(** X20: the source label. The first occurrence of "via " is cut out of the
    provider's label, wherever it stands, and what is before and behind it
    is joined. *)
Theorem source_drops_first_via (raw : RawResult.t) (before behind : string) :
  RawResult.via raw = Some (before ++ "via " ++ behind) ->
  (forall b c, before = b ++ c -> c <> EmptyString ->
               JS.startsWith (c ++ "via " ++ behind) "via " = false) ->
  Job.source (processedJobs_map raw) = before ++ behind.
Proof.
  intros V H. unfold processedJobs_map. cbn [Job.source]. rewrite V.
  assert (T : JS.truthy (before ++ "via " ++ behind) = true)
    by (destruct before; reflexivity).
  rewrite T. exact (replaceFirst_first "via " EmptyString behind before H).
Qed.

Lemma source_drops_first_via_witness :
  Job.source (processedJobs_map (labelled "Olivia Jobs")) = "OliJobs".
Proof.
  apply (source_drops_first_via (labelled "Olivia Jobs") "Oli" "Jobs").
  - reflexivity.
  - intros b c H Hc.
    destruct b as [|c1 [|c2 [|c3 [|c4 b]]]]; cbn in H.
    + subst c. reflexivity.
    + injection H as _ <-. reflexivity.
    + injection H as _ _ <-. reflexivity.
    + injection H as _ _ _ <-. now contradiction Hc.
    + discriminate.
Defined.

(** ** The key of the copy of main.js *)

Section MainServed.

Import Main.

Variable fault : nat -> Command -> bool.
Variable clock : nat -> string.

Hypothesis served_all_main : forall n c, fault n c = false.

Lemma upsertJob_first_main (v : JobValues) (t : Tables) :
  exists row,
    find (conflicts v) (jobs (snd (upsertJob v t))) = Some row /\
    JobRow.url row = v_url v /\
    (List.length (jobs (snd (upsertJob v t))) <= List.length (jobs t) + 1)%nat /\
    (forall old, find (conflicts v) (jobs t) = Some old ->
                 List.length (jobs (snd (upsertJob v t))) = List.length (jobs t)).
Proof.
  unfold upsertJob. destruct (find (conflicts v) (jobs t)) as [old|] eqn:F;
    cbn [snd jobs].
  - exists (updatedRow v old). split; [|split; [reflexivity|split]].
    + now apply find_updateFirst.
    + rewrite updateFirst_length. lia.
    + intros _ _. apply updateFirst_length.
  - exists (proposedRow (jobs_id_seq t) v). split; [|split; [reflexivity|split]].
    + apply find_app_new; [exact F|]. unfold conflicts. cbn.
      now rewrite !String.eqb_refl.
    + rewrite length_app. cbn. lia.
    + discriminate.
Qed.

(** X21: the key of the copy of main.js is the title with the company. When
    every command is served, two postings with one title and one company
    are both counted, at most one row is added for the two, and the link of
    that row is the link of the second posting. *)
Theorem main_copy_later_link_wins (s : Session) (job1 job2 : ProcessedJob) :
  GoogleJobsApi.title job1 = GoogleJobsApi.title job2 ->
  GoogleJobsApi.company job1 = GoogleJobsApi.company job2 ->
  exists s' row,
    insertJobsIntoDatabase fault clock (Some s) [job1; job2] = (2%nat, Some s') /\
    find (fun row => (JobRow.title row =? GoogleJobsApi.title job2) &&
                     (JobRow.company row =? GoogleJobsApi.company job2))
         (jobs (tables s')) = Some row /\
    JobRow.url row = GoogleJobsApi.apply_link job2 /\
    (List.length (jobs (tables s')) <= List.length (jobs (tables s)) + 1)%nat.
Proof.
  intros Ht Hc. unfold Main.insertJobsIntoDatabase.
  rewrite (query_connect_main fault s (fun n => served_all_main n Connect)).
  rewrite (query_begin_main fault _ (fun n => served_all_main n Begin)).
  cbn [Main.jobsLoop].
  match goal with
  | |- context [tryJob fault clock job1 ?x] =>
      set (s1 := x);
      destruct (tryJob_served_main fault clock job1 s1
                  (fun n now => served_all_main n _) eq_refl)
        as [A1 [A2 [_ A4]]];
      destruct (tryJob fault clock job1 s1) as [r1 s2]
  end.
  cbv zeta in *. cbn [fst snd] in *. subst r1.
  specialize (A4 (fun n id name ttl email now => served_all_main n _)).
  destruct (tryJob_served_main fault clock job2 s2
              (fun n now => served_all_main n _) A4) as [B1 [B2 [_ B4]]].
  destruct (tryJob fault clock job2 s2) as [r2 s3].
  cbv zeta in *. cbn [fst snd] in *. subst r2.
  specialize (B4 (fun n id name ttl email now => served_all_main n _)).
  rewrite (query_commit_main fault s3 (fun n => served_all_main n Commit)).
  rewrite B4.
  set (v1 := jobValues (clock (List.length (issued s1))) job1) in *.
  set (v2 := jobValues (clock (List.length (issued s2))) job2) in *.
  destruct (upsertJob_first_main v1 (tables s1)) as [row1 [F1 [_ [L1 _]]]].
  destruct (upsertJob_first_main v2 (tables s2)) as [row2 [F2 [U2 [_ L2]]]].
  assert (Same : forall v v' row,
             v_title v = v_title v' -> v_company v = v_company v' ->
             conflicts v row = conflicts v' row).
  { intros v v' row E1 E2. unfold conflicts. now rewrite E1, E2. }
  assert (Ext : forall v v' l,
             v_title v = v_title v' -> v_company v = v_company v' ->
             find (conflicts v) l = find (conflicts v') l).
  { intros v v' l E1 E2. induction l as [|x l IH]; [reflexivity|].
    cbn [find]. now rewrite (Same v v' x E1 E2), IH. }
  assert (F12 : find (conflicts v2) (jobs (tables s2)) = Some row1).
  { rewrite A2, <- F1. apply Ext; subst v1 v2; cbn; congruence. }
  eexists; exists row2. split; [reflexivity|]. cbn [tables].
  rewrite B2. split; [|split].
  - exact F2.
  - exact U2.
  - rewrite (L2 row1 F12), A2. subst s1. cbn [tables] in L1. exact L1.
Qed.

End MainServed.

Lemma main_copy_later_link_wins_witness :
  exists s' row,
    Main.insertJobsIntoDatabase servedMain isoTime (Some emptyStoreMain)
      [lineCook; processedWith "Line Cook" (Some "https://jobs.example.com/luna/9") []]
      = (2%nat, Some s') /\
    Main.JobRow.url row = Some "https://jobs.example.com/luna/9" /\
    (List.length (Main.jobs (Main.tables s')) <= 1)%nat.
Proof.
  destruct (main_copy_later_link_wins servedMain isoTime (fun n c => eq_refl)
              emptyStoreMain lineCook
              (processedWith "Line Cook" (Some "https://jobs.example.com/luna/9") []))
    as [s' [row [H1 [_ [H3 H4]]]]]; try reflexivity.
  exists s', row. split; [exact H1|]. split; [exact H3 | exact H4].
Defined.

(** ** The company name recovered by the patterns *)






(** ** A failing job inside the transaction (C4) *)

Lemma tryJob_faulted (fault : nat -> Database.Command -> bool)
      (clock : nat -> Database.Timestamp) (job : ProcessedJob)
      (s : Database.Session) :
  (forall n, fault n (Database.InsertJob job) = true) ->
  Database.inTransaction s = true ->
  exists s',
    Database.tryJob fault clock job s = (Throws, s') /\
    Database.tables s' = Database.tables s /\
    Database.snapshot s' = Database.snapshot s /\
    Database.aborted s' = true.
Proof.
  intros HF HT. unfold Database.tryJob, Database.query. cbv zeta.
  rewrite HF. eexists. split; [reflexivity|]. cbn. rewrite HT.
  repeat split. apply orb_true_r.
Qed.

Lemma tryJob_faulted_main (fault : nat -> Main.Command -> bool)
      (clock : nat -> string) (job : ProcessedJob) (s : Main.Session) :
  (forall n now, fault n (Main.InsertJob (Main.jobValues now job)) = true) ->
  Main.inTransaction s = true ->
  fst (Main.tryJob fault clock job s) = Throws /\
  Main.tables (snd (Main.tryJob fault clock job s)) = Main.tables s /\
  Main.snapshot (snd (Main.tryJob fault clock job s)) = Main.snapshot s /\
  Main.aborted (snd (Main.tryJob fault clock job s)) = true.
Proof.
  intros HF HT. unfold Main.tryJob, Main.query. cbv zeta.
  rewrite HF. cbn. rewrite HT. repeat split. apply orb_true_r.
Qed.

(** C4: in both copies of the routine, on the PostgreSQL server the code
    connects to, a job whose INSERT fails is not isolated. The jobs before
    it ran to their end and are counted, the failed statement leaves the
    transaction aborted, every job after it is refused, and the COMMIT,
    which is served, rolls the transaction back: the call returns the
    number of jobs before the failing one and the rows of both tables are
    those it found. *)
Theorem failing_job_loses_the_batch
        (faultD : nat -> Database.Command -> bool) (clockD : nat -> Database.Timestamp)
        (sD : Database.Session)
        (faultM : nat -> Main.Command -> bool) (clockM : nat -> string)
        (sM : Main.Session)
        (before : list ProcessedJob) (bad : ProcessedJob) (rest : list ProcessedJob) :
  (forall n, faultD n Database.Connect = false) ->
  (forall n, faultD n Database.Begin = false) ->
  (forall n, faultD n Database.Commit = false) ->
  (forall n id email company domain,
      faultD n (Database.InsertContact id email company domain) = false) ->
  (forall n job, In job before -> faultD n (Database.InsertJob job) = false) ->
  (forall n, faultD n (Database.InsertJob bad) = true) ->
  (forall n, faultM n Main.Connect = false) ->
  (forall n, faultM n Main.Begin = false) ->
  (forall n, faultM n Main.Commit = false) ->
  (forall n id name title email now,
      faultM n (Main.InsertContact id name title email now) = false) ->
  (forall n now job, In job before ->
                     faultM n (Main.InsertJob (Main.jobValues now job)) = false) ->
  (forall n now, faultM n (Main.InsertJob (Main.jobValues now bad)) = true) ->
  (exists s',
     Database.insertJobsIntoDatabase faultD clockD (Some sD) (before ++ bad :: rest)
       = (Returns (List.length before), Some s') /\
     Database.jobs (Database.tables s') = Database.jobs (Database.tables sD) /\
     Database.contacts (Database.tables s') = Database.contacts (Database.tables sD) /\
     Database.snapshot s' = None /\
     last (Database.issued s') Database.Connect = Database.Commit) /\
  (exists s',
     Main.insertJobsIntoDatabase faultM clockM (Some sM) (before ++ bad :: rest)
       = (List.length before, Some s') /\
     Main.jobs (Main.tables s') = Main.jobs (Main.tables sM) /\
     Main.contacts (Main.tables s') = Main.contacts (Main.tables sM) /\
     Main.snapshot s' = None /\
     last (Main.issued s') Main.Connect = Main.Commit).
Proof.
  intros DC DB DM DE DJ DF MC MB MM ME MJ MF. split.
  - unfold Database.insertJobsIntoDatabase.
    rewrite (query_connect faultD clockD sD DC).
    rewrite (query_begin faultD clockD _ DB).
    match goal with
    | |- context [Database.jobsLoop faultD clockD _ 0 ?x] => set (s1 := x)
    end.
    rewrite jobsLoop_app.
    destruct (jobsLoop_served faultD clockD DE before DJ 0%nat s1 eq_refl)
      as [s2 [L [_ [_ [S2 A2]]]]].
    rewrite L. cbn [fst snd Database.jobsLoop]. rewrite Nat.add_0_l.
    destruct (tryJob_faulted faultD clockD bad s2 DF) as [s3 [T [T1 [T2 T3]]]].
    { unfold Database.inTransaction. now rewrite S2. }
    rewrite T.
    match goal with
    | |- context [Database.jobsLoop faultD clockD rest ?n s3] =>
        destruct (jobsLoop_aborted faultD clockD rest n s3 T3)
          as [s4 [L4 [K1 [K2 K3]]]]
    end.
    rewrite L4. rewrite (query_commit faultD clockD s4 DM). rewrite K3.
    unfold Database.restored. rewrite K2, T2, S2. subst s1.
    cbn [Database.snapshot Database.tables].
    eexists. split; [reflexivity|]. cbn [Database.tables Database.snapshot Database.issued].
    repeat split. apply last_last.
  - unfold Main.insertJobsIntoDatabase.
    rewrite (query_connect_main faultM sM MC).
    rewrite (query_begin_main faultM _ MB).
    match goal with
    | |- context [Main.jobsLoop faultM clockM _ 0 ?x] => set (s1 := x)
    end.
    rewrite jobsLoop_app_main.
    destruct (jobsLoop_served_main faultM clockM ME before MJ 0%nat s1 eq_refl)
      as [L [S2 A2]].
    destruct (Main.jobsLoop faultM clockM before 0 s1) as [n s2].
    cbn [fst snd] in *. subst n. cbn [Main.jobsLoop]. rewrite Nat.add_0_l.
    destruct (tryJob_faulted_main faultM clockM bad s2 MF) as [T [T1 [T2 T3]]].
    { unfold Main.inTransaction. now rewrite S2. }
    destruct (Main.tryJob faultM clockM bad s2) as [o s3]. cbn [fst snd] in *.
    subst o.
    match goal with
    | |- context [Main.jobsLoop faultM clockM rest ?n s3] =>
        destruct (jobsLoop_aborted_main faultM clockM rest n s3 T3)
          as [L4 [K1 [K2 K3]]];
        destruct (Main.jobsLoop faultM clockM rest n s3) as [n' s4]
    end.
    cbn [fst snd] in *. subst n'.
    rewrite (query_commit_main faultM s4 MM). rewrite K3.
    unfold Main.restored. rewrite K2, T2, S2. subst s1.
    cbn [Main.snapshot Main.tables].
    eexists. split; [reflexivity|]. cbn [Main.tables Main.snapshot Main.issued].
    repeat split. apply last_last.
Qed.

(** Three jobs, the second refused: in either copy the call returns 1 and
    both tables are as empty as before. *)
Lemma failing_job_loses_the_batch_witness :
  (exists s',
     Database.insertJobsIntoDatabase refusesPastry ticking (Some emptyStore)
       ([lineCook] ++ pastryChef :: [dishwasher]) = (Returns 1%nat, Some s') /\
     Database.jobs (Database.tables s') = [] /\
     Database.contacts (Database.tables s') = []) /\
  (exists s',
     Main.insertJobsIntoDatabase refusesPastryMain isoTime (Some emptyStoreMain)
       ([lineCook] ++ pastryChef :: [dishwasher]) = (1%nat, Some s') /\
     Main.jobs (Main.tables s') = [] /\
     Main.contacts (Main.tables s') = []).
Proof.
  destruct (failing_job_loses_the_batch refusesPastry ticking emptyStore
              refusesPastryMain isoTime emptyStoreMain
              [lineCook] pastryChef [dishwasher])
    as [[sD [D1 [D2 [D3 _]]]] [sM [M1 [M2 [M3 _]]]]];
    try (intros; reflexivity).
  - intros n job [<-|[]]. reflexivity.
  - intros n now job [<-|[]]. reflexivity.
  - split; [exists sD | exists sM]; repeat split; assumption.
Defined.

(** ** Idempotence of the upsert (C1) *)

Section StoreFactsMain.

Import Main.










End StoreFactsMain.

Section IdempotenceMain.

Import Main.

Variable fault : nat -> Command -> bool.
Variable clock : nat -> string.

Hypothesis served_all_main : forall n c, fault n c = false.





End IdempotenceMain.




